(** * tc4400_exporter: table extraction and row decoding

    A shallow embedding of the exporter's HTML table extractor
    ([parseTables], [parseTable]) and of its collector ([scrape],
    [Collect]), with the properties of the specification that concern
    them.

    Conventions.
    - Go strings are byte strings: Rocq's [string].
    - A [*html.Node] is a position in the parsed tree: a [ptr] pairs the
      node with the chain of its ancestors, so that [Parent],
      [FirstChild] and [NextSibling] are the pointer fields of the Go
      struct and [None] is the nil pointer.
    - Loops [for { ... }] are a body returning [Continue]/[Stop], iterated
      under a fuel bound; the termination theorems give the fuel that
      always suffices.
    - A run-time panic (nil dereference, index out of range, a failing
      [Must...] constructor) is the result [Panic]. *)

From Stdlib Require Import ZArith Floats Ascii.
From stdpp Require Import base option list strings gmap fin_maps pretty.

Set Warnings "-register-all,-clear-no-such-hyp".

Local Open Scope string_scope.
Local Open Scope list_scope.
Local Open Scope nat_scope.

(** * The program *)

(** ** Results and loop control *)

Inductive result (A : Type) : Type :=
  | Ret (a : A)
  | Panic
  | OutOfFuel.
Arguments Ret {A} a.
Arguments Panic {A}.
Arguments OutOfFuel {A}.

Global Instance result_bind : MBind result := λ A B k r,
  match r with
  | Ret a => k a
  | Panic => Panic
  | OutOfFuel => OutOfFuel
  end.

Inductive flow (S R : Type) : Type :=
  | Continue (s : S)
  | Stop (r : result R).
Arguments Continue {S R} s.
Arguments Stop {S R} r.

Fixpoint iterate {S R} (body : S → flow S R) (fuel : nat) (s : S) : result R :=
  match fuel with
  | 0 => OutOfFuel
  | Datatypes.S fuel' =>
      match body s with
      | Continue s' => iterate body fuel' s'
      | Stop r => r
      end
  end.

Fixpoint foldM {A B} (f : A → B → result A) (a : A) (l : list B) : result A :=
  match l with
  | [] => Ret a
  | b :: l' => a' ← f a b; foldM f a' l'
  end.

(** ** Strings: the library functions the exporter calls *)

Module Strings.

Definition byte (n : nat) : ascii := Ascii.ascii_of_nat n.
Definition code (a : ascii) : nat := Ascii.nat_of_ascii a.

Definition bytes (s : string) : list ascii := String.list_ascii_of_string s.
Definition of_bytes (l : list ascii) : string := String.string_of_list_ascii l.

(** [unicode.IsSpace] on the UTF-8 encoding: the one-byte runes
    U+0009..U+000D and U+0020, *)
Definition isSpace1 (a : ascii) : bool :=
  let n := code a in
  (9 <=? n) && (n <=? 13) || (n =? 32).

(** the two-byte runes U+0085 and U+00A0, *)
Definition isSpace2 (a b : ascii) : bool :=
  (code a =? 194) && ((code b =? 133) || (code b =? 160)).

(** and the three-byte runes U+1680, U+2000..U+200A, U+2028, U+2029,
    U+202F, U+205F and U+3000. *)
Definition isSpace3 (a b c : ascii) : bool :=
  let '(x, y, z) := (code a, code b, code c) in
  (x =? 225) && (y =? 154) && (z =? 128)
  || (x =? 226) && (y =? 128)
     && ((128 <=? z) && (z <=? 138) || (z =? 168) || (z =? 169) || (z =? 175))
  || (x =? 226) && (y =? 129) && (z =? 159)
  || (x =? 227) && (y =? 128) && (z =? 128).

Fixpoint trimLeft (l : list ascii) : list ascii :=
  match l with
  | [] => []
  | a :: l1 =>
      if isSpace1 a then trimLeft l1 else
      match l1 with
      | [] => l
      | b :: l2 =>
          if isSpace2 a b then trimLeft l2 else
          match l2 with
          | [] => l
          | c :: l3 => if isSpace3 a b c then trimLeft l3 else l
          end
      end
  end.

(** The same scan from the end of the string, on the reversed bytes. *)
Fixpoint trimLeftRev (l : list ascii) : list ascii :=
  match l with
  | [] => []
  | a :: l1 =>
      if isSpace1 a then trimLeftRev l1 else
      match l1 with
      | [] => l
      | b :: l2 =>
          if isSpace2 b a then trimLeftRev l2 else
          match l2 with
          | [] => l
          | c :: l3 => if isSpace3 c b a then trimLeftRev l3 else l
          end
      end
  end.

(** [strings.TrimSpace] *)
Definition TrimSpace (s : string) : string :=
  of_bytes (rev (trimLeftRev (rev (trimLeft (bytes s))))).

(** [strings.Split(s, sep)] for a one-byte separator: the pieces between
    the separators, one more than there are separators. *)
Fixpoint splitBytes (sep : ascii) (l : list ascii) : list (list ascii) :=
  match l with
  | [] => [[]]
  | a :: l' =>
      match splitBytes sep l' with
      | [] => [[]]
      | piece :: pieces =>
          if Ascii.eqb a sep then [] :: piece :: pieces
          else (a :: piece) :: pieces
      end
  end.

Definition Split (s : string) (sep : ascii) : list string :=
  of_bytes <$> splitBytes sep (bytes s).

Definition isDigit (a : ascii) : bool :=
  (48 <=? code a) && (code a <=? 57).

Definition digitsValue (l : list ascii) : Z :=
  foldl (λ acc a, 10 * acc + Z.of_nat (code a - 48))%Z 0%Z l.

Definition allDigits (l : list ascii) : bool :=
  negb (bool_decide (l = [])) && forallb isDigit l.

(** [strconv.ParseInt(s, 10, 64)]: an optional sign, then one or more
    decimal digits, and a value that fits int64; [None] is a non-nil
    error (syntax or range). *)
Definition ParseInt (s : string) : option Z :=
  let '(neg, digits) :=
    match bytes s with
    | a :: l => if Ascii.eqb a "-" then (true, l)
                else if Ascii.eqb a "+" then (false, l)
                else (false, a :: l)
    | [] => (false, [])
    end in
  if allDigits digits then
    let v := if neg then (- digitsValue digits)%Z else digitsValue digits in
    if ((- 2 ^ 63 <=? v) && (v <? 2 ^ 63))%Z then Some v else None
  else None.

(** [fmt.Sprintf("%02d", v)]: decimal, padded with zeros to width 2; the
    sign of a negative number counts for the width. *)
Definition Sprintf02d (v : Z) : string :=
  if (v <? 0)%Z then "-" +:+ pretty (Z.to_N (- v))
  else if (v <? 10)%Z then "0" +:+ pretty (Z.to_N v)
  else pretty (Z.to_N v).

End Strings.

(** [unicode/utf8] *)
Module Utf8.

(** The table [first] with [acceptRanges]: for a byte that starts a
    sequence of more than one byte, the length of the sequence and the
    range its second byte has to be in. *)
Definition first (x : nat) : option (nat * nat * nat) :=
  if (194 <=? x) && (x <=? 223) then Some (2, 128, 191)
  else if x =? 224 then Some (3, 160, 191)
  else if (225 <=? x) && (x <=? 236) then Some (3, 128, 191)
  else if x =? 237 then Some (3, 128, 159)
  else if (238 <=? x) && (x <=? 239) then Some (3, 128, 191)
  else if x =? 240 then Some (4, 144, 191)
  else if (241 <=? x) && (x <=? 243) then Some (4, 128, 191)
  else if x =? 244 then Some (4, 128, 143)
  else None.

Definition between (lo : nat) (a : ascii) (hi : nat) : bool :=
  (lo <=? Strings.code a) && (Strings.code a <=? hi).

Fixpoint validBytes (l : list ascii) : bool :=
  match l with
  | [] => true
  | a :: l1 =>
      if Strings.code a <? 128 then validBytes l1 else
      match first (Strings.code a) with
      | None => false
      | Some (size, lo, hi) =>
          match l1 with
          | [] => false
          | b :: l2 =>
              between lo b hi &&
              if size =? 2 then validBytes l2 else
              match l2 with
              | [] => false
              | c :: l3 =>
                  between 128 c 191 &&
                  if size =? 3 then validBytes l3 else
                  match l3 with
                  | [] => false
                  | d :: l4 => between 128 d 191 && validBytes l4
                  end
              end
          end
      end
  end.

(** [utf8.ValidString] *)
Definition ValidString (s : string) : bool := validBytes (Strings.bytes s).

End Utf8.

(** ** The parsed document: [html.Node] *)

Inductive NodeType : Type :=
  | ErrorNode | TextNode | DocumentNode | ElementNode | CommentNode | DoctypeNode.

(** [atom.Atom]: the tags the extractor tests for; [AtomZero] is the zero
    atom of text, comments and unknown tags, [OtherAtom] any other known
    tag. *)
Inductive Atom : Type :=
  | AtomZero | Table | Thead | Tbody | Tr | Th | Td | OtherAtom (tag : string).

Global Instance NodeType_eq_dec : EqDecision NodeType.
Proof. solve_decision. Defined.
Global Instance Atom_eq_dec : EqDecision Atom.
Proof. solve_decision. Defined.

(** The data fields of a node, with its children in sibling order (the
    chain [FirstChild], [NextSibling], ...). *)
Inductive Node : Type :=
  | mkNode (type : NodeType) (atom : Atom) (data : string) (children : list Node).

Definition Type_ (n : Node) : NodeType := let 'mkNode t _ _ _ := n in t.
Definition DataAtom (n : Node) : Atom := let 'mkNode _ a _ _ := n in a.
Definition Data (n : Node) : string := let 'mkNode _ _ d _ := n in d.
Definition children (n : Node) : list Node := let 'mkNode _ _ _ cs := n in cs.

Fixpoint node_size (n : Node) : nat :=
  let 'mkNode _ _ _ cs := n in S (sum_list (map node_size cs)).

Definition forest_size (l : list Node) : nat := sum_list (map node_size l).

(** What [html.Parse] returns: a document node, which always has children
    (the parser supplies the html element when the input has none). *)
Record Document : Type := mkDocument { doc_first : Node; doc_rest : list Node }.

Definition doc_node (d : Document) : Node :=
  mkNode DocumentNode AtomZero "" (doc_first d :: doc_rest d).

(** *** Pointers into the tree *)

(** One level of the way up from a node: its earlier siblings (nearest
    first), its parent's data fields, and its later siblings. *)
Record frame : Type := mkFrame {
  before : list Node;
  above : NodeType * Atom * string;
  after : list Node
}.

(** A [*html.Node] that is not nil.  The pointer to the root of the tree
    walked has no frame: it is the only such pointer. *)
Record ptr : Type := mkPtr { node : Node; up : list frame }.

Definition root (n : Node) : ptr := mkPtr n [].
Definition is_root (p : ptr) : bool := bool_decide (length (up p) = 0).

Definition Parent (p : ptr) : option ptr :=
  match up p with
  | [] => None
  | f :: fs =>
      let '(t, a, d) := above f in
      Some (mkPtr (mkNode t a d (rev (before f) ++ node p :: after f)) fs)
  end.

Definition FirstChild (p : ptr) : option ptr :=
  match children (node p) with
  | [] => None
  | c :: cs =>
      Some (mkPtr c (mkFrame [] (Type_ (node p), DataAtom (node p), Data (node p)) cs
                       :: up p))
  end.

Definition NextSibling (p : ptr) : option ptr :=
  match up p with
  | [] => None
  | f :: fs =>
      match after f with
      | [] => None
      | s :: ss => Some (mkPtr s (mkFrame (node p :: before f) (above f) ss :: fs))
      end
  end.

(** The nodes at or after a pointer in document order: the variant of both
    walks. *)
Definition frame_size (f : frame) : nat := forest_size (after f).
Definition remaining (p : ptr) : nat :=
  node_size (node p) + sum_list (map frame_size (up p)).

(** ** parseTable *)

Definition is_element (n : Node) (a : Atom) : bool :=
  bool_decide (Type_ n = ElementNode) && bool_decide (DataAtom n = a).

(** The loop over the content of a cell.  State: [contentNode] (nil when
    the walk is over) and [contentBuffer].  The cell is the root of the
    pointers, so [contentNode.Parent != cellNode] reads [negb (is_root _)];
    [contentNode] is never the cell itself, whose [Parent] lies outside the
    pointers. *)
Definition content_next (contentNode : ptr) (contentBuffer : string)
    : flow (option ptr * string) string :=
  match NextSibling contentNode with
  | Some s => Continue (Some s, contentBuffer)
  | None =>
      match Parent contentNode with
      | None => Stop Panic
      | Some p =>
          if negb (is_root p) then Continue (NextSibling p, contentBuffer)
          else Continue (None, contentBuffer)
      end
  end.

Definition content_body (st : option ptr * string) : flow (option ptr * string) string :=
  let '(contentNode, contentBuffer) := st in
  match contentNode with
  | None => Stop (Ret contentBuffer)
  | Some c =>
      if bool_decide (Type_ (node c) = TextNode) then
        content_next c (contentBuffer +:+ Data (node c))
      else
        match FirstChild c with
        | Some f => Continue (Some f, contentBuffer)
        | None => content_next c contentBuffer
        end
  end.

Definition content_loop (fuel : nat) (contentNode : option ptr) (contentBuffer : string)
    : result string :=
  iterate content_body fuel (contentNode, contentBuffer).

(** [contentBuffer.Reset()], the walk from [cellNode.FirstChild], and
    [strings.TrimSpace(contentBuffer.String())]. *)
Definition cell_text (cellNode : Node) : result string :=
  s ← content_loop (node_size cellNode) (FirstChild (root cellNode)) "";
  Ret (Strings.TrimSpace s).

(** The three outer loops run along a [FirstChild]/[NextSibling] chain
    without leaving it: they visit [children] in order. *)
Definition parse_row (rowNode : Node) : result (list string) :=
  foldM (λ row cellNode,
           if is_element cellNode Th || is_element cellNode Td then
             s ← cell_text cellNode; Ret (row ++ [s])
           else Ret row)
        [] (children rowNode).

Definition parse_body (table : list (list string)) (bodyNode : Node)
    : result (list (list string)) :=
  foldM (λ table rowNode,
           if is_element rowNode Tr then
             row ← parse_row rowNode; Ret (table ++ [row])
           else Ret table)
        table (children bodyNode).

Definition parseTable (tableNode : Node) : result (list (list string)) :=
  foldM (λ table bodyNode,
           if is_element bodyNode Thead || is_element bodyNode Tbody then
             parse_body table bodyNode
           else Ret table)
        [] (children tableNode).

(** ** parseTables *)

Definition tables_next (n : ptr) (tables : list (list (list string)))
    : flow (ptr * list (list (list string))) (list (list (list string))) :=
  match NextSibling n with
  | Some s => Continue (s, tables)
  | None =>
      match Parent n with
      | None => Stop Panic   (* n.Parent is nil and differs from doc: nil.NextSibling *)
      | Some p =>
          if negb (is_root p) then
            match NextSibling p with
            | Some s => Continue (s, tables)
            | None => Stop (Ret tables)
            end
          else Stop (Ret tables)
      end
  end.

Definition tables_body (st : ptr * list (list (list string)))
    : flow (ptr * list (list (list string))) (list (list (list string))) :=
  let '(n, tables) := st in
  if is_element (node n) Table then
    match parseTable (node n) with
    | Ret t => tables_next n (tables ++ [t])
    | Panic => Stop Panic
    | OutOfFuel => Stop OutOfFuel
    end
  else
    match FirstChild n with
    | Some c => Continue (c, tables)
    | None => tables_next n tables
    end.

(** The walk of [parseTables] over the tree under [doc]. *)
Definition tables_loop (fuel : nat) (n : ptr) (tables : list (list (list string)))
    : result (list (list (list string))) :=
  iterate tables_body fuel (n, tables).

Definition walk_tables (doc : Node) : result (list (list (list string))) :=
  tables_loop (node_size doc) (root doc) [].

(** [parseTables(r)]: [r] is the body as [html.Parse] reads it, [None] when
    it returns an error; the result is [(tables, err)], [None] for a
    non-nil [err]. *)
Definition parseTables (r : option Document) : result (option (list (list (list string)))) :=
  match r with
  | None => Ret None
  | Some doc => tables ← walk_tables (doc_node doc); Ret (Some tables)
  end.

(** ** The collector *)

(** *** Numbers *)

(** int64 arithmetic wraps around. *)
Definition wrap64 (z : Z) : Z := ((z + 2 ^ 63) mod 2 ^ 64 - 2 ^ 63)%Z.

(** The conversion [float64(v)] of an int64: the nearest float, ties to
    even. *)
Definition float64_of_int64 (v : Z) : float :=
  let magnitude (z : Z) : float :=
    if (z <? 2 ^ 63)%Z then PrimFloat.of_uint63 (Uint63.of_Z z)
    else (PrimFloat.of_uint63 (Uint63.of_Z (2 ^ 62)) * 2)%float in
  if (v <? 0)%Z then PrimFloat.opp (magnitude (- v)%Z) else magnitude v.

(** *** Descriptors and metrics ([prometheus.Desc], [prometheus.Metric]) *)

Record Desc : Type := mkDesc {
  fqName : string;
  help : string;
  variableLabels : list string
}.

Inductive ValueType : Type := CounterValue | GaugeValue | UntypedValue.

Record Metric : Type := mkMetric {
  desc : Desc;
  valueType : ValueType;
  value : float;
  labelValues : list string
}.

Global Instance Desc_eq_dec : EqDecision Desc.
Proof. solve_decision. Defined.

Definition namespace : string := "tc4400".

Definition BuildFQName (namespace subsystem name : string) : string :=
  if bool_decide (name = "") then ""
  else if negb (bool_decide (namespace = "")) && negb (bool_decide (subsystem = ""))
    then namespace +:+ "_" +:+ subsystem +:+ "_" +:+ name
  else if negb (bool_decide (namespace = "")) then namespace +:+ "_" +:+ name
  else if negb (bool_decide (subsystem = "")) then subsystem +:+ "_" +:+ name
  else name.

Definition NewDesc (fqName help : string) (variableLabels : list string) : Desc :=
  mkDesc fqName help variableLabels.

(** [validateLabelValues]: as many values as the descriptor has variable
    labels, each of them valid UTF-8. *)
Definition validateLabelValues (vals : list string) (expectedNumberOfValues : nat) : bool :=
  bool_decide (length vals = expectedNumberOfValues) && forallb Utf8.ValidString vals.

(** [prometheus.MustNewConstMetric] panics when [NewConstMetric] returns an
    error: for a descriptor without an error of its own, as those of
    this program are, when the label values do not pass
    [validateLabelValues]. *)
Definition MustNewConstMetric (desc : Desc) (valueType : ValueType) (value : float)
    (labelValues : list string) : result Metric :=
  if validateLabelValues labelValues (length (variableLabels desc)) then
    Ret (mkMetric desc valueType value labelValues)
  else Panic.

Definition channelLabelNames : list string := ["channel"].
Definition interfaceLabelNames : list string := ["interface"].

Definition newChannelMetric (subsystemName metricName docString : string)
    (extraLabels : list string) : Desc :=
  NewDesc (BuildFQName namespace subsystemName metricName) docString
    (channelLabelNames ++ extraLabels).

Definition targetUpMetric : Desc :=
  NewDesc (BuildFQName namespace "" "up") "Was the last scrape of TC4400 succesful." [].

(** [type metrics map[int]*prometheus.Desc] *)
Definition networkMetrics : gmap nat Desc :=
  list_to_map [
    (1, NewDesc (BuildFQName namespace "network" "receive_bytes_total") "" ["interface"]);
    (2, NewDesc (BuildFQName namespace "network" "receive_packets_total") "" ["interface"]);
    (3, NewDesc (BuildFQName namespace "network" "receive_errs_total") "" ["interface"]);
    (4, NewDesc (BuildFQName namespace "network" "receive_drop_total") "" ["interface"]);
    (5, NewDesc (BuildFQName namespace "network" "transmit_bytes_total") "" ["interface"]);
    (6, NewDesc (BuildFQName namespace "network" "transmit_packets_total") "" ["interface"]);
    (7, NewDesc (BuildFQName namespace "network" "transmit_errs_total") "" ["interface"]);
    (8, NewDesc (BuildFQName namespace "network" "transmit_drop_total") "" ["interface"])
  ].

Definition downstreamChannelMetrics : gmap nat Desc :=
  list_to_map [
    (2, newChannelMetric "downstream" "locked" "Downstream Lock Status" []);
    (3, newChannelMetric "downstream" "channel_type" "Downstream Channel Type" ["type"]);
    (4, newChannelMetric "downstream" "bonded" "Downstream Bonding Status" []);
    (5, newChannelMetric "downstream" "center_frequency_hz" "Downstream Center Frequency" []);
    (6, newChannelMetric "downstream" "width_hz" "Downstream Width" []);
    (7, newChannelMetric "downstream" "snr_threshold_db" "Downstream SNR/MER Threshold Value" []);
    (8, newChannelMetric "downstream" "receive_level_dbmv" "Downstream Receive Level" []);
    (9, newChannelMetric "downstream" "modulation" "Downstream Modulation/Profile ID" ["modulation"]);
    (10, newChannelMetric "downstream" "codewords_unerrored_total" "Downstream Unerrored Codewords" []);
    (11, newChannelMetric "downstream" "codewords_corrected_total" "Downstream Corrected Codewords" []);
    (12, newChannelMetric "downstream" "codewords_uncorrectable_total" "Downstream Uncorrectable Codewords" [])
  ].

Definition upstreamChannelMetrics : gmap nat Desc :=
  list_to_map [
    (2, newChannelMetric "upstream" "locked" "Upstream Lock Status" []);
    (3, newChannelMetric "upstream" "channel_type" "Downstream Channel Type" ["type"]);
    (4, newChannelMetric "upstream" "bonded" "Upstream Bonding Status" []);
    (5, newChannelMetric "upstream" "center_frequency_hz" "Upstream Center Frequency" []);
    (6, newChannelMetric "upstream" "width_hz" "Upstream Width" []);
    (7, newChannelMetric "upstream" "transmit_level_dbmv" "Upstream Transmit Level" []);
    (8, newChannelMetric "upstream" "modulation" "Upstream Modulation/Profile ID" ["modulation"])
  ].

(** *** The exporter's state and the channel *)

(** What [Collect] sends on [ch]: constant metrics, the exporter's own
    counters, and the samples of the instrumented HTTP client. *)
Inductive Sent : Type :=
  | Const (m : Metric)
  | TotalScrapes (count : nat)
  | ParseFailures (file : string) (count : nat)
  | ClientRequests (code method : string) (histogram : bool).

(** The counters of [Exporter] that [scrape] updates, and the metrics sent
    on [ch] so far, oldest first. *)
Record State : Type := mkState {
  totalScrapes : nat;
  parseFailures : gmap string nat;
  ch : list Sent
}.

(** [e.parseFailures.WithLabelValues(file).Inc()] *)
Definition incParseFailures (file : string) (st : State) : State :=
  mkState (totalScrapes st)
          (<[file := S (default 0 (parseFailures st !! file))]> (parseFailures st))
          (ch st).

(** [ch <- x] *)
Definition send (x : Sent) (st : State) : State :=
  mkState (totalScrapes st) (parseFailures st) (ch st ++ [x]).

(** [e.totalScrapes.Inc()] *)
Definition incTotalScrapes (st : State) : State :=
  mkState (S (totalScrapes st)) (parseFailures st) (ch st).

(** [l[i]] and [l[k:]], which panic out of range. *)
Definition index {A} (l : list A) (i : nat) : result A :=
  match l !! i with
  | Some x => Ret x
  | None => Panic
  end.

Definition slice_from {A} (l : list A) (k : nat) : result (list A) :=
  if bool_decide (k ≤ length l) then Ret (drop k l) else Panic.

(** What [e.fetch(filename)] and then [html.Parse] give for a page. *)
Inductive fetched : Type :=
  | FetchError
  | Body (parsed : option Document).

(** [for i, metric := range m] visits the entries of the map once each, in
    an order that is not specified: an order for a map is a permutation of
    its entries. *)
Definition range_of (m : gmap nat Desc) (order : list (nat * Desc)) : Prop :=
  order ≡ₚ map_to_list m.

(** The orders of one execution of [scrape]: one per row of each table
    (numbered from the first row after the two skipped ones). *)
Record Orders : Type := mkOrders {
  networkOrder : nat → list (nat * Desc);
  downstreamOrder : nat → list (nat * Desc);
  upstreamOrder : nat → list (nat * Desc)
}.

Definition orders_ok (o : Orders) : Prop :=
  ∀ k, range_of networkMetrics (networkOrder o k)
       ∧ range_of downstreamChannelMetrics (downstreamOrder o k)
       ∧ range_of upstreamChannelMetrics (upstreamOrder o k).

(** [for _, row := range rows], the body given the number of the row. *)
Fixpoint for_rows (body : nat → State → list string → result State)
    (k : nat) (st : State) (rows : list (list string)) : result State :=
  match rows with
  | [] => Ret st
  | row :: rows' => st' ← body k st row; for_rows body (S k) st' rows'
  end.

(** What the [switch] of a channel loop leaves for a column: a value and
    its label values with [err == nil], a non-nil [err], or [continue]. *)
Inductive decoded : Type :=
  | Value (value : float) (labelValues : list string)
  | Err
  | Skipped.

Definition decode_int (cell : string) (labelValues : list string) : decoded :=
  match Strings.ParseInt cell with
  | Some valueInt => Value (float64_of_int64 valueInt) labelValues
  | None => Err
  end.

Definition decode_equal (cell expected : string) (labelValues : list string) : decoded :=
  Value (if bool_decide (cell = expected) then 1%float else 0%float) labelValues.

(** Columns 5 and 6: [parts[0]] is parsed before the unit is looked at, and
    an unknown unit leaves the loop body before [err] is. *)
Definition decode_hz (cell : string) (labelValues : list string) : decoded :=
  match Strings.Split cell " " with
  | [number; unit] =>
      let parsed := Strings.ParseInt number in
      if bool_decide (unit = "Hz") then
        match parsed with
        | Some valueInt => Value (float64_of_int64 valueInt) labelValues
        | None => Err
        end
      else if bool_decide (unit = "kHz") then
        match parsed with
        | Some valueInt => Value (float64_of_int64 (wrap64 (valueInt * 1000))) labelValues
        | None => Err
        end
      else Skipped
  | _ => Skipped
  end.

Section Scrape.

(** [strconv.ParseFloat(s, 64)], [None] for a non-nil error. *)
Variable ParseFloat : string → option float.

Definition decode_float (cell unit : string) (labelValues : list string) : decoded :=
  match Strings.Split cell " " with
  | [number; unit'] =>
      if negb (bool_decide (unit' = unit)) then Skipped
      else match ParseFloat number with
           | Some value => Value value labelValues
           | None => Err
           end
  | _ => Skipped
  end.

(** **** statsifc.html *)

Definition network_column (row : list string) (st : State) (entry : nat * Desc)
    : result State :=
  let '(i, metric) := entry in
  cell ← index row i;
  match Strings.ParseInt cell with
  | None => Ret (incParseFailures "statsifc.html" st)
  | Some valueInt =>
      interface ← index row 0;
      m ← MustNewConstMetric metric CounterValue (float64_of_int64 valueInt) [interface];
      Ret (send (Const m) st)
  end.

Definition network_row (order : list (nat * Desc)) (st : State) (row : list string)
    : result State :=
  if negb (bool_decide (length row = 9)) then Ret st
  else foldM (network_column row) st order.

Definition scrape_statsifc (o : Orders) (page : fetched) (st : State) : result State :=
  match page with
  | FetchError => Ret st
  | Body parsed =>
      res ← parseTables parsed;
      match res with
      | None => Ret (incParseFailures "statsifc.html" st)
      | Some tables =>
          (* [len(tables[0])] is evaluated only when [len(tables) >= 1] *)
          if bool_decide (length tables < 1)
             || bool_decide (length (default [] (tables !! 0)) < 2) then
            Ret (incParseFailures "statsifc.html" st)
          else
            table ← index tables 0;
            rows ← slice_from table 2;
            for_rows (λ k, network_row (networkOrder o k)) 0 st rows
      end
  end.

(** **** cmconnectionstatus.html *)

Definition downstream_decode (row : list string) (channelLabel : string) (i : nat)
    : result decoded :=
  let labelValues := [channelLabel] in
  match i with
  | 10 | 11 | 12 => cell ← index row i; Ret (decode_int cell labelValues)
  | 2 => cell ← index row i; Ret (decode_equal cell "Locked" labelValues)
  | 3 | 9 => cell ← index row i; Ret (Value 1%float (labelValues ++ [cell]))
  | 4 => cell ← index row i; Ret (decode_equal cell "Bonded" labelValues)
  | 5 | 6 => cell ← index row i; Ret (decode_hz cell labelValues)
  | 7 => cell ← index row i; Ret (decode_float cell "dB" labelValues)
  | 8 => cell ← index row i; Ret (decode_float cell "dBmV" labelValues)
  | _ => Ret Skipped
  end.

Definition upstream_decode (row : list string) (channelLabel : string) (i : nat)
    : result decoded :=
  let labelValues := [channelLabel] in
  match i with
  | 2 => cell ← index row i; Ret (decode_equal cell "Locked" labelValues)
  | 3 | 8 => cell ← index row i; Ret (Value 1%float (labelValues ++ [cell]))
  | 4 => cell ← index row i; Ret (decode_equal cell "Bonded" labelValues)
  | 5 | 6 => cell ← index row i; Ret (decode_hz cell labelValues)
  | 7 => cell ← index row i; Ret (decode_float cell "dBmV" labelValues)
  | _ => Ret Skipped
  end.

(** The body of a channel loop after its [switch]. *)
Definition channel_column (decode : nat → result decoded) (st : State)
    (entry : nat * Desc) : result State :=
  let '(i, metric) := entry in
  d ← decode i;
  match d with
  | Skipped => Ret st
  | Err => Ret (incParseFailures "cmconnectionstatus.html" st)
  | Value value labelValues =>
      m ← MustNewConstMetric metric CounterValue value labelValues;
      Ret (send (Const m) st)
  end.

Definition channel_row (width : nat)
    (decode : list string → string → nat → result decoded)
    (order : list (nat * Desc)) (st : State) (row : list string) : result State :=
  if negb (bool_decide (length row = width)) then Ret st
  else
    cell ← index row 1;
    match Strings.ParseInt cell with
    | None => Ret (incParseFailures "cmconnectionstatus.html" st)
    | Some channel =>
        let channelLabel := Strings.Sprintf02d channel in
        foldM (channel_column (decode row channelLabel)) st order
    end.

Definition downstream_row := channel_row 13 downstream_decode.
Definition upstream_row := channel_row 9 upstream_decode.

Definition scrape_cmconnectionstatus (o : Orders) (page : fetched) (st : State)
    : result State :=
  match page with
  | FetchError => Ret st
  | Body parsed =>
      res ← parseTables parsed;
      match res with
      | None => Ret (incParseFailures "cmconnectionstatus.html" st)
      | Some tables =>
          (* [len(tables[1])], [len(tables[2])] only when [len(tables) >= 3] *)
          if bool_decide (length tables < 3)
             || bool_decide (length (default [] (tables !! 1)) < 2)
             || bool_decide (length (default [] (tables !! 2)) < 2) then
            Ret (incParseFailures "cmconnectionstatus.html" st)
          else
            table1 ← index tables 1;
            rows1 ← slice_from table1 2;
            st ← for_rows (λ k, downstream_row (downstreamOrder o k)) 0 st rows1;
            table2 ← index tables 2;
            rows2 ← slice_from table2 2;
            for_rows (λ k, upstream_row (upstreamOrder o k)) 0 st rows2
      end
  end.

(** **** scrape and Collect *)

Definition scrape (o : Orders) (statsifc cmconnectionstatus : fetched) (st : State)
    : result (float * State) :=
  let st := incTotalScrapes st in
  st ← scrape_statsifc o statsifc st;
  st ← scrape_cmconnectionstatus o cmconnectionstatus st;
  Ret (1%float, st).

(** [Collect], under the exporter's mutex.  [client] lists what the two
    vectors of the instrumented HTTP client send (request code, method,
    and whether the sample is a histogram); [parseFailures.Collect]
    sends its children in the order of [map_to_list]. *)
Definition Collect (o : Orders) (statsifc cmconnectionstatus : fetched)
    (client : list (string * string * bool)) (st : State) : result State :=
  '(up, st) ← scrape o statsifc cmconnectionstatus st;
  m ← MustNewConstMetric targetUpMetric GaugeValue up [];
  let st := send (Const m) st in
  let st := send (TotalScrapes (totalScrapes st)) st in
  let st := foldl (λ st kv, send (ParseFailures kv.1 kv.2) st) st
              (map_to_list (parseFailures st)) in
  Ret (foldl (λ st c, send (ClientRequests c.1.1 c.1.2 c.2) st) st client).

End Scrape.

(** *** The exporter's own descriptors, Describe and a sequence of polls *)

(** The descriptors of the exporter's own metrics, as [prometheus.NewCounter],
    [NewCounterVec] and [NewHistogramVec] build them from their options. *)
Definition totalScrapesDesc : Desc :=
  NewDesc (BuildFQName namespace "" "exporter_scrapes_total")
    "Current total TC4400 scrapes." [].

Definition parseFailuresDesc : Desc :=
  NewDesc (BuildFQName namespace "" "exporter_parse_errors_total")
    "Number of errors while parsing HTML tables." ["file"].

Definition clientRequestCountDesc : Desc :=
  NewDesc (BuildFQName namespace "" "exporter_client_requests_total")
    "HTTP requests to TC4400" ["code"; "method"].

Definition clientRequestDurationDesc : Desc :=
  NewDesc (BuildFQName namespace "" "exporter_client_request_duration_seconds")
    "Histogram of TC4400 HTTP request latencies." ["code"; "method"].

(** [NewExporter]: the counters start at zero, the vector without
    children. *)
Definition NewExporter : State := mkState 0 ∅ [].

(** [Describe]: the descriptors sent on its channel, the three maps each
    in some order of its entries. *)
Definition Describe (network downstream upstream : list (nat * Desc)) : list Desc :=
  map snd network ++ map snd downstream ++ map snd upstream
  ++ [targetUpMetric; totalScrapesDesc; parseFailuresDesc;
      clientRequestCountDesc; clientRequestDurationDesc].

(** The descriptor of what [Collect] sends. *)
Definition sent_desc (x : Sent) : Desc :=
  match x with
  | Const m => desc m
  | TotalScrapes _ => totalScrapesDesc
  | ParseFailures _ _ => parseFailuresDesc
  | ClientRequests _ _ histogram =>
      if histogram then clientRequestDurationDesc else clientRequestCountDesc
  end.

(** One poll: the orders its loops take, what the two fetches give, and
    the samples of the HTTP client at the end of it. *)
Record Poll : Type := mkPoll {
  pollOrders : Orders;
  pollStatsifc : fetched;
  pollCmconnectionstatus : fetched;
  pollClient : list (string * string * bool)
}.

Section Polls.

Variable ParseFloat : string → option float.

(** [Collect] called once per poll, one after the other (the mutex
    serializes them), on the same exporter. *)
Definition Collects (polls : list Poll) (st : State) : result State :=
  foldM (λ st p, Collect ParseFloat (pollOrders p) (pollStatsifc p)
                   (pollCmconnectionstatus p) (pollClient p) st) st polls.

End Polls.

(** * Notions used in the properties *)

(** ** Table elements of a document *)

(** All table elements, in document order (depth first, parents before
    children). *)
Fixpoint all_tables (n : Node) : list Node :=
  match n with
  | mkNode _ _ _ cs =>
      (if is_element n Table then [n] else []) ++ concat (map all_tables cs)
  end.

(** The table elements that do not lie inside another table element, in
    document order. *)
Fixpoint outer_tables (n : Node) : list Node :=
  match n with
  | mkNode _ _ _ cs =>
      if is_element n Table then [n] else concat (map outer_tables cs)
  end.

(** The later siblings of a node and of its ancestors, innermost first, are
    what follows the node in the document; [pending_tables] are the outer
    tables among them. *)
Definition pending_tables (ctx : list (list Node)) : list Node :=
  concat (map outer_tables (concat ctx)).

Definition is_nil {A} (l : list A) : bool :=
  match l with
  | [] => true
  | _ => false
  end.

(** A node that is the last child of a last child: the walk of
    [parseTables] stops there, and loses nothing if no outer table
    follows. *)
Definition dead_end_ok (ctx : list (list Node)) : bool :=
  match ctx with
  | [] :: [] :: rest => is_nil (pending_tables rest)
  | _ => true
  end.

(** [climbs_ok ctx n]: below [n], whose later siblings and those of its
    ancestors are [ctx], every table element outside other tables and
    every childless node that is the last child of a last child has no
    outer table after it. *)
Fixpoint climbs_ok (ctx : list (list Node)) (n : Node) : bool :=
  match n with
  | mkNode _ _ _ cs =>
      if is_element n Table || is_nil cs then dead_end_ok ctx
      else (fix siblings (l : list Node) : bool :=
              match l with
              | [] => true
              | c :: later => climbs_ok (later :: ctx) c && siblings later
              end) cs
  end.

Fixpoint siblings_ok (ctx : list (list Node)) (l : list Node) : bool :=
  match l with
  | [] => true
  | c :: later => climbs_ok (later :: ctx) c && siblings_ok ctx later
  end.

Fixpoint stack_ok (ctx : list (list Node)) : bool :=
  match ctx with
  | [] => true
  | later :: ctx' => siblings_ok ctx' later && stack_ok ctx'
  end.

(** Documents in which the walk never has to climb more than one level to
    find the rest of the tables. *)
Definition climbs_one_level (d : Document) : bool := climbs_ok [] (doc_node d).

(** ** The variant and the invariant of the content walk *)

Definition content_variant (st : option ptr * string) : nat :=
  match st.1 with
  | None => 1
  | Some c => S (remaining c)
  end.

Definition content_inv (st : option ptr * string) : Prop :=
  match st.1 with
  | None => True
  | Some c => up c ≠ []
  end.

(** ** What a page adds to the state *)

(** The body of each loop over a metrics map changes the state in one of
    three ways, whatever the state is, or panics. *)
Inductive effect : Type :=
  | Emit (m : Metric)
  | Failure
  | Nothing
  | Crash.

Definition apply_effect (file : string) (st : State) (e : effect) : State :=
  match e with
  | Emit m => send (Const m) st
  | Failure => incParseFailures file st
  | Nothing | Crash => st
  end.

Definition apply_effects (file : string) (st : State) (es : list effect) : State :=
  foldl (apply_effect file) st es.

Definition emitted (es : list effect) : list Sent :=
  omap (λ e, match e with Emit m => Some (Const m) | _ => None end) es.

Definition failures (es : list effect) : nat :=
  sum_list_with (λ e, match e with Failure => 1 | _ => 0 end) es.

Definition inc_counter (file : string) (counters : gmap string nat) : gmap string nat :=
  <[file := S (default 0 (counters !! file))]> counters.

Definition effect_of (r : result effect) : effect :=
  match r with
  | Ret e => e
  | _ => Crash
  end.

Definition is_crash (e : effect) : bool :=
  match e with
  | Crash => true
  | _ => false
  end.

Definition crashes (es : list effect) : bool := existsb is_crash es.

(** The effects one after the other, up to the first panic. *)
Definition run_effects (file : string) (st : State) (es : list effect) : result State :=
  if crashes es then Panic else Ret (apply_effects file st es).

(** *** The entries of the three maps *)

Definition network_entry_ok (entry : nat * Desc) : bool :=
  (entry.1 <? 9) && (length (variableLabels entry.2) =? 1).

Definition downstream_entry_ok (entry : nat * Desc) : bool :=
  (entry.1 <? 13)
  && (length (variableLabels entry.2)
      =? if bool_decide (entry.1 = 3 ∨ entry.1 = 9) then 2 else 1).

Definition upstream_entry_ok (entry : nat * Desc) : bool :=
  (entry.1 <? 9)
  && (length (variableLabels entry.2)
      =? if bool_decide (entry.1 = 3 ∨ entry.1 = 8) then 2 else 1).

(** *** Rows of statsifc.html *)

Definition network_effect (row : list string) (entry : nat * Desc) : result effect :=
  let '(i, metric) := entry in
  cell ← index row i;
  match Strings.ParseInt cell with
  | None => Ret Failure
  | Some valueInt =>
      interface ← index row 0;
      m ← MustNewConstMetric metric CounterValue (float64_of_int64 valueInt) [interface];
      Ret (Emit m)
  end.

Definition network_row_effects (order : list (nat * Desc)) (row : list string)
    : list effect :=
  if negb (bool_decide (length row = 9)) then []
  else map (λ entry, effect_of (network_effect row entry)) order.

(** *** Rows of the channel tables *)

Definition channel_effect (decode : nat → result decoded) (entry : nat * Desc)
    : result effect :=
  let '(i, metric) := entry in
  d ← decode i;
  match d with
  | Skipped => Ret Nothing
  | Err => Ret Failure
  | Value value labelValues =>
      m ← MustNewConstMetric metric CounterValue value labelValues;
      Ret (Emit m)
  end.

Definition channel_row_effects (width : nat)
    (decode : list string → string → nat → result decoded)
    (order : list (nat * Desc)) (row : list string) : list effect :=
  if negb (bool_decide (length row = width)) then []
  else match row !! 1 with
       | None => []
       | Some cell =>
           match Strings.ParseInt cell with
           | None => [Failure]
           | Some channel =>
               map (λ entry,
                      effect_of (channel_effect (decode row (Strings.Sprintf02d channel)) entry))
                   order
           end
       end.

(** The label values a decoded column carries: the channel label first,
    and as many as the descriptor of the column has labels. *)
Definition decoded_ok (channelLabel : string) (arity : nat) (d : decoded) : Prop :=
  match d with
  | Value _ labelValues => head labelValues = Some channelLabel ∧ length labelValues = arity
  | _ => True
  end.

Definition table_effects (eff : list (nat * Desc) → list string → list effect)
    (order : nat → list (nat * Desc)) (table : list (list string)) : list effect :=
  concat (imap (λ k row, eff (order k) row) (drop 2 table)).

(** What statsifc.html adds, given what [html.Parse] made of it. *)
Definition statsifc_effects (o : Orders) (page : fetched) : list effect :=
  match page with
  | FetchError => []
  | Body parsed =>
      match parseTables parsed with
      | Ret (Some tables) =>
          match tables with
          | table :: _ =>
              if bool_decide (length table < 2) then [Failure]
              else table_effects network_row_effects (networkOrder o) table
          | _ => [Failure]
          end
      | _ => [Failure]
      end
  end.

(** What cmconnectionstatus.html adds. *)
Definition cmconnectionstatus_effects (ParseFloat : string → option float) (o : Orders)
    (page : fetched) : list effect :=
  match page with
  | FetchError => []
  | Body parsed =>
      match parseTables parsed with
      | Ret (Some tables) =>
          match tables with
          | _ :: table1 :: table2 :: _ =>
              if bool_decide (length table1 < 2) || bool_decide (length table2 < 2)
              then [Failure]
              else
                table_effects (channel_row_effects 13 (downstream_decode ParseFloat))
                  (downstreamOrder o) table1
                ++ table_effects (channel_row_effects 9 (upstream_decode ParseFloat))
                     (upstreamOrder o) table2
          | _ => [Failure]
          end
      | _ => [Failure]
      end
  end.

(** *** Cells that become label values *)

(** The cell of a column is valid UTF-8 (or the row has no such cell). *)
Definition label_ok (row : list string) (i : nat) : bool :=
  match row !! i with
  | Some cell => Utf8.ValidString cell
  | None => true
  end.

(** In the rows of the width the loop decodes, the cells of the columns
    that are passed on as label values are valid UTF-8. *)
Definition labels_ok (width : nat) (columns : list nat) (rows : list (list string)) : bool :=
  forallb (λ row, negb (length row =? width) || forallb (label_ok row) columns) rows.

(** The tables extracted from a page, and the rows after the two heading
    rows of its table [k]. *)
Definition tables_of (page : fetched) : list (list (list string)) :=
  match page with
  | Body parsed =>
      match parseTables parsed with
      | Ret (Some tables) => tables
      | _ => []
      end
  | FetchError => []
  end.

Definition rows_of (page : fetched) (k : nat) : list (list string) :=
  drop 2 (default [] (tables_of page !! k)).

(** The interface names of statsifc.html, and the channel types and
    modulations of cmconnectionstatus.html. *)
Definition statsifc_labels_ok (page : fetched) : bool :=
  labels_ok 9 [0] (rows_of page 0).

Definition cmconnectionstatus_labels_ok (page : fetched) : bool :=
  labels_ok 13 [3; 9] (rows_of page 1) && labels_ok 9 [3; 8] (rows_of page 2).

(** ** The invariant of the document walk *)

Definition ctx_of (n : ptr) : list (list Node) := map after (up n).

(** [all] are the outer tables of the document; the invariant of the
    walk says how far it has come: [tables] are the extractions of the
    outer tables before [n], and the tables at [n] and after it are still
    to come. *)
Definition extracted (nodes : list Node) (tables : list (list (list string))) : Prop :=
  Forall2 (λ n t, parseTable n = Ret t) nodes tables.

Definition walk_inv (all : list Node) (st : ptr * list (list (list string))) : Prop :=
  up st.1 ≠ []
  ∧ climbs_ok (ctx_of st.1) (node st.1) = true
  ∧ stack_ok (ctx_of st.1) = true
  ∧ ∃ done, extracted done st.2
            ∧ done ++ outer_tables (node st.1) ++ pending_tables (ctx_of st.1) = all.

Definition walk_done (all : list Node) (r : result (list (list (list string)))) : Prop :=
  ∃ tables, r = Ret tables ∧ extracted all tables.

(** ** Where the metrics of a page come from *)

(** [d] is a descriptor of the metrics map [m]. *)
Definition desc_of (m : gmap nat Desc) (d : Desc) : Prop := ∃ i, m !! i = Some d.

Definition sent_metric (P : Metric → Prop) (x : Sent) : Prop := ∃ m, x = Const m ∧ P m.

(** ** Sample trees *)

Module Sample.
Definition text (s : string) : Node := mkNode TextNode AtomZero s [].
Definition elem (a : Atom) (cs : list Node) : Node :=
  mkNode ElementNode a
    (match a with
     | Table => "table" | Thead => "thead" | Tbody => "tbody" | Tr => "tr"
     | Th => "th" | Td => "td" | OtherAtom t => t | AtomZero => ""
     end) cs.
Definition tag (t : string) (cs : list Node) : Node := elem (OtherAtom t) cs.
Definition html (head body : list Node) : Document :=
  mkDocument (tag "html" [tag "head" head; tag "body" body]) [].
(** [<table><tbody><tr><td>c1</td><td>c2</td>...</tr>...</tbody></table>] *)
Definition grid (rows : list (list string)) : Node :=
  elem Table [elem Tbody (map (λ r, elem Tr (map (λ c, elem Td [text c]) r)) rows)].
End Sample.

(** ** Induction on nodes, the text below a node, and sample documents *)

Fixpoint Node_ind' (P : Node → Prop)
    (step : ∀ t a d cs, Forall P cs → P (mkNode t a d cs)) (n : Node) : P n :=
  match n with
  | mkNode t a d cs =>
      step t a d cs
        ((fix all (l : list Node) : Forall P l :=
            match l with
            | [] => @List.Forall_nil _ P
            | c :: l' => @List.Forall_cons _ P c l' (Node_ind' P step c) (all l')
            end) cs)
  end.

(** The concatenation of the text nodes below a node, in document order. *)
Fixpoint descendant_text (n : Node) : string :=
  match n with
  | mkNode _ _ _ cs =>
      foldr (λ c s, (if bool_decide (Type_ c = TextNode) then Data c
                     else descendant_text c) +:+ s) "" cs
  end.

Module Docs.
Import Sample.

(** A table in a cell of a table: [<table><tr><td>a<table>...x...</table></td></tr></table>] *)
Definition nested : Document :=
  html [] [elem Table [elem Tbody [elem Tr [elem Td [text "a"; grid [["x"]]]]]]].

(** A title before the table: [<head><title>T</title></head><body><table>...] *)
Definition titled : Document :=
  html [tag "title" [text "T"]] [grid [["x"]]].

(** Two tables and a paragraph in the body, the second table with a
    table in a cell. *)
Definition two_tables : Document :=
  html [] [grid [["a"; " b "]]; tag "p" [];
           elem Table [elem Tbody [elem Tr [elem Td [grid [["c"]]]]]]].

(** [<td><b><i>x</i></b>y</td>] *)
Definition marked_cell : Node :=
  elem Td [tag "b" [tag "i" [text "x"]]; text "y"].
End Docs.

(** ** Sample rows and pages *)

Definition returned {A} (r : result A) : option A :=
  match r with
  | Ret a => Some a
  | _ => None
  end.

(** The first label value of each constant metric sent. *)
Definition first_labels (st : State) : list string :=
  omap (λ x, match x with Const m => head (labelValues m) | _ => None end) (ch st).

Definition sent_names (st : State) : list string :=
  omap (λ x, match x with Const m => Some (fqName (desc m)) | _ => None end) (ch st).

Module Fixture.
Import Sample.

(** A stand-in for [strconv.ParseFloat] on plain decimals of at most 15
    digits, where the quotient of the two exact integers is the nearest
    float. *)
Definition parseDecimal (s : string) : option float :=
  let '(neg, rest) :=
    match Strings.bytes s with
    | a :: l => if Ascii.eqb a "-" then (true, l) else (false, a :: l)
    | [] => (false, [])
    end in
  let sign (f : float) := if neg then PrimFloat.opp f else f in
  match Strings.splitBytes "." rest with
  | [whole] =>
      if Strings.allDigits whole && (length whole <=? 15) then
        Some (sign (float64_of_int64 (Strings.digitsValue whole)))
      else None
  | [whole; frac] =>
      if Strings.allDigits whole && Strings.allDigits frac
         && (length whole + length frac <=? 15) then
        Some (sign (float64_of_int64 (Strings.digitsValue (whole ++ frac))
                    / float64_of_int64 (10 ^ Z.of_nat (length frac)))%float)
      else None
  | _ => None
  end.

Definition empty : State := mkState 0 ∅ [].

(** Each map in the order of [map_to_list], and in the reverse order. *)
Definition orders : Orders :=
  mkOrders (λ _, map_to_list networkMetrics)
           (λ _, map_to_list downstreamChannelMetrics)
           (λ _, map_to_list upstreamChannelMetrics).

Definition reversed : Orders :=
  mkOrders (λ _, reverse (map_to_list networkMetrics))
           (λ _, reverse (map_to_list downstreamChannelMetrics))
           (λ _, reverse (map_to_list upstreamChannelMetrics)).

(** The downstream row of the specification's example, *)
Definition downstream_row : list string :=
  [""; "1"; "Locked"; "QAM256"; "Bonded"; "603000000 Hz"; "6400000 Hz"; "35 dB";
   "3.5 dBmV"; "256QAM"; "100"; "2"; "0"].

(** with an unknown unit in column 5, *)
Definition mhz_row : list string := <[5 := "5 MHz"]> downstream_row.

(** with a row key that is not a number, *)
Definition unkeyed_row : list string := <[1 := "one"]> downstream_row.

(** and with the row key 100. *)
Definition channel100_row : list string := <[1 := "100"]> downstream_row.

Definition upstream_row : list string :=
  [""; "2"; "Locked"; "SC-QAM"; "Bonded"; "30800 kHz"; "6400000 Hz"; "41.0 dBmV"; "64QAM"].

Definition network_row : list string :=
  ["eth0"; "1000"; "20"; "0"; "0"; "3000"; "40"; "0"; "0"].

Definition statsifc : Document :=
  html [] [grid [["Interface"; "Received"; "Transmitted"];
                 ["Bytes"; "Pkts"; "Errs"; "Drops"; "Bytes"; "Pkts"; "Errs"; "Drops"];
                 network_row]].

Definition cmconnectionstatus : Document :=
  html [] [grid [["Startup"]];
           grid [["Downstream Channel Status"]; ["Index"; "Channel"]; downstream_row];
           grid [["Upstream Channel Status"]; ["Index"; "Channel"]; upstream_row]].

(** A page with one table where three are expected. *)
Definition short_page : Document := html [] [grid [["Startup"]]].

(** A cell that is not valid UTF-8 (the byte 255), as the name of the
    interface and as the type of the downstream channel. *)
Definition bad_cell : string := String "255"%char "".

Definition bad_network_row : list string := <[0 := bad_cell]> network_row.

Definition bad_statsifc : Document :=
  html [] [grid [["Interface"; "Received"; "Transmitted"];
                 ["Bytes"; "Pkts"; "Errs"; "Drops"; "Bytes"; "Pkts"; "Errs"; "Drops"];
                 bad_network_row]].

Definition bad_downstream_row : list string := <[3 := bad_cell]> downstream_row.

Definition bad_cmconnectionstatus : Document :=
  html [] [grid [["Startup"]];
           grid [["Downstream Channel Status"]; ["Index"; "Channel"]; bad_downstream_row];
           grid [["Upstream Channel Status"]; ["Index"; "Channel"]; upstream_row]].
End Fixture.

(** The two decimal digits of a number between 0 and 99. *)
Definition two_digits (v : Z) : string :=
  let digit (d : Z) : ascii := Ascii.ascii_of_nat (48 + Z.to_nat d) in
  String (digit (v / 10)%Z) (String (digit (v mod 10)%Z) "").

(** ** Notions for the further properties *)

(** The invariant of the document walk without the condition on the
    climbs: the tables extracted so far are those of the outer tables
    before the cursor. *)
Definition prefix_inv (all : list Node) (st : ptr * list (list (list string))) : Prop :=
  up st.1 ≠ []
  ∧ ∃ done, extracted done st.2
            ∧ done ++ outer_tables (node st.1) ++ pending_tables (ctx_of st.1) = all.

Definition prefix_done (all : list Node) (r : result (list (list (list string)))) : Prop :=
  ∃ tables done rest, r = Ret tables ∧ extracted done tables ∧ done ++ rest = all.

(** The text of a node as the content walk reads it: the data of a text
    node, the text below any other node. *)
Definition node_text (n : Node) : string :=
  if bool_decide (Type_ n = TextNode) then Data n else descendant_text n.

Definition forest_text (l : list Node) : string :=
  foldr (λ c s, node_text c +:+ s) "" l.

Definition pending_text (ctx : list (list Node)) : string := forest_text (concat ctx).

Definition is_empty (s : string) : bool :=
  match s with
  | EmptyString => true
  | _ => false
  end.

(** In a cell, a text node or childless node that is the last child of a
    last child ends the content walk: nothing is lost if no text
    follows. *)
Definition content_end_ok (ctx : list (list Node)) : bool :=
  match ctx with
  | [] :: [] :: rest => is_empty (pending_text rest)
  | _ => true
  end.

Fixpoint content_ok (ctx : list (list Node)) (n : Node) : bool :=
  match n with
  | mkNode t _ _ cs =>
      if bool_decide (t = TextNode) || is_nil cs then content_end_ok ctx
      else (fix siblings (l : list Node) : bool :=
              match l with
              | [] => true
              | c :: later => content_ok (later :: ctx) c && siblings later
              end) cs
  end.

Fixpoint content_siblings_ok (ctx : list (list Node)) (l : list Node) : bool :=
  match l with
  | [] => true
  | c :: later => content_ok (later :: ctx) c && content_siblings_ok ctx later
  end.

Fixpoint content_stack_ok (ctx : list (list Node)) : bool :=
  match ctx with
  | [] => true
  | later :: ctx' => content_siblings_ok ctx' later && content_stack_ok ctx'
  end.

(** Cells in which the content walk never has to climb more than one
    level to find the rest of the text; so are all cells whose markup is
    nested at most one element deep. *)
Definition shallow_cell (cellNode : Node) : bool :=
  content_siblings_ok [] (children cellNode).

Definition content_walk_inv (total : string) (st : option ptr * string) : Prop :=
  match st.1 with
  | None => st.2 = total
  | Some c =>
      up c ≠ []
      ∧ content_ok (ctx_of c) (node c) = true
      ∧ content_stack_ok (ctx_of c) = true
      ∧ st.2 +:+ node_text (node c) +:+ pending_text (ctx_of c) = total
  end.

(** Text nodes and childless nodes, and cells whose children are such
    nodes or elements that hold only such nodes. *)
Definition leafish (n : Node) : bool :=
  bool_decide (Type_ n = TextNode) || is_nil (children n).

Definition one_deep (cellNode : Node) : bool :=
  forallb (λ c, leafish c || forallb leafish (children c)) (children cellNode).

(** The rows and cells [parseTable] reads: the tr children of the thead
    and tbody children of the table, and the th and td children of a
    row. *)
Definition is_body (n : Node) : bool := is_element n Thead || is_element n Tbody.
Definition is_row (n : Node) : bool := is_element n Tr.
Definition is_cell (n : Node) : bool := is_element n Th || is_element n Td.

Definition table_rows (tableNode : Node) : list Node :=
  concat (map (λ bodyNode, List.filter is_row (children bodyNode))
              (List.filter is_body (children tableNode))).

Definition row_cells (rowNode : Node) : list Node := List.filter is_cell (children rowNode).

(** The value of a parse-failure counter, zero while it has no child. *)
Definition failures_of (file : string) (st : State) : nat :=
  default 0 (parseFailures st !! file).

(** The tc4400_up samples among what was sent. *)
Definition is_up (x : Sent) : bool :=
  match x with
  | Const m => bool_decide (desc m = targetUpMetric)
  | _ => false
  end.

Definition count_spaces (s : string) : nat :=
  length (List.filter (λ a, Ascii.eqb a " ") (Strings.bytes s)).

(** One step of [Strings.digitsValue]. *)
Definition digits_step (acc : Z) (a : ascii) : Z :=
  (10 * acc + Z.of_nat (Strings.code a - 48))%Z.

(** * Lemmas and theorems *)

(** ** Examples *)

Example TrimSpace_ex : Strings.TrimSpace "  35 dB
 " = "35 dB".
Proof. reflexivity. Qed.

Example Split_ex :
  Strings.Split "603000000 Hz" " " = ["603000000"; "Hz"]
  ∧ Strings.Split "a  b" " " = ["a"; ""; "b"]
  ∧ Strings.Split "" " " = [""].
Proof. repeat split; reflexivity. Qed.

Example ParseInt_ex :
  Strings.ParseInt "1000" = Some 1000%Z
  ∧ Strings.ParseInt "-7" = Some (-7)%Z
  ∧ Strings.ParseInt "+7" = Some 7%Z
  ∧ Strings.ParseInt "" = None
  ∧ Strings.ParseInt "-" = None
  ∧ Strings.ParseInt "12a" = None
  ∧ Strings.ParseInt "9223372036854775807" = Some 9223372036854775807%Z
  ∧ Strings.ParseInt "9223372036854775808" = None
  ∧ Strings.ParseInt "-9223372036854775808" = Some (-9223372036854775808)%Z.
Proof. repeat split; vm_compute; reflexivity. Qed.

Example Sprintf02d_ex :
  Strings.Sprintf02d 1 = "01" ∧ Strings.Sprintf02d 0 = "00"
  ∧ Strings.Sprintf02d 32 = "32" ∧ Strings.Sprintf02d 100 = "100"
  ∧ Strings.Sprintf02d (-1) = "-1" ∧ Strings.Sprintf02d (-12) = "-12".
Proof. repeat split; vm_compute; reflexivity. Qed.

Example parseTables_ex :
  parseTables (Some (Sample.html [] [Sample.grid [["a"; " b "]]; Sample.tag "p" [];
                                     Sample.grid [["c"]; ["d"; "e"]]]))
  = Ret (Some [[["a"; "b"]]; [["c"]; ["d"; "e"]]]).
Proof. vm_compute. reflexivity. Qed.

(** ** Termination of the two walks *)

Section Iterate.
Context {S R : Type} (body : S → flow S R).
Context (m : S → nat) (I : S → Prop) (Q : result R → Prop).

(** A loop whose body, on states of the invariant, either stops with a
    result in [Q] or continues in the invariant with a smaller variant,
    ends with a result in [Q] once the fuel covers the variant. *)
Lemma iterate_inv :
  (∀ s, I s → 0 < m s ∧
      match body s with
      | Continue s' => I s' ∧ m s' < m s
      | Stop r => Q r
      end) →
  ∀ fuel s, I s → m s ≤ fuel → Q (iterate body fuel s).
Proof.
  intros Hbody fuel. induction fuel as [|fuel IH]; intros s Hs Hm.
  - destruct (Hbody s Hs) as [Hpos _]. lia.
  - simpl. destruct (Hbody s Hs) as [_ Hstep].
    destruct (body s) as [s'|r]; [|done].
    destruct Hstep as [Hs' Hlt]. apply IH; [done|lia].
Qed.
End Iterate.

Lemma foldM_total {A B} (f : A → B → result A) (l : list B) :
  (∀ a b, b ∈ l → ∃ a', f a b = Ret a') → ∀ a, ∃ a', foldM f a l = Ret a'.
Proof.
  induction l as [|b l IH]; intros Hf a; simpl; [by eexists|].
  destruct (Hf a b) as [a' Ha']; [left|]. rewrite Ha'. simpl.
  apply IH. intros a0 b0 Hb0. apply Hf. by right.
Qed.

Lemma node_size_pos n : 0 < node_size n.
Proof. destruct n; simpl; lia. Qed.

Lemma node_size_children n : node_size n = S (forest_size (children n)).
Proof. by destruct n. Qed.

Lemma remaining_FirstChild p c :
  FirstChild p = Some c → S (remaining c) = remaining p ∧ up c ≠ [].
Proof.
  unfold FirstChild, remaining. rewrite (node_size_children (node p)).
  destruct (children (node p)) as [|c' cs]; [done|].
  intros [= <-]. simpl. unfold frame_size, forest_size. simpl. split; [lia|done].
Qed.

Lemma remaining_NextSibling p s :
  NextSibling p = Some s →
  remaining s + node_size (node p) = remaining p ∧ length (up s) = length (up p).
Proof.
  unfold NextSibling, remaining. destruct (up p) as [|f fs]; [done|].
  destruct (after f) as [|s' ss] eqn:Hf; [done|].
  intros [= <-]. simpl. unfold frame_size, forest_size. simpl. rewrite Hf. simpl.
  split; [lia|done].
Qed.

Lemma remaining_Parent p q :
  NextSibling p = None → Parent p = Some q →
  remaining q = node_size (node q) + (remaining p - node_size (node p))
  ∧ S (length (up q)) = length (up p).
Proof.
  unfold NextSibling, Parent, remaining. destruct (up p) as [|f fs]; [done|].
  destruct (after f) as [|s' ss] eqn:Hf; [|done].
  destruct (above f) as [[t a] d]. intros _ [= <-]. simpl.
  unfold frame_size at 2. rewrite Hf. unfold forest_size. simpl. split; [lia|done].
Qed.

Lemma remaining_uncle p q s :
  NextSibling p = None → Parent p = Some q → NextSibling q = Some s →
  remaining s + node_size (node p) = remaining p ∧ S (length (up s)) = length (up p).
Proof.
  intros Hp Hq Hs.
  destruct (remaining_Parent _ _ Hp Hq) as [Hrq Hlq].
  destruct (remaining_NextSibling _ _ Hs) as [Hrs Hls].
  assert (node_size (node p) ≤ remaining p) by (unfold remaining; lia).
  split; lia.
Qed.

Lemma is_root_length p : is_root p = true ↔ up p = [].
Proof.
  unfold is_root. rewrite bool_decide_eq_true. by destruct (up p).
Qed.

(** *** The content walk *)

Lemma content_next_step c buf :
  match content_next c buf with
  | Continue st' => content_inv st' ∧ content_variant st' < S (remaining c)
  | Stop r => r = Panic ∧ up c = []
  end.
Proof.
  unfold content_next.
  pose proof (node_size_pos (node c)).
  assert (node_size (node c) ≤ remaining c) by (unfold remaining; lia).
  destruct (NextSibling c) as [s|] eqn:Hs.
  { destruct (remaining_NextSibling _ _ Hs) as [Hr Hl].
    split; [|unfold content_variant; simpl; lia].
    unfold content_inv. simpl. intros E. rewrite E in Hl.
    unfold NextSibling in Hs. by destruct (up c). }
  destruct (Parent c) as [q|] eqn:Hq.
  2:{ unfold Parent in Hq. destruct (up c) as [|f fs]; [done|].
      by destruct (above f) as [[? ?] ?]. }
  destruct (is_root q) eqn:Hroot; simpl.
  { split; [done|]. unfold content_variant. simpl. lia. }
  destruct (NextSibling q) as [s|] eqn:Hqs.
  - destruct (remaining_uncle _ _ _ Hs Hq Hqs) as [Hr Hl].
    destruct (remaining_NextSibling _ _ Hqs) as [_ Hl'].
    split; [|unfold content_variant; simpl; lia].
    unfold content_inv. simpl. intros E. rewrite E in Hl'.
    assert (up q = []) as Hq0 by (by destruct (up q)).
    apply is_root_length in Hq0. congruence.
  - split; [done|]. unfold content_variant. simpl. lia.
Qed.

Lemma content_body_step st :
  0 < content_variant st ∧
  match content_body st with
  | Continue st' => content_inv st' ∧ content_variant st' < content_variant st
  | Stop r => (∃ s, r = Ret s) ∨ (r = Panic ∧ ¬ content_inv st)
  end.
Proof.
  destruct st as [[c|] buf]; unfold content_inv at 2, content_variant at 1 3; simpl.
  2:{ split; [lia|]. left. by eexists. }
  split; [lia|].
  assert (∀ b, match content_next c b with
               | Continue st' => content_inv st' ∧ content_variant st' < S (remaining c)
               | Stop r => (∃ s, r = Ret s) ∨ (r = Panic ∧ ¬ up c ≠ [])
               end) as Hnext.
  { intros b. pose proof (content_next_step c b) as Hn.
    destruct (content_next c b); [done|]. right. naive_solver. }
  destruct (bool_decide (Type_ (node c) = TextNode)); [apply Hnext|].
  destruct (FirstChild c) as [f|] eqn:Hf; [|apply Hnext].
  destruct (remaining_FirstChild _ _ Hf) as [Hr Hu].
  unfold content_inv, content_variant. simpl. split; [done|lia].
Qed.

Lemma content_loop_total cellNode fuel buf :
  node_size cellNode ≤ fuel →
  ∃ s, content_loop fuel (FirstChild (root cellNode)) buf = Ret s.
Proof.
  intros Hfuel. unfold content_loop.
  apply (iterate_inv content_body content_variant content_inv (λ r, ∃ s, r = Ret s)).
  - intros st Hst. destruct (content_body_step st) as [Hpos Hstep].
    split; [done|]. destruct (content_body st); naive_solver.
  - unfold content_inv. simpl. destruct (FirstChild (root cellNode)) as [c|] eqn:Hc; [|done].
    by destruct (remaining_FirstChild _ _ Hc).
  - unfold content_variant. simpl.
    pose proof (node_size_pos cellNode).
    destruct (FirstChild (root cellNode)) as [c|] eqn:Hc; [|lia].
    destruct (remaining_FirstChild _ _ Hc) as [Hr _].
    unfold remaining in Hr at 2. simpl in Hr. lia.
Qed.

Lemma cell_text_total cellNode : ∃ s, cell_text cellNode = Ret s.
Proof.
  unfold cell_text.
  destruct (content_loop_total cellNode (node_size cellNode) "") as [s Hs]; [done|].
  rewrite Hs. simpl. by eexists.
Qed.

Lemma parse_row_total rowNode : ∃ row, parse_row rowNode = Ret row.
Proof.
  apply foldM_total. intros row cellNode _.
  destruct (is_element cellNode Th || is_element cellNode Td); [|by eexists].
  destruct (cell_text_total cellNode) as [s ->]. simpl. by eexists.
Qed.

Lemma parse_body_total table bodyNode : ∃ table', parse_body table bodyNode = Ret table'.
Proof.
  apply foldM_total. intros tbl rowNode _.
  destruct (is_element rowNode Tr); [|by eexists].
  destruct (parse_row_total rowNode) as [row ->]. simpl. by eexists.
Qed.

Lemma parseTable_total tableNode : ∃ table, parseTable tableNode = Ret table.
Proof.
  apply foldM_total. intros tbl bodyNode _.
  destruct (is_element bodyNode Thead || is_element bodyNode Tbody); [|by eexists].
  apply parse_body_total.
Qed.

(** *** The document walk *)

Lemma tables_next_step n tables :
  match tables_next n tables with
  | Continue st' => up st'.1 ≠ [] ∧ remaining st'.1 < remaining n
  | Stop r => (∃ tables', r = Ret tables') ∨ (r = Panic ∧ up n = [])
  end.
Proof.
  unfold tables_next.
  pose proof (node_size_pos (node n)).
  destruct (NextSibling n) as [s|] eqn:Hs.
  { destruct (remaining_NextSibling _ _ Hs) as [Hr Hl]. simpl.
    split; [|lia]. intros E. rewrite E in Hl.
    unfold NextSibling in Hs. by destruct (up n). }
  destruct (Parent n) as [q|] eqn:Hq.
  2:{ right. split; [done|]. unfold Parent in Hq. destruct (up n) as [|f fs]; [done|].
      by destruct (above f) as [[? ?] ?]. }
  destruct (is_root q) eqn:Hroot; simpl; [left; by eexists|].
  destruct (NextSibling q) as [s|] eqn:Hqs; [|left; by eexists].
  destruct (remaining_uncle _ _ _ Hs Hq Hqs) as [Hr Hl].
  destruct (remaining_NextSibling _ _ Hqs) as [_ Hl']. simpl.
  split; [|lia]. intros E. rewrite E in Hl'.
  assert (up q = []) as Hq0 by (by destruct (up q)).
  apply is_root_length in Hq0. congruence.
Qed.

Lemma tables_body_step st :
  match tables_body st with
  | Continue st' => up st'.1 ≠ [] ∧ remaining st'.1 < remaining st.1
  | Stop r => (∃ tables', r = Ret tables') ∨ (r = Panic ∧ up st.1 = [])
  end.
Proof.
  destruct st as [n tables]. simpl.
  destruct (is_element (node n) Table).
  { destruct (parseTable_total (node n)) as [t ->]. apply tables_next_step. }
  destruct (FirstChild n) as [c|] eqn:Hc; [|apply tables_next_step].
  destruct (remaining_FirstChild _ _ Hc) as [Hr Hu]. simpl. split; [done|lia].
Qed.

Lemma tables_loop_terminates fuel n tables :
  remaining n ≤ fuel → tables_loop fuel n tables ≠ OutOfFuel.
Proof.
  intros Hfuel. unfold tables_loop.
  apply (iterate_inv tables_body (λ st, remaining st.1) (λ _, True) (λ r, r ≠ OutOfFuel));
    [|done|done].
  intros st _. split.
  { unfold remaining. pose proof (node_size_pos (node st.1)). lia. }
  pose proof (tables_body_step st) as Hstep.
  destruct (tables_body st); naive_solver.
Qed.

(** Below the root the walk never dereferences nil. *)
Lemma tables_loop_total fuel n tables :
  up n ≠ [] → remaining n ≤ fuel → ∃ tables', tables_loop fuel n tables = Ret tables'.
Proof.
  intros Hup Hfuel. unfold tables_loop.
  apply (iterate_inv tables_body (λ st, remaining st.1) (λ st, up st.1 ≠ [])
           (λ r, ∃ tables', r = Ret tables')); [|done|done].
  intros st Hst. split.
  { unfold remaining. pose proof (node_size_pos (node st.1)). lia. }
  pose proof (tables_body_step st) as Hstep.
  destruct (tables_body st); naive_solver.
Qed.

Lemma walk_tables_total (d : Document) : ∃ tables, walk_tables (doc_node d) = Ret tables.
Proof.
  unfold walk_tables, tables_loop.
  remember (node_size (doc_node d)) as fuel eqn:Hfuel.
  destruct fuel as [|fuel]; [pose proof (node_size_pos (doc_node d)); lia|].
  simpl. fold (tables_loop fuel).
  apply tables_loop_total; [done|].
  unfold remaining. simpl. unfold frame_size. simpl.
  simpl in Hfuel. unfold forest_size. lia.
Qed.

Lemma parseTables_total (r : option Document) : ∃ res, parseTables r = Ret res.
Proof.
  destruct r as [d|]; simpl; [|by eexists].
  destruct (walk_tables_total d) as [tables ->]. simpl. by eexists.
Qed.

(** ** What a page adds to the state *)

Lemma apply_effects_app file st es es' :
  apply_effects file st (es ++ es') = apply_effects file (apply_effects file st es) es'.
Proof. apply foldl_app. Qed.

Lemma apply_effects_spec file es st :
  apply_effects file st es
  = mkState (totalScrapes st)
            (Nat.iter (failures es) (inc_counter file) (parseFailures st))
            (ch st ++ emitted es).
Proof.
  revert st. induction es as [|e es IH]; intros st.
  - simpl. rewrite app_nil_r. by destruct st.
  - unfold apply_effects in *. simpl foldl. rewrite IH.
    destruct e.
    + simpl. by rewrite <- app_assoc.
    + change (failures (Failure :: es)) with (S (failures es)).
      by rewrite Nat.iter_succ_r.
    + done.
    + done.
Qed.

Lemma emitted_app es es' : emitted (es ++ es') = emitted es ++ emitted es'.
Proof. apply omap_app. Qed.

Lemma failures_app es es' : failures (es ++ es') = failures es + failures es'.
Proof. apply sum_list_with_app. Qed.

Lemma emitted_Permutation es es' : es ≡ₚ es' → emitted es ≡ₚ emitted es'.
Proof. intros H. unfold emitted. by rewrite H. Qed.

Lemma failures_Permutation es es' : es ≡ₚ es' → failures es = failures es'.
Proof. intros H. unfold failures. by rewrite H. Qed.

(** The effects of a loop, the panic included. *)
Lemma crashes_app es es' : crashes (es ++ es') = crashes es || crashes es'.
Proof. apply existsb_app. Qed.

Lemma crashes_Permutation es es' : es ≡ₚ es' → crashes es = crashes es'.
Proof.
  unfold crashes.
  induction 1 as [|e es es' _ IH|e e' es|es es' es'' _ IH1 _ IH2]; simpl.
  - done.
  - by rewrite IH.
  - by destruct (is_crash e), (is_crash e').
  - by rewrite IH1.
Qed.

Lemma crashes_concat ess : crashes (concat ess) = existsb crashes ess.
Proof. induction ess as [|es ess IH]; [done|]. simpl. by rewrite crashes_app, IH. Qed.

Lemma crashes_map_false {B} (eff : B → result effect) (l : list B) :
  Forall (λ b, ∃ e, eff b = Ret e ∧ is_crash e = false) l →
  crashes (map (λ b, effect_of (eff b)) l) = false.
Proof.
  unfold crashes. induction 1 as [|b l (e & He & Hcrash) _ IH]; [done|].
  simpl. rewrite He. simpl. by rewrite Hcrash, IH.
Qed.

Lemma crashes_map_true {B} (eff : B → result effect) (l : list B) (b : B) :
  b ∈ l → eff b = Panic → crashes (map (λ b, effect_of (eff b)) l) = true.
Proof.
  intros Hb Hpanic. unfold crashes. apply existsb_exists.
  exists Crash. split; [|done]. apply list_elem_of_In, list_elem_of_fmap.
  exists b. by rewrite Hpanic.
Qed.

Lemma run_effects_Ret file st es :
  crashes es = false → run_effects file st es = Ret (apply_effects file st es).
Proof. unfold run_effects. by intros ->. Qed.

Lemma run_effects_Panic file st es : crashes es = true → run_effects file st es = Panic.
Proof. unfold run_effects. by intros ->. Qed.

Lemma run_effects_app file st es es' :
  run_effects file st (es ++ es')
  = st' ← run_effects file st es; run_effects file st' es'.
Proof.
  unfold run_effects. rewrite crashes_app.
  destruct (crashes es); simpl; [done|]. by rewrite apply_effects_app.
Qed.

(** A loop over a map whose body has a state-independent effect. *)
Lemma foldM_effects {B} file (step : State → B → result State) (eff : B → result effect) :
  (∀ st b, step st b = e ← eff b; Ret (apply_effect file st e)) →
  (∀ b, eff b = Panic ∨ ∃ e, eff b = Ret e ∧ is_crash e = false) →
  ∀ l st, foldM step st l = run_effects file st (map (λ b, effect_of (eff b)) l).
Proof.
  intros Hstep Heff l. induction l as [|b l IH]; intros st; [done|].
  simpl. rewrite Hstep. unfold run_effects, crashes. simpl.
  destruct (Heff b) as [-> | (e & -> & He)]; simpl; [done|].
  rewrite He, IH. done.
Qed.

(** The loop over the rows of a table, each with its own order. *)
Lemma for_rows_effects file (body : nat → State → list string → result State)
    (eff : nat → list string → list effect) :
  (∀ k st row, body k st row = run_effects file st (eff k row)) →
  ∀ rows k st,
    for_rows body k st rows
    = run_effects file st (concat (imap (λ j row, eff (k + j) row) rows)).
Proof.
  intros Hbody rows. induction rows as [|row rows IH]; intros k st; [done|].
  simpl. rewrite Hbody, run_effects_app, Nat.add_0_r.
  destruct (run_effects file st (eff k row)) as [st'| |]; simpl; [|done..].
  rewrite IH. do 2 f_equal. apply imap_ext. intros j r _. simpl. f_equal. lia.
Qed.

Lemma range_Forall (check : nat * Desc → bool) m order :
  forallb check (map_to_list m) = true → range_of m order →
  Forall (λ entry, check entry = true) order.
Proof.
  intros Hall Horder. unfold range_of in Horder. rewrite Horder.
  apply Forall_forall. intros entry Hin.
  rewrite forallb_forall in Hall. apply Hall. by apply list_elem_of_In.
Qed.

Lemma network_entries_ok order :
  range_of networkMetrics order → Forall (λ e, network_entry_ok e = true) order.
Proof. apply range_Forall. by vm_compute. Qed.

Lemma downstream_entries_ok order :
  range_of downstreamChannelMetrics order →
  Forall (λ e, downstream_entry_ok e = true) order.
Proof. apply range_Forall. by vm_compute. Qed.

Lemma upstream_entries_ok order :
  range_of upstreamChannelMetrics order →
  Forall (λ e, upstream_entry_ok e = true) order.
Proof. apply range_Forall. by vm_compute. Qed.

Lemma index_lt {A} (l : list A) i : i < length l → ∃ x, l !! i = Some x ∧ index l i = Ret x.
Proof.
  intros Hi. destruct (lookup_lt_is_Some_2 l i Hi) as [x Hx].
  exists x. split; [done|]. unfold index. by rewrite Hx.
Qed.

Lemma index_cases {A} (l : list A) i : index l i = Panic ∨ ∃ x, index l i = Ret x.
Proof. unfold index. destruct (l !! i); eauto. Qed.

(** ** Label values *)

Example ValidString_ex :
  Utf8.ValidString "35 dB" = true
  ∧ Utf8.ValidString (String "195"%char (String "169"%char "")) = true
  ∧ Utf8.ValidString (String "226"%char (String "130"%char (String "172"%char ""))) = true
  ∧ Utf8.ValidString (String "240"%char (String "159"%char
                        (String "152"%char (String "128"%char "")))) = true
  ∧ Utf8.ValidString (String "255"%char "") = false
  ∧ Utf8.ValidString (String "128"%char "") = false
  ∧ Utf8.ValidString (String "192"%char (String "128"%char "")) = false
  ∧ Utf8.ValidString (String "195"%char "") = false
  ∧ Utf8.ValidString (String "237"%char (String "160"%char (String "128"%char ""))) = false
  ∧ Utf8.ValidString (String "244"%char (String "144"%char
                        (String "128"%char (String "128"%char "")))) = false.
Proof. repeat split; vm_compute; reflexivity. Qed.

Lemma validBytes_ascii l :
  forallb (λ a, Strings.code a <? 128) l = true → Utf8.validBytes l = true.
Proof.
  induction l as [|a l IH]; [done|]. simpl.
  intros [Ha Hl]%andb_true_iff. rewrite Ha. by apply IH.
Qed.

Lemma isDigit_ascii l :
  forallb Strings.isDigit l = true → forallb (λ a, Strings.code a <? 128) l = true.
Proof.
  induction l as [|a l IH]; [done|]. simpl.
  intros [Ha Hl]%andb_true_iff. rewrite IH by done. rewrite andb_true_r.
  unfold Strings.isDigit in Ha. apply andb_true_iff in Ha as [_ Ha].
  apply Nat.leb_le in Ha. apply Nat.ltb_lt. lia.
Qed.

Lemma pretty_N_char_digit d :
  (d < 10)%N →
  Strings.isDigit (pretty_N_char d) = true
  ∧ Z.of_nat (Strings.code (pretty_N_char d) - 48) = Z.of_N d.
Proof.
  intros Hd.
  assert (d = 0 ∨ d = 1 ∨ d = 2 ∨ d = 3 ∨ d = 4 ∨ d = 5 ∨ d = 6 ∨ d = 7 ∨ d = 8 ∨ d = 9)%N
    as Hcases by lia.
  repeat (destruct Hcases as [-> | Hcases]; [by vm_compute|]). subst. by vm_compute.
Qed.

Lemma pretty_N_go_digits x s :
  ∃ p, Strings.bytes (pretty_N_go x s) = p ++ Strings.bytes s
       ∧ forallb Strings.isDigit p = true
       ∧ (∀ acc, foldl digits_step acc p = (acc * 10 ^ Z.of_nat (length p) + Z.of_N x)%Z)
       ∧ ((0 < x)%N → p ≠ []).
Proof.
  revert s. induction (N.lt_wf_0 x) as [x _ IH]. intros s.
  assert (x = 0 ∨ 0 < x)%N as [-> | Hx] by lia.
  { exists (@nil ascii). rewrite pretty_N_go_0. repeat split; try done.
    intros acc. simpl. lia. }
  rewrite pretty_N_go_step by done.
  destruct (IH (x `div` 10)%N (N.div_lt x 10 Hx eq_refl)
              (String (pretty_N_char (x `mod` 10)) s)) as (p & Hp & Hdigits & Hvalue & _).
  destruct (pretty_N_char_digit (x `mod` 10)%N) as [Hdigit Hcode];
    [by apply N.mod_lt|].
  exists (p ++ [pretty_N_char (x `mod` 10)]). repeat split.
  - rewrite Hp. by rewrite <- app_assoc.
  - rewrite forallb_app, Hdigits. simpl. by rewrite Hdigit.
  - intros acc. rewrite foldl_app, Hvalue. simpl. unfold digits_step at 1.
    rewrite Hcode, length_app. simpl.
    rewrite Nat2Z.inj_add, Z.pow_add_r by lia.
    pose proof (N.div_mod x 10) as Hdm.
    rewrite N2Z.inj_div, N2Z.inj_mod in *. 
    assert (Z.of_N x = 10 * (Z.of_N x `div` 10) + Z.of_N x `mod` 10)%Z
      by (apply Z.div_mod; lia).
    change (Z.of_N 10) with 10%Z. lia.
  - intros _. by destruct p.
Qed.

Lemma pretty_N_digits (n : N) :
  ∃ a p, Strings.bytes (pretty n) = a :: p
         ∧ Strings.isDigit a = true ∧ forallb Strings.isDigit p = true
         ∧ Strings.digitsValue (a :: p) = Z.of_N n.
Proof.
  unfold pretty, pretty_N. case_decide as Hn.
  { subst. exists "0"%char, []. by vm_compute. }
  destruct (pretty_N_go_digits n "") as (p & Hp & Hdigits & Hvalue & Hne).
  destruct p as [|a p]; [destruct Hne; [lia|done]|].
  exists a, p. simpl in Hdigits. apply andb_true_iff in Hdigits as [Ha Hdigits].
  split; [by rewrite Hp, app_nil_r|]. split; [done|]. split; [done|].
  unfold Strings.digitsValue. change (λ acc a, _) with digits_step.
  rewrite Hvalue. lia.
Qed.

Lemma digit_not_sign a :
  Strings.isDigit a = true → Ascii.eqb a "-" = false ∧ Ascii.eqb a "+" = false.
Proof.
  intros Ha. split; apply Ascii.eqb_neq; intros ->; by vm_compute in Ha.
Qed.

(** The channel label is ASCII. *)
Lemma Sprintf02d_valid v : Utf8.ValidString (Strings.Sprintf02d v) = true.
Proof.
  assert (∀ n : N, forallb (λ a, Strings.code a <? 128) (Strings.bytes (pretty n)) = true)
    as Hpretty.
  { intros n. destruct (pretty_N_digits n) as (a & p & -> & Ha & Hp & _).
    apply (isDigit_ascii (a :: p)). simpl. by rewrite Ha, Hp. }
  unfold Utf8.ValidString, Strings.Sprintf02d. apply validBytes_ascii.
  destruct (v <? 0)%Z; [|destruct (v <? 10)%Z].
  - change (Strings.bytes ("-" +:+ pretty (Z.to_N (- v))))
      with ("-"%char :: Strings.bytes (pretty (Z.to_N (- v)))).
    simpl. apply Hpretty.
  - change (Strings.bytes ("0" +:+ pretty (Z.to_N v)))
      with ("0"%char :: Strings.bytes (pretty (Z.to_N v))).
    simpl. apply Hpretty.
  - apply Hpretty.
Qed.

Lemma MustNewConstMetric_Ret d vt v l m :
  MustNewConstMetric d vt v l = Ret m →
  m = mkMetric d vt v l ∧ length l = length (variableLabels d)
  ∧ forallb Utf8.ValidString l = true.
Proof.
  unfold MustNewConstMetric, validateLabelValues.
  destruct (bool_decide _) eqn:Hlen; simpl; [|done].
  destruct (forallb _ _) eqn:Hvalid; [|done].
  apply bool_decide_eq_true in Hlen. by intros [= <-].
Qed.

Lemma MustNewConstMetric_valid d vt v l :
  length l = length (variableLabels d) → forallb Utf8.ValidString l = true →
  MustNewConstMetric d vt v l = Ret (mkMetric d vt v l).
Proof.
  intros Hlen Hvalid. unfold MustNewConstMetric, validateLabelValues.
  by rewrite bool_decide_eq_true_2, Hvalid.
Qed.

Lemma MustNewConstMetric_invalid d vt v l :
  forallb Utf8.ValidString l = false → MustNewConstMetric d vt v l = Panic.
Proof.
  intros Hvalid. unfold MustNewConstMetric, validateLabelValues.
  by rewrite Hvalid, andb_false_r.
Qed.

Lemma MustNewConstMetric_cases d vt v l :
  MustNewConstMetric d vt v l = Panic
  ∨ MustNewConstMetric d vt v l = Ret (mkMetric d vt v l).
Proof. unfold MustNewConstMetric. destruct (validateLabelValues _ _); eauto. Qed.

Lemma label_ok_lookup row i cell :
  label_ok row i = true → row !! i = Some cell → Utf8.ValidString cell = true.
Proof. unfold label_ok. intros H Hcell. by rewrite Hcell in H. Qed.

Section RowFacts.

Variable ParseFloat : string → option float.

Lemma network_column_effect row st entry :
  network_column row st entry
  = e ← network_effect row entry; Ret (apply_effect "statsifc.html" st e).
Proof.
  destruct entry as [i metric]. unfold network_column, network_effect.
  destruct (index row i) as [cell| |]; simpl; try done.
  destruct (Strings.ParseInt cell); [|done].
  destruct (index row 0) as [interface| |]; simpl; try done.
  by destruct (MustNewConstMetric _ _ _ _).
Qed.

Lemma network_effect_cases row entry :
  network_effect row entry = Panic
  ∨ ∃ e, network_effect row entry = Ret e ∧ is_crash e = false.
Proof.
  destruct entry as [i metric]. unfold network_effect.
  destruct (index_cases row i) as [-> | [cell ->]]; simpl; [by left|].
  destruct (Strings.ParseInt cell); [|by eauto].
  destruct (index_cases row 0) as [-> | [interface ->]]; simpl; [by left|].
  destruct (MustNewConstMetric_cases metric CounterValue (float64_of_int64 z) [interface])
    as [-> | ->]; simpl; eauto.
Qed.

Lemma network_effect_ok row entry :
  length row = 9 → network_entry_ok entry = true → label_ok row 0 = true →
  ∃ e, network_effect row entry = Ret e ∧ is_crash e = false.
Proof.
  intros Hlen Hok Hvalid. destruct entry as [i metric].
  unfold network_entry_ok in Hok. simpl in Hok.
  apply andb_true_iff in Hok as [Hi Harity].
  apply Nat.ltb_lt in Hi. apply Nat.eqb_eq in Harity.
  unfold network_effect.
  destruct (index_lt row i) as (cell & _ & ->); [lia|].
  destruct (index_lt row 0) as (interface & Hlookup & Hinterface); [lia|]. simpl.
  destruct (Strings.ParseInt cell); [|by eexists].
  rewrite Hinterface. simpl. rewrite MustNewConstMetric_valid; [by eexists|done|].
  simpl. by rewrite (label_ok_lookup row 0 interface).
Qed.

Lemma network_row_spec order st row :
  network_row order st row = run_effects "statsifc.html" st (network_row_effects order row).
Proof.
  unfold network_row, network_row_effects.
  destruct (negb (bool_decide (length row = 9))); [done|].
  apply (foldM_effects "statsifc.html" (network_column row) (network_effect row)).
  - apply network_column_effect.
  - apply network_effect_cases.
Qed.

Lemma network_row_no_crash order row :
  Forall (λ e, network_entry_ok e = true) order →
  (length row = 9 → label_ok row 0 = true) →
  crashes (network_row_effects order row) = false.
Proof.
  intros Horder Hvalid. unfold network_row_effects.
  destruct (bool_decide (length row = 9)) eqn:Hlen; simpl; [|done].
  apply bool_decide_eq_true in Hlen. apply crashes_map_false.
  eapply Forall_impl; [exact Horder|]. intros entry Hentry.
  apply network_effect_ok; auto.
Qed.

Lemma channel_column_effect decode st entry :
  channel_column decode st entry
  = e ← channel_effect decode entry; Ret (apply_effect "cmconnectionstatus.html" st e).
Proof.
  destruct entry as [i metric]. unfold channel_column, channel_effect.
  destruct (decode i) as [[value labelValues| |]| |]; simpl; try done.
  by destruct (MustNewConstMetric _ _ _ _).
Qed.

Lemma channel_effect_cases decode entry :
  (decode entry.1 = Panic ∨ ∃ d, decode entry.1 = Ret d) →
  channel_effect decode entry = Panic
  ∨ ∃ e, channel_effect decode entry = Ret e ∧ is_crash e = false.
Proof.
  destruct entry as [i metric]. unfold channel_effect. simpl.
  intros [-> | [d ->]]; simpl; [by left|].
  destruct d as [value labelValues| |]; [|by eauto..].
  destruct (MustNewConstMetric_cases metric CounterValue value labelValues)
    as [-> | ->]; simpl; eauto.
Qed.

Lemma decode_int_ok cell l : decoded_ok l 1 (decode_int cell [l]).
Proof. unfold decode_int. by destruct (Strings.ParseInt cell). Qed.

Lemma decode_equal_ok cell expected l : decoded_ok l 1 (decode_equal cell expected [l]).
Proof. done. Qed.

Lemma decode_hz_ok cell l : decoded_ok l 1 (decode_hz cell [l]).
Proof. unfold decode_hz. by repeat case_match. Qed.

Lemma decode_float_ok cell unit l : decoded_ok l 1 (decode_float ParseFloat cell unit [l]).
Proof. unfold decode_float. by repeat case_match. Qed.

Local Hint Resolve decode_int_ok decode_equal_ok decode_hz_ok decode_float_ok : core.

Lemma downstream_decode_cases row l i :
  downstream_decode ParseFloat row l i = Panic
  ∨ ∃ d, downstream_decode ParseFloat row l i = Ret d.
Proof.
  unfold downstream_decode, index.
  do 13 (destruct i as [|i]; [by repeat case_match; simpl; eauto|]). eauto.
Qed.

Lemma upstream_decode_cases row l i :
  upstream_decode ParseFloat row l i = Panic
  ∨ ∃ d, upstream_decode ParseFloat row l i = Ret d.
Proof.
  unfold upstream_decode, index.
  do 9 (destruct i as [|i]; [by repeat case_match; simpl; eauto|]). eauto.
Qed.

Lemma downstream_decode_ok row l i :
  length row = 13 → i < 13 →
  ∃ d, downstream_decode ParseFloat row l i = Ret d
       ∧ decoded_ok l (if bool_decide (i = 3 ∨ i = 9) then 2 else 1) d.
Proof.
  intros Hlen Hi.
  do 14 (destruct row as [|? row]; try done).
  do 13 (destruct i as [|i]; [simpl; eexists; split; [reflexivity|]; by auto|]).
  lia.
Qed.

Lemma upstream_decode_ok row l i :
  length row = 9 → i < 9 →
  ∃ d, upstream_decode ParseFloat row l i = Ret d
       ∧ decoded_ok l (if bool_decide (i = 3 ∨ i = 8) then 2 else 1) d.
Proof.
  intros Hlen Hi.
  do 10 (destruct row as [|? row]; try done).
  do 9 (destruct i as [|i]; [simpl; eexists; split; [reflexivity|]; by auto|]).
  lia.
Qed.

(** The label values of a decoded column: the channel label, and after
    it the cell of a type or modulation column. *)
Lemma decoded_ok_labels l d :
  decoded_ok l 1 d →
  match d with
  | Value _ lvs => lvs = [l]
  | _ => True
  end.
Proof.
  destruct d as [v lvs| |]; [|done..]. intros [Hhead Hlen].
  destruct lvs as [|l' [|l'' lvs]]; simplify_eq/=. done.
Qed.

Ltac decode_labels row l :=
  simpl; unfold index;
  try match goal with |- context [row !! ?k] => destruct (row !! k) eqn:? end;
  simpl; try done;
  intros [= <-];
  first [ done
        | by left
        | by right; eauto
        | match goal with
          | |- match ?d with _ => _ end =>
              let H := fresh in
              assert (decoded_ok l 1 d) as H by auto;
              apply decoded_ok_labels in H; revert H;
              destruct d; [|done..]; intros H; by left
          end ].

Lemma downstream_decode_labels row l i d :
  downstream_decode ParseFloat row l i = Ret d →
  match d with
  | Value _ lvs =>
      lvs = [l] ∨ ∃ cell, (i = 3 ∨ i = 9) ∧ row !! i = Some cell ∧ lvs = [l; cell]
  | _ => True
  end.
Proof.
  unfold downstream_decode.
  do 13 (destruct i as [|i]; [decode_labels row l|]).
  by intros [= <-].
Qed.

Lemma upstream_decode_labels row l i d :
  upstream_decode ParseFloat row l i = Ret d →
  match d with
  | Value _ lvs =>
      lvs = [l] ∨ ∃ cell, (i = 3 ∨ i = 8) ∧ row !! i = Some cell ∧ lvs = [l; cell]
  | _ => True
  end.
Proof.
  unfold upstream_decode.
  do 9 (destruct i as [|i]; [decode_labels row l|]).
  by intros [= <-].
Qed.

Lemma channel_effect_ok decode l arity entry d :
  decode entry.1 = Ret d → decoded_ok l arity d →
  match d with
  | Value _ lvs => forallb Utf8.ValidString lvs = true
  | _ => True
  end →
  length (variableLabels entry.2) = arity →
  ∃ e, channel_effect decode entry = Ret e
       ∧ is_crash e = false
       ∧ match e with
         | Emit m => desc m = entry.2 ∧ head (labelValues m) = Some l
         | _ => True
         end.
Proof.
  destruct entry as [i metric]. simpl. intros Hd Hok Hvalid Harity.
  unfold channel_effect. rewrite Hd. simpl.
  destruct d as [value labelValues| |]; [|by eexists..].
  destruct Hok as [Hhead Hlen].
  rewrite MustNewConstMetric_valid by (done || congruence). simpl. by eexists.
Qed.

Lemma downstream_effect_ok row l entry :
  length row = 13 → downstream_entry_ok entry = true →
  Utf8.ValidString l = true → label_ok row 3 = true → label_ok row 9 = true →
  ∃ e, channel_effect (downstream_decode ParseFloat row l) entry = Ret e
       ∧ is_crash e = false
       ∧ match e with
         | Emit m => desc m = entry.2 ∧ head (labelValues m) = Some l
         | _ => True
         end.
Proof.
  intros Hlen Hok Hl H3 H9. unfold downstream_entry_ok in Hok.
  apply andb_true_iff in Hok as [Hi Harity].
  apply Nat.ltb_lt in Hi. apply Nat.eqb_eq in Harity.
  destruct (downstream_decode_ok row l entry.1 Hlen Hi) as (d & Hd & Hdok).
  eapply channel_effect_ok; [exact Hd|exact Hdok| |exact Harity].
  pose proof (downstream_decode_labels row l entry.1 d Hd) as Hlabels.
  destruct d as [v lvs| |]; [|done..].
  destruct Hlabels as [-> | (cell & Hi' & Hcell & ->)]; simpl; rewrite Hl; [done|].
  destruct Hi' as [Hi' | Hi']; rewrite Hi' in Hcell.
  - by rewrite (label_ok_lookup row 3 cell).
  - by rewrite (label_ok_lookup row 9 cell).
Qed.

Lemma upstream_effect_ok row l entry :
  length row = 9 → upstream_entry_ok entry = true →
  Utf8.ValidString l = true → label_ok row 3 = true → label_ok row 8 = true →
  ∃ e, channel_effect (upstream_decode ParseFloat row l) entry = Ret e
       ∧ is_crash e = false
       ∧ match e with
         | Emit m => desc m = entry.2 ∧ head (labelValues m) = Some l
         | _ => True
         end.
Proof.
  intros Hlen Hok Hl H3 H8. unfold upstream_entry_ok in Hok.
  apply andb_true_iff in Hok as [Hi Harity].
  apply Nat.ltb_lt in Hi. apply Nat.eqb_eq in Harity.
  destruct (upstream_decode_ok row l entry.1 Hlen Hi) as (d & Hd & Hdok).
  eapply channel_effect_ok; [exact Hd|exact Hdok| |exact Harity].
  pose proof (upstream_decode_labels row l entry.1 d Hd) as Hlabels.
  destruct d as [v lvs| |]; [|done..].
  destruct Hlabels as [-> | (cell & Hi' & Hcell & ->)]; simpl; rewrite Hl; [done|].
  destruct Hi' as [Hi' | Hi']; rewrite Hi' in Hcell.
  - by rewrite (label_ok_lookup row 3 cell).
  - by rewrite (label_ok_lookup row 8 cell).
Qed.

Lemma channel_row_spec width decode order st row :
  2 ≤ width →
  (∀ l i, decode row l i = Panic ∨ ∃ d, decode row l i = Ret d) →
  channel_row width decode order st row
  = run_effects "cmconnectionstatus.html" st (channel_row_effects width decode order row).
Proof.
  intros Hwidth Hdecode. unfold channel_row, channel_row_effects.
  destruct (bool_decide (length row = width)) eqn:Hlen; simpl; [|done].
  apply bool_decide_eq_true in Hlen.
  destruct (index_lt row 1) as (cell & -> & ->); [lia|]. simpl.
  destruct (Strings.ParseInt cell) as [channel|]; [|done].
  apply (foldM_effects "cmconnectionstatus.html"
           (channel_column (decode row (Strings.Sprintf02d channel)))
           (channel_effect (decode row (Strings.Sprintf02d channel)))).
  - apply channel_column_effect.
  - intros entry. apply channel_effect_cases, Hdecode.
Qed.

Lemma downstream_row_spec order st row :
  downstream_row ParseFloat order st row
  = run_effects "cmconnectionstatus.html" st
      (channel_row_effects 13 (downstream_decode ParseFloat) order row).
Proof. apply channel_row_spec; [lia|]. intros l i. apply downstream_decode_cases. Qed.

Lemma upstream_row_spec order st row :
  upstream_row ParseFloat order st row
  = run_effects "cmconnectionstatus.html" st
      (channel_row_effects 9 (upstream_decode ParseFloat) order row).
Proof. apply channel_row_spec; [lia|]. intros l i. apply upstream_decode_cases. Qed.

Lemma channel_row_no_crash width decode order row :
  (length row = width →
   ∀ channel, Forall (λ entry, ∃ e, channel_effect (decode row (Strings.Sprintf02d channel))
                                      entry = Ret e ∧ is_crash e = false) order) →
  crashes (channel_row_effects width decode order row) = false.
Proof.
  intros Horder. unfold channel_row_effects.
  destruct (bool_decide (length row = width)) eqn:Hlen; simpl; [|done].
  apply bool_decide_eq_true in Hlen.
  destruct (row !! 1) as [cell|]; [|done].
  destruct (Strings.ParseInt cell) as [channel|]; [|done].
  apply crashes_map_false. by apply Horder.
Qed.

Lemma downstream_row_no_crash order row :
  Forall (λ e, downstream_entry_ok e = true) order →
  (length row = 13 → label_ok row 3 = true ∧ label_ok row 9 = true) →
  crashes (channel_row_effects 13 (downstream_decode ParseFloat) order row) = false.
Proof.
  intros Horder Hvalid. apply channel_row_no_crash. intros Hlen channel.
  destruct (Hvalid Hlen) as [H3 H9].
  eapply Forall_impl; [exact Horder|]. intros entry Hentry.
  destruct (downstream_effect_ok row (Strings.Sprintf02d channel) entry)
    as (e & He & Hcrash & _); auto using Sprintf02d_valid. by exists e.
Qed.

Lemma upstream_row_no_crash order row :
  Forall (λ e, upstream_entry_ok e = true) order →
  (length row = 9 → label_ok row 3 = true ∧ label_ok row 8 = true) →
  crashes (channel_row_effects 9 (upstream_decode ParseFloat) order row) = false.
Proof.
  intros Horder Hvalid. apply channel_row_no_crash. intros Hlen channel.
  destruct (Hvalid Hlen) as [H3 H8].
  eapply Forall_impl; [exact Horder|]. intros entry Hentry.
  destruct (upstream_effect_ok row (Strings.Sprintf02d channel) entry)
    as (e & He & Hcrash & _); auto using Sprintf02d_valid. by exists e.
Qed.

End RowFacts.

Section PageFacts.

Variable ParseFloat : string → option float.

Lemma slice_from_ok {A} (l : list A) k : k ≤ length l → slice_from l k = Ret (drop k l).
Proof. intros Hk. unfold slice_from. by rewrite bool_decide_eq_true_2. Qed.

Lemma for_rows_table file body eff order st table :
  (∀ k st row, body k st row = run_effects file st (eff (order k) row)) →
  for_rows body 0 st (drop 2 table) = run_effects file st (table_effects eff order table).
Proof.
  intros Hbody.
  by rewrite (for_rows_effects file body (λ k row, eff (order k) row)).
Qed.

Lemma crashes_table_effects eff order table :
  (∀ k row, row ∈ drop 2 table → crashes (eff (order k) row) = false) →
  crashes (table_effects eff order table) = false.
Proof.
  intros Heff. unfold table_effects. rewrite crashes_concat.
  destruct (existsb _ _) eqn:Hex; [|done].
  apply existsb_exists in Hex as (es & Hin & Hes).
  apply list_elem_of_In, elem_of_lookup_imap in Hin as (k & row & -> & Hrow).
  rewrite Heff in Hes; [done|]. by eapply list_elem_of_lookup_2.
Qed.

Lemma labels_ok_row width columns rows row :
  labels_ok width columns rows = true → row ∈ rows → length row = width →
  Forall (λ i, label_ok row i = true) columns.
Proof.
  unfold labels_ok. rewrite forallb_forall. intros Hall Hin Hlen.
  specialize (Hall row (proj1 (list_elem_of_In _ _) Hin)).
  apply Nat.eqb_eq in Hlen. rewrite Hlen in Hall. simpl in Hall.
  apply Forall_forall. intros i Hi. rewrite forallb_forall in Hall.
  apply Hall. by apply list_elem_of_In.
Qed.

Lemma scrape_statsifc_spec o page st :
  scrape_statsifc o page st = run_effects "statsifc.html" st (statsifc_effects o page).
Proof.
  destruct page as [|parsed]; [done|]. simpl.
  destruct (parseTables_total parsed) as [[tables|] ->]; simpl; [|done].
  destruct tables as [|table tables]; [done|]. simpl.
  destruct (bool_decide (length table < 2)) eqn:Hlen; [done|].
  apply bool_decide_eq_false in Hlen.
  rewrite slice_from_ok by lia. simpl.
  apply (for_rows_table "statsifc.html" _ network_row_effects (networkOrder o)).
  intros k st' row. apply network_row_spec.
Qed.

Lemma scrape_cmconnectionstatus_spec o page st :
  scrape_cmconnectionstatus ParseFloat o page st
  = run_effects "cmconnectionstatus.html" st (cmconnectionstatus_effects ParseFloat o page).
Proof.
  destruct page as [|parsed]; [done|]. simpl.
  destruct (parseTables_total parsed) as [[tables|] ->]; simpl; [|done].
  destruct tables as [|table0 [|table1 [|table2 tables]]]; try done.
  simpl.
  destruct (bool_decide (length table1 < 2)) eqn:Hlen1; [done|].
  destruct (bool_decide (length table2 < 2)) eqn:Hlen2; [done|].
  apply bool_decide_eq_false in Hlen1. apply bool_decide_eq_false in Hlen2.
  simpl. rewrite !slice_from_ok by lia. simpl.
  rewrite (for_rows_table "cmconnectionstatus.html" _
             (channel_row_effects 13 (downstream_decode ParseFloat)) (downstreamOrder o)).
  2:{ intros k st' row. apply downstream_row_spec. }
  rewrite run_effects_app.
  destruct (run_effects _ st _) as [st1| |]; simpl; [|done..].
  apply (for_rows_table "cmconnectionstatus.html" _
           (channel_row_effects 9 (upstream_decode ParseFloat)) (upstreamOrder o)).
  intros k st' row. apply upstream_row_spec.
Qed.

Lemma statsifc_no_crash o page :
  orders_ok o → statsifc_labels_ok page = true → crashes (statsifc_effects o page) = false.
Proof.
  intros Ho Hvalid. unfold statsifc_effects, statsifc_labels_ok, rows_of, tables_of in *.
  destruct page as [|parsed]; [done|].
  destruct (parseTables parsed) as [[[|table tables]|]| |]; try done.
  case_bool_decide; [done|]. simpl in Hvalid.
  apply crashes_table_effects. intros k row Hrow.
  apply network_row_no_crash; [apply network_entries_ok, Ho|]. intros Hlen.
  pose proof (labels_ok_row 9 [0] _ row Hvalid Hrow Hlen) as Hlabels.
  by inversion Hlabels.
Qed.

Lemma cmconnectionstatus_no_crash o page :
  orders_ok o → cmconnectionstatus_labels_ok page = true →
  crashes (cmconnectionstatus_effects ParseFloat o page) = false.
Proof.
  intros Ho Hvalid.
  unfold cmconnectionstatus_effects, cmconnectionstatus_labels_ok, rows_of, tables_of in *.
  destruct page as [|parsed]; [done|].
  destruct (parseTables parsed) as [[[|table0 [|table1 [|table2 tables]]]|]| |];
    try done.
  destruct (_ || _); [done|]. simpl in Hvalid.
  apply andb_true_iff in Hvalid as [Hvalid1 Hvalid2].
  rewrite crashes_app. apply orb_false_iff. split.
  - apply crashes_table_effects. intros k row Hrow.
    apply downstream_row_no_crash; [apply downstream_entries_ok, Ho|]. intros Hlen.
    pose proof (labels_ok_row 13 [3; 9] _ row Hvalid1 Hrow Hlen) as Hlabels.
    inversion Hlabels as [|? ? H3 Hrest]; subst. by inversion Hrest.
  - apply crashes_table_effects. intros k row Hrow.
    apply upstream_row_no_crash; [apply upstream_entries_ok, Ho|]. intros Hlen.
    pose proof (labels_ok_row 9 [3; 8] _ row Hvalid2 Hrow Hlen) as Hlabels.
    inversion Hlabels as [|? ? H3 Hrest]; subst. by inversion Hrest.
Qed.

Lemma scrape_spec o statsifc cmconnectionstatus st :
  scrape ParseFloat o statsifc cmconnectionstatus st
  = st1 ← run_effects "statsifc.html" (incTotalScrapes st) (statsifc_effects o statsifc);
    st2 ← run_effects "cmconnectionstatus.html" st1
            (cmconnectionstatus_effects ParseFloat o cmconnectionstatus);
    Ret (1%float, st2).
Proof.
  unfold scrape. rewrite scrape_statsifc_spec.
  destruct (run_effects _ _ _) as [st1| |]; simpl; [|done..].
  by rewrite scrape_cmconnectionstatus_spec.
Qed.

End PageFacts.

(** ** What the document walk extracts *)

Lemma climbs_ok_unfold ctx n :
  climbs_ok ctx n
  = if is_element n Table || is_nil (children n) then dead_end_ok ctx
    else siblings_ok ctx (children n).
Proof.
  destruct n as [t a d cs]. simpl.
  destruct (is_element (mkNode t a d cs) Table || is_nil cs); [done|].
  induction cs as [|c cs IH]; [done|]. simpl. by rewrite IH.
Qed.

Lemma outer_tables_unfold n :
  outer_tables n
  = if is_element n Table then [n] else concat (map outer_tables (children n)).
Proof. by destruct n. Qed.

Lemma pending_tables_cons later ctx :
  pending_tables (later :: ctx) = concat (map outer_tables later) ++ pending_tables ctx.
Proof. unfold pending_tables. simpl. by rewrite map_app, concat_app. Qed.

Lemma is_nil_true {A} (l : list A) : is_nil l = true → l = [].
Proof. by destruct l. Qed.

Section Extracted.

Variable all : list Node.

Lemma tables_next_inv n tables done :
  up n ≠ [] → dead_end_ok (ctx_of n) = true → stack_ok (ctx_of n) = true →
  extracted done tables → done ++ pending_tables (ctx_of n) = all →
  match tables_next n tables with
  | Continue st' => walk_inv all st'
  | Stop r => walk_done all r
  end.
Proof.
  intros Hup Hdead Hstack Hdone Hall. unfold tables_next, NextSibling, Parent.
  unfold ctx_of in *. destruct (up n) as [|f fs] eqn:Hupn; [done|]. simpl in *.
  destruct (after f) as [|s ss] eqn:Hf.
  2:{ (* a later sibling *)
    apply andb_true_iff in Hstack as [Hsib Hstack]. simpl in Hsib.
    apply andb_true_iff in Hsib as [Hs Hss].
    unfold walk_inv, ctx_of. simpl. repeat split; try done.
    - simpl. by rewrite Hss, Hstack.
    - exists done. split; [done|]. rewrite <- Hall.
      rewrite !pending_tables_cons. simpl. by rewrite <- !app_assoc. }
  destruct (above f) as [[t a] d].
  unfold is_root. simpl.
  destruct fs as [|g gs]; simpl.
  { (* the parent is the document *)
    exists tables. split; [done|]. rewrite <- Hall.
    unfold pending_tables. simpl. by rewrite app_nil_r. }
  apply andb_true_iff in Hstack as [_ Hstack]. simpl in Hstack, Hdead, Hall.
  destruct (after g) as [|s ss] eqn:Hg.
  { (* the last child of a last child *)
    exists tables. split; [done|]. rewrite <- Hall.
    apply is_nil_true in Hdead. rewrite !pending_tables_cons, Hdead. simpl.
    by rewrite app_nil_r. }
  (* the parent's next sibling *)
  apply andb_true_iff in Hstack as [Hsib Hstack]. simpl in Hsib.
  apply andb_true_iff in Hsib as [Hs Hss].
  unfold walk_inv, ctx_of. simpl. repeat split; try done.
  - simpl. by rewrite Hss, Hstack.
  - exists done. split; [done|]. rewrite <- Hall.
    rewrite !pending_tables_cons. simpl. by rewrite <- !app_assoc.
Qed.

Lemma tables_body_inv st :
  walk_inv all st →
  match tables_body st with
  | Continue st' => walk_inv all st'
  | Stop r => walk_done all r
  end.
Proof.
  destruct st as [n tables]. intros (Hup & Hclimb & Hstack & done & Hdone & Hall).
  simpl in *. rewrite climbs_ok_unfold in Hclimb. rewrite outer_tables_unfold in Hall.
  destruct (is_element (node n) Table) eqn:Htable.
  { destruct (parseTable_total (node n)) as [t Ht]. rewrite Ht.
    apply (tables_next_inv n _ (done ++ [node n])); try done.
    - apply Forall2_app; [done|]. by constructor.
    - by rewrite <- app_assoc. }
  unfold FirstChild. simpl in Hclimb.
  destruct (children (node n)) as [|c cs] eqn:Hcs; simpl in *.
  { by apply (tables_next_inv n _ done). }
  apply andb_true_iff in Hclimb as [Hc Hcs'].
  unfold walk_inv, ctx_of in *. simpl.
  repeat split; try done.
  - by rewrite Hcs', Hstack.
  - exists done. split; [done|]. rewrite <- Hall.
    rewrite pending_tables_cons. by rewrite <- !app_assoc.
Qed.

Lemma tables_loop_extracts fuel n tables :
  walk_inv all (n, tables) → remaining n ≤ fuel → walk_done all (tables_loop fuel n tables).
Proof.
  intros Hinv Hfuel. unfold tables_loop.
  apply (iterate_inv tables_body (λ st, remaining st.1) (walk_inv all) (walk_done all)); [|done|done].
  intros st Hst. split.
  { unfold remaining. pose proof (node_size_pos (node st.1)). lia. }
  pose proof (tables_body_step st) as Hstep.
  pose proof (tables_body_inv st Hst) as Hinv'.
  destruct (tables_body st); [|done]. by destruct Hstep.
Qed.

End Extracted.

Lemma walk_tables_extracts (d : Document) :
  climbs_one_level d = true →
  ∃ tables, walk_tables (doc_node d) = Ret tables
            ∧ extracted (outer_tables (doc_node d)) tables.
Proof.
  intros Hclimb. unfold walk_tables, tables_loop.
  remember (node_size (doc_node d)) as fuel eqn:Hfuel.
  destruct fuel as [|fuel]; [pose proof (node_size_pos (doc_node d)); lia|].
  simpl. fold (tables_loop fuel).
  apply tables_loop_extracts.
  - unfold climbs_one_level in Hclimb. rewrite climbs_ok_unfold in Hclimb.
    simpl in Hclimb. apply andb_true_iff in Hclimb as [Hfirst Hrest].
    unfold walk_inv, ctx_of. simpl. repeat split; try done.
    + by rewrite Hrest.
    + exists []. split; [constructor|]. simpl.
      rewrite pending_tables_cons. unfold pending_tables. simpl. by rewrite app_nil_r.
  - unfold remaining. simpl. unfold frame_size. simpl.
    simpl in Hfuel. unfold forest_size. lia.
Qed.

(** ** Where the metrics of a page come from *)

Lemma emitted_map_Forall {B} (eff : B → result effect) (P : Metric → Prop) (l : list B) :
  (∀ b m, b ∈ l → eff b = Ret (Emit m) → P m) →
  Forall (sent_metric P) (emitted (map (λ b, effect_of (eff b)) l)).
Proof.
  induction l as [|b l IH]; intros HP; [constructor|].
  assert (Forall (sent_metric P) (emitted (map (λ b, effect_of (eff b)) l))) as Hl.
  { apply IH. intros b' m Hb'. apply HP. by right. }
  unfold emitted in *. simpl.
  destruct (eff b) as [[m| | |]| |] eqn:Hb; simpl; try done.
  constructor; [|done]. exists m. split; [done|]. apply (HP b); [left|done].
Qed.

Lemma emitted_concat_Forall (Q : Sent → Prop) (ess : list (list effect)) :
  Forall (λ es, Forall Q (emitted es)) ess → Forall Q (emitted (concat ess)).
Proof.
  induction 1 as [|es ess Hes _ IH]; [constructor|].
  simpl. rewrite emitted_app. by apply Forall_app.
Qed.

Lemma table_effects_Forall (Q : Sent → Prop) eff order table :
  (∀ k row, Forall Q (emitted (eff (order k) row))) →
  Forall Q (emitted (table_effects eff order table)).
Proof.
  intros Heff. apply emitted_concat_Forall, Forall_forall.
  intros es Hes. apply elem_of_lookup_imap in Hes as (k & row & -> & _). apply Heff.
Qed.

Lemma range_of_lookup m order i metric :
  range_of m order → (i, metric) ∈ order → m !! i = Some metric.
Proof.
  unfold range_of. intros Horder Hin. rewrite Horder in Hin.
  by apply elem_of_map_to_list in Hin.
Qed.

Section Provenance.

Variable ParseFloat : string → option float.

Lemma network_effect_desc row entry m :
  network_effect row entry = Ret (Emit m) → desc m = entry.2.
Proof.
  destruct entry as [i metric]. unfold network_effect.
  destruct (index row i) as [cell| |]; simpl; try done.
  destruct (Strings.ParseInt cell) as [valueInt|]; [|done].
  destruct (index row 0) as [interface| |]; simpl; try done.
  destruct (MustNewConstMetric_cases metric CounterValue (float64_of_int64 valueInt)
              [interface]) as [-> | ->]; simpl; [done|]. by intros [= <-].
Qed.

Lemma channel_effect_desc decode entry m :
  channel_effect decode entry = Ret (Emit m) →
  desc m = entry.2
  ∧ ∃ value, decode entry.1 = Ret (Value value (labelValues m)).
Proof.
  destruct entry as [i metric]. unfold channel_effect. simpl.
  destruct (decode i) as [[value labelValues| |]| |] eqn:Hd; simpl; try done.
  destruct (MustNewConstMetric_cases metric CounterValue value labelValues)
    as [-> | ->]; simpl; [done|]. intros [= <-]. simpl. split; [done|by eexists].
Qed.

Lemma network_row_desc order row :
  range_of networkMetrics order →
  Forall (sent_metric (λ m, desc_of networkMetrics (desc m)))
         (emitted (network_row_effects order row)).
Proof.
  intros Horder. unfold network_row_effects.
  destruct (negb (bool_decide (length row = 9))); [constructor|].
  apply emitted_map_Forall. intros [i metric] m Hin Hm.
  apply network_effect_desc in Hm as ->. exists i.
  by eapply range_of_lookup.
Qed.

Lemma channel_row_desc metrics width decode order row :
  range_of metrics order →
  Forall (sent_metric (λ m, desc_of metrics (desc m)))
         (emitted (channel_row_effects width decode order row)).
Proof.
  intros Horder. unfold channel_row_effects.
  destruct (negb (bool_decide (length row = width))); [constructor|].
  destruct (row !! 1) as [cell|]; [|constructor].
  destruct (Strings.ParseInt cell) as [channel|]; [|constructor].
  apply emitted_map_Forall. intros [i metric] m Hin Hm.
  apply channel_effect_desc in Hm as [-> _]. exists i.
  by eapply range_of_lookup.
Qed.

Lemma statsifc_desc o page :
  orders_ok o →
  Forall (sent_metric (λ m, desc_of networkMetrics (desc m)))
         (emitted (statsifc_effects o page)).
Proof.
  intros Ho. unfold statsifc_effects.
  destruct page as [|parsed]; [constructor|].
  destruct (parseTables parsed) as [[[|table tables]|]| |]; try by repeat constructor.
  case_bool_decide; [by repeat constructor|].
  apply table_effects_Forall. intros k row. apply network_row_desc, Ho.
Qed.

Lemma cmconnectionstatus_desc o page :
  orders_ok o →
  Forall (sent_metric (λ m, desc_of downstreamChannelMetrics (desc m)
                            ∨ desc_of upstreamChannelMetrics (desc m)))
         (emitted (cmconnectionstatus_effects ParseFloat o page)).
Proof.
  intros Ho. unfold cmconnectionstatus_effects.
  destruct page as [|parsed]; [constructor|].
  destruct (parseTables parsed) as [[[|table0 [|table1 [|table2 tables]]]|]| |];
    try by repeat constructor.
  destruct (_ || _); [by repeat constructor|].
  rewrite emitted_app. apply Forall_app. split.
  - apply table_effects_Forall. intros k row.
    eapply Forall_impl; [apply (channel_row_desc downstreamChannelMetrics), Ho|].
    intros x (m & -> & Hm). exists m. auto.
  - apply table_effects_Forall. intros k row.
    eapply Forall_impl; [apply (channel_row_desc upstreamChannelMetrics), Ho|].
    intros x (m & -> & Hm). exists m. auto.
Qed.

End Provenance.

Lemma desc_of_not_up (metrics : gmap nat Desc) d :
  forallb (λ e, negb (bool_decide (e.2 = targetUpMetric))) (map_to_list metrics) = true →
  desc_of metrics d → d ≠ targetUpMetric.
Proof.
  intros Hall [i Hi] ->. rewrite forallb_forall in Hall.
  apply elem_of_map_to_list, list_elem_of_In, Hall in Hi.
  by apply negb_true_iff, bool_decide_eq_false in Hi.
Qed.

Lemma incParseFailures_spec file st :
  ch (incParseFailures file st) = ch st
  ∧ totalScrapes (incParseFailures file st) = totalScrapes st
  ∧ parseFailures (incParseFailures file st) !! file
    = Some (S (default 0 (parseFailures st !! file)))
  ∧ ∀ file', file' ≠ file →
      parseFailures (incParseFailures file st) !! file' = parseFailures st !! file'.
Proof.
  unfold incParseFailures. simpl. repeat split.
  - apply lookup_insert_eq.
  - intros file' Hne. by apply lookup_insert_ne.
Qed.

(** ** Properties of the table extractor *)

Lemma outer_tables_sublist n : outer_tables n `sublist_of` all_tables n.
Proof.
  induction n as [t a d cs IH] using Node_ind'. simpl.
  destruct (is_element (mkNode t a d cs) Table).
  { apply sublist_inserts_r. reflexivity. }
  simpl. induction IH as [|c cs Hc _ IHcs]; [constructor|].
  simpl. by apply sublist_app.
Qed.

(** C1, as the specification states it, fails: a table inside a cell of
    another table is not extracted (the walk does not enter a table
    element), and a table that comes after a node nested two levels deep
    with nothing after it on either level is not reached. *)
Lemma parseTables_misses_tables :
  length (all_tables (doc_node Docs.nested)) = 2
  ∧ parseTables (Some Docs.nested) = Ret (Some [[["ax"]]])
  ∧ length (all_tables (doc_node Docs.titled)) = 1
  ∧ parseTables (Some Docs.titled) = Ret (Some []).
Proof. repeat split; vm_compute; reflexivity. Qed.

(** C1, amended: for every document in which the walk never has to climb
    more than one level to find the remaining tables, [parseTables]
    returns exactly one extracted table for each table element that does
    not lie inside another table element, in document order; these are
    table elements of the document, and a table inside another table is
    not extracted as an entry of its own. *)
Theorem parseTables_outer_tables (d : Document) :
  climbs_one_level d = true →
  ∃ tables,
    parseTables (Some d) = Ret (Some tables)
    ∧ Forall2 (λ n t, parseTable n = Ret t) (outer_tables (doc_node d)) tables
    ∧ outer_tables (doc_node d) `sublist_of` all_tables (doc_node d).
Proof.
  intros Hclimb. destruct (walk_tables_extracts d Hclimb) as (tables & Hwalk & Hext).
  exists tables. unfold parseTables. rewrite Hwalk.
  split; [done|]. split; [done|]. apply outer_tables_sublist.
Qed.

Lemma parseTables_outer_tables_witness :
  ∃ tables,
    parseTables (Some Docs.two_tables) = Ret (Some tables)
    ∧ Forall2 (λ n t, parseTable n = Ret t) (outer_tables (doc_node Docs.two_tables)) tables
    ∧ outer_tables (doc_node Docs.two_tables) `sublist_of` all_tables (doc_node Docs.two_tables).
Proof. apply (parseTables_outer_tables Docs.two_tables). vm_compute. reflexivity. Defined.

Example climbs_one_level_ex :
  climbs_one_level Docs.two_tables = true
  ∧ climbs_one_level Docs.nested = true
  ∧ climbs_one_level Docs.titled = false.
Proof. repeat split; vm_compute; reflexivity. Qed.

Example parseTables_two_tables :
  parseTables (Some Docs.two_tables) = Ret (Some [[["a"; "b"]]; [["c"]]])
  ∧ length (all_tables (doc_node Docs.two_tables)) = 3.
Proof. split; vm_compute; reflexivity. Qed.

(** C6 at [<td><b><i>x</i></b>y</td>]: the text nodes below the cell are
    "x" and "y", and the cell text is "x". *)
Lemma cell_text_loses_text :
  cell_text Docs.marked_cell = Ret "x"
  ∧ Strings.TrimSpace (descendant_text Docs.marked_cell) = "xy".
Proof. split; vm_compute; reflexivity. Qed.

Lemma tables_loop_root_total doc fuel :
  node_size doc ≤ fuel → children doc ≠ [] → is_element doc Table = false →
  ∃ tables, tables_loop fuel (root doc) [] = Ret tables.
Proof.
  intros Hfuel Hcs Htable. unfold tables_loop.
  destruct fuel as [|fuel]; [pose proof (node_size_pos doc); lia|].
  simpl. rewrite Htable. unfold FirstChild. simpl.
  destruct (children doc) as [|c cs] eqn:Hchildren; [done|].
  fold (tables_loop fuel). apply tables_loop_total; [done|].
  unfold remaining. simpl. unfold frame_size. simpl.
  rewrite node_size_children, Hchildren in Hfuel. unfold forest_size in *. simpl in Hfuel. lia.
Qed.

(** C9: both walks terminate.  Every iteration that continues leaves
    strictly fewer nodes at or after the cursor in document order
    ([remaining]), so no node is visited twice; with fuel for as many
    iterations as the tree has nodes the walk of [parseTables] ends, and
    it ends with tables unless the root is childless or itself a table
    (only then is a nil pointer dereferenced; [html.Parse] returns
    neither); the walk over the content of a cell and [parseTable] always
    return, and so does [parseTables]. *)
Theorem walks_terminate (doc cellNode : Node) (fuel : nat) :
  node_size doc ≤ fuel → node_size cellNode ≤ fuel →
  tables_loop fuel (root doc) [] ≠ OutOfFuel
  ∧ (children doc ≠ [] → is_element doc Table = false →
     ∃ tables, tables_loop fuel (root doc) [] = Ret tables)
  ∧ (∃ s, content_loop fuel (FirstChild (root cellNode)) "" = Ret s)
  ∧ (∃ text, cell_text cellNode = Ret text)
  ∧ (∃ table, parseTable doc = Ret table)
  ∧ (∀ r : option Document, ∃ res, parseTables r = Ret res)
  ∧ (∀ st st', tables_body st = Continue st' → remaining st'.1 < remaining st.1)
  ∧ (∀ st st', content_body st = Continue st' →
       content_variant st' < content_variant st).
Proof.
  intros Hdoc Hcell. repeat split.
  - apply tables_loop_terminates. unfold remaining. simpl. lia.
  - intros Hcs Htable. by apply tables_loop_root_total.
  - by apply content_loop_total.
  - apply cell_text_total.
  - apply parseTable_total.
  - apply parseTables_total.
  - intros st st' Hst. pose proof (tables_body_step st) as Hstep.
    rewrite Hst in Hstep. by destruct Hstep.
  - intros st st' Hst. destruct (content_body_step st) as [_ Hstep].
    rewrite Hst in Hstep. by destruct Hstep.
Qed.

Lemma walks_terminate_witness :
  node_size (doc_node Docs.two_tables) ≤ 28 ∧ node_size Docs.marked_cell ≤ 28
  ∧ (∃ tables, tables_loop 28 (root (doc_node Docs.two_tables)) [] = Ret tables)
  ∧ (∃ s, content_loop 28 (FirstChild (root Docs.marked_cell)) "" = Ret s).
Proof.
  assert (node_size (doc_node Docs.two_tables) ≤ 28) as Hdoc by (vm_compute; lia).
  assert (node_size Docs.marked_cell ≤ 28) as Hcell by (vm_compute; lia).
  split; [exact Hdoc|]. split; [exact Hcell|].
  destruct (walks_terminate (doc_node Docs.two_tables) Docs.marked_cell 28 Hdoc Hcell)
    as (_ & Htables & Hcontent & _).
  split; [|exact Hcontent]. by apply Htables.
Defined.

(** ** Properties of the row decoder *)

Lemma orders_ok_orders : orders_ok Fixture.orders.
Proof. intros k. repeat split; unfold range_of; simpl; reflexivity. Qed.

Lemma orders_ok_reversed : orders_ok Fixture.reversed.
Proof. intros k. repeat split; unfold range_of; simpl; apply reverse_Permutation. Qed.

(** The specification's end-to-end example. *)
Example downstream_row_example :
  (λ st, (sent_names st, (λ x, match x with Const m => Some (value m) | _ => None end) <$> ch st,
          first_labels st))
    <$> returned (downstream_row Fixture.parseDecimal
                    [(2, default targetUpMetric (downstreamChannelMetrics !! 2));
                     (5, default targetUpMetric (downstreamChannelMetrics !! 5));
                     (8, default targetUpMetric (downstreamChannelMetrics !! 8));
                     (9, default targetUpMetric (downstreamChannelMetrics !! 9))]
                    Fixture.empty Fixture.downstream_row)
  = Some (["tc4400_downstream_locked"; "tc4400_downstream_center_frequency_hz";
           "tc4400_downstream_receive_level_dbmv"; "tc4400_downstream_modulation"],
          [Some 1%float; Some 603000000%float; Some 3.5%float; Some 1%float],
          ["01"; "01"; "01"; "01"]).
Proof. vm_compute. reflexivity. Qed.

(** C2, as the specification states it, fails for the unknown unit: the
    body of the loop is left by [continue] before the counter is touched.
    Column 5 of a row that reads "5 MHz" there leaves the state as it is,
    and the whole row sends its ten other metrics without a parse
    failure being counted. *)
Lemma unknown_unit_not_counted :
  channel_column (downstream_decode Fixture.parseDecimal Fixture.mhz_row "01") Fixture.empty
    (5, default targetUpMetric (downstreamChannelMetrics !! 5))
  = Ret Fixture.empty
  ∧ parseFailures Fixture.empty !! "cmconnectionstatus.html" = None
  ∧ (λ st, (map_to_list (parseFailures st), length (ch st)))
      <$> returned (downstream_row Fixture.parseDecimal
                      (map_to_list downstreamChannelMetrics) Fixture.empty Fixture.mhz_row)
    = Some ([], 10).
Proof. repeat split; vm_compute; reflexivity. Qed.

(** C2, amended: a cell "<integer> <unit>" of column 5 or 6 decodes to
    the integer for the unit Hz and to the integer times 1000 (in int64)
    for kHz ("1000 kHz" gives 1000000, "50 Hz" gives 50), and the metric
    is sent with that value (the channel label being valid UTF-8, as
    every label that "%02d" makes is); when the unit is known and the
    integer does not parse, the parse-failure counter of the page goes up
    by one and nothing is sent; for any other unit ("5 MHz") nothing is
    sent and the counter is left as it is. *)
Theorem unit_suffixed_integer (ParseFloat : string → option float)
    (cell number unit channelLabel : string) (row : list string) (i : nat)
    (metric : Desc) (st : State) :
  Strings.Split cell " " = [number; unit] →
  (i = 5 ∨ i = 6) → row !! i = Some cell → length (variableLabels metric) = 1 →
  let column decode := channel_column (decode ParseFloat row channelLabel) st (i, metric) in
  let sent v := Ret (send (Const (mkMetric metric CounterValue v [channelLabel])) st) in
  let counted := Ret (incParseFailures "cmconnectionstatus.html" st) in
  decode_hz "1000 kHz" [channelLabel] = Value 1000000%float [channelLabel]
  ∧ decode_hz "50 Hz" [channelLabel] = Value 50%float [channelLabel]
  ∧ decode_hz "5 MHz" [channelLabel] = Skipped
  ∧ (∀ v, unit = "Hz" → Strings.ParseInt number = Some v →
       Utf8.ValidString channelLabel = true →
       column downstream_decode = sent (float64_of_int64 v)
       ∧ column upstream_decode = sent (float64_of_int64 v))
  ∧ (∀ v, unit = "kHz" → Strings.ParseInt number = Some v →
       Utf8.ValidString channelLabel = true →
       column downstream_decode = sent (float64_of_int64 (wrap64 (v * 1000)))
       ∧ column upstream_decode = sent (float64_of_int64 (wrap64 (v * 1000))))
  ∧ (unit = "Hz" ∨ unit = "kHz" → Strings.ParseInt number = None →
       column downstream_decode = counted ∧ column upstream_decode = counted)
  ∧ (unit ≠ "Hz" → unit ≠ "kHz" →
       column downstream_decode = Ret st ∧ column upstream_decode = Ret st).
Proof.
  intros Hsplit Hi Hcell Harity column sent counted.
  set (built v lvs := m ← MustNewConstMetric metric CounterValue v lvs;
                      Ret (send (Const m) st)).
  assert (column downstream_decode
          = match decode_hz cell [channelLabel] with
            | Value v lvs => built v lvs
            | Err => counted
            | Skipped => Ret st
            end
          ∧ column upstream_decode
            = match decode_hz cell [channelLabel] with
              | Value v lvs => built v lvs
              | Err => counted
              | Skipped => Ret st
              end) as [-> ->].
  { unfold column, built, counted, channel_column, index.
    destruct Hi as [-> | ->]; simpl; unfold index; rewrite Hcell; simpl;
      by destruct (decode_hz cell [channelLabel]). }
  assert (∀ v, Utf8.ValidString channelLabel = true → built v [channelLabel] = sent v)
    as Hbuilt.
  { intros v Hvalid. unfold built, sent.
    rewrite MustNewConstMetric_valid; [done|done|]. simpl. by rewrite Hvalid. }
  unfold decode_hz at 4 5 6 7 8 9 10 11. rewrite Hsplit.
  split; [by vm_compute|]. split; [by vm_compute|]. split; [by vm_compute|].
  split; [|split; [|split]].
  - intros v -> -> Hvalid. rewrite bool_decide_eq_true_2 by done. by rewrite Hbuilt.
  - intros v -> -> Hvalid. rewrite bool_decide_eq_false_2 by done.
    rewrite bool_decide_eq_true_2 by done. by rewrite Hbuilt.
  - intros [-> | ->] ->; [by rewrite bool_decide_eq_true_2|].
    rewrite bool_decide_eq_false_2 by done. by rewrite bool_decide_eq_true_2.
  - intros Hhz Hkhz. by rewrite !bool_decide_eq_false_2.
Qed.

Lemma unit_suffixed_integer_witness :
  Strings.Split "5 MHz" " " = ["5"; "MHz"]
  ∧ Fixture.mhz_row !! 5 = Some "5 MHz"
  ∧ channel_column (downstream_decode Fixture.parseDecimal Fixture.mhz_row "01")
      Fixture.empty (5, newChannelMetric "downstream" "center_frequency_hz" "" [])
    = Ret Fixture.empty.
Proof.
  split; [reflexivity|]. split; [reflexivity|].
  destruct (unit_suffixed_integer Fixture.parseDecimal "5 MHz" "5" "MHz" "01"
              Fixture.mhz_row 5 (newChannelMetric "downstream" "center_frequency_hz" "" [])
              Fixture.empty) as (_ & _ & _ & _ & _ & _ & Hunknown);
    [reflexivity | by left | reflexivity | reflexivity |].
  by apply Hunknown.
Defined.

(** C4: a row whose number of cells is not the one its table requires (9
    for the interface table, 13 for the downstream table, 9 for the
    upstream table, and so for any width a channel loop is run with) is
    not decoded: the state comes back as it was, with no metric sent and
    no parse failure counted, and the loop goes on with the rows after
    it. *)
Theorem mismatched_row_skipped (ParseFloat : string → option float) (o : Orders)
    (order : list (nat * Desc)) (k : nat) (st : State) (row : list string)
    (rows : list (list string)) :
  (length row ≠ 9 →
     network_row order st row = Ret st
     ∧ for_rows (λ k, network_row (networkOrder o k)) k st (row :: rows)
       = for_rows (λ k, network_row (networkOrder o k)) (S k) st rows)
  ∧ (length row ≠ 13 →
     downstream_row ParseFloat order st row = Ret st
     ∧ for_rows (λ k, downstream_row ParseFloat (downstreamOrder o k)) k st (row :: rows)
       = for_rows (λ k, downstream_row ParseFloat (downstreamOrder o k)) (S k) st rows)
  ∧ (length row ≠ 9 →
     upstream_row ParseFloat order st row = Ret st
     ∧ for_rows (λ k, upstream_row ParseFloat (upstreamOrder o k)) k st (row :: rows)
       = for_rows (λ k, upstream_row ParseFloat (upstreamOrder o k)) (S k) st rows)
  ∧ (∀ width decode, length row ≠ width →
     channel_row width decode order st row = Ret st).
Proof.
  assert (∀ width decode order', length row ≠ width →
            channel_row width decode order' st row = Ret st) as Hchannel.
  { intros width decode order' Hlen. unfold channel_row.
    by rewrite bool_decide_eq_false_2. }
  assert (∀ order', length row ≠ 9 → network_row order' st row = Ret st) as Hnetwork.
  { intros order' Hlen. unfold network_row. by rewrite bool_decide_eq_false_2. }
  repeat split; intros; simpl;
    rewrite ?Hnetwork by done; unfold downstream_row, upstream_row;
    rewrite ?Hchannel by done; done.
Qed.

Lemma mismatched_row_skipped_witness :
  length ["Index"; "Channel"] ≠ 13
  ∧ downstream_row Fixture.parseDecimal (map_to_list downstreamChannelMetrics)
      Fixture.empty ["Index"; "Channel"]
    = Ret Fixture.empty
  ∧ for_rows (λ k, downstream_row Fixture.parseDecimal (downstreamOrder Fixture.orders k)) 0
      Fixture.empty [["Index"; "Channel"]; Fixture.downstream_row]
    = for_rows (λ k, downstream_row Fixture.parseDecimal (downstreamOrder Fixture.orders k)) 1
        Fixture.empty [Fixture.downstream_row].
Proof.
  split; [simpl; lia|].
  destruct (mismatched_row_skipped Fixture.parseDecimal Fixture.orders
              (map_to_list downstreamChannelMetrics) 0 Fixture.empty
              ["Index"; "Channel"] [Fixture.downstream_row]) as (_ & Hdown & _).
  apply Hdown. simpl. lia.
Defined.

(** C5: when the row key (column 1) of a row does not parse as an
    integer, the row sends no metric, whatever its other cells hold; for
    a row of the downstream table (13 cells) or of the upstream table (9
    cells), the rows whose key is parsed, the parse-failure counter of
    cmconnectionstatus.html goes up by one and the state is otherwise as
    it was.  (A row of another width is dropped by the width test before
    its key is looked at.) *)
Theorem row_key_failure (ParseFloat : string → option float)
    (order : list (nat * Desc)) (st : State) (row : list string) (cell : string) :
  row !! 1 = Some cell → Strings.ParseInt cell = None →
  let st' := incParseFailures "cmconnectionstatus.html" st in
  (length row = 13 → downstream_row ParseFloat order st row = Ret st')
  ∧ (length row = 9 → upstream_row ParseFloat order st row = Ret st')
  ∧ (∃ st1, downstream_row ParseFloat order st row = Ret st1 ∧ ch st1 = ch st)
  ∧ (∃ st2, upstream_row ParseFloat order st row = Ret st2 ∧ ch st2 = ch st)
  ∧ ch st' = ch st
  ∧ totalScrapes st' = totalScrapes st
  ∧ parseFailures st' !! "cmconnectionstatus.html"
    = Some (S (default 0 (parseFailures st !! "cmconnectionstatus.html")))
  ∧ (∀ file, file ≠ "cmconnectionstatus.html" →
       parseFailures st' !! file = parseFailures st !! file).
Proof.
  intros Hcell Hparse st'.
  assert (∀ width decode, length row = width →
            channel_row width decode order st row = Ret st') as Hchannel.
  { intros width decode Hlen. unfold channel_row, index.
    rewrite bool_decide_eq_true_2 by done. simpl. rewrite Hcell. simpl.
    by rewrite Hparse. }
  assert (∀ width decode,
            ∃ st0, channel_row width decode order st row = Ret st0 ∧ ch st0 = ch st)
    as Hsilent.
  { intros width decode. destruct (decide (length row = width)) as [Hlen|Hlen].
    - exists st'. split; [by apply Hchannel|done].
    - exists st. split; [|done]. unfold channel_row.
      by rewrite bool_decide_eq_false_2. }
  split; [apply Hchannel|]. split; [apply Hchannel|].
  split; [apply Hsilent|]. split; [apply Hsilent|].
  apply incParseFailures_spec.
Qed.

Lemma row_key_failure_witness :
  Fixture.unkeyed_row !! 1 = Some "one" ∧ Strings.ParseInt "one" = None
  ∧ downstream_row Fixture.parseDecimal (map_to_list downstreamChannelMetrics)
      Fixture.empty Fixture.unkeyed_row
    = Ret (incParseFailures "cmconnectionstatus.html" Fixture.empty).
Proof.
  split; [reflexivity|]. split; [reflexivity|].
  destruct (row_key_failure Fixture.parseDecimal (map_to_list downstreamChannelMetrics)
              Fixture.empty Fixture.unkeyed_row "one") as (Hdown & _);
    [reflexivity | reflexivity |].
  by apply Hdown.
Defined.

(** C7: when a page has fewer tables than its loops read, or one of the
    tables read has fewer than two rows (statsifc.html: no table, or a
    first table shorter than two rows; cmconnectionstatus.html: fewer
    than three tables, or a second or third table shorter than two rows),
    the page counts one parse failure under its own name and nothing
    else changes: no row of any of its tables is decoded and no metric is
    sent. *)
Theorem short_page_one_failure (ParseFloat : string → option float) (o : Orders)
    (parsed : option Document) (tables : list (list (list string))) (st : State) :
  parseTables parsed = Ret (Some tables) →
  (length tables < 1 ∨ (∃ t, tables !! 0 = Some t ∧ length t < 2) →
     scrape_statsifc o (Body parsed) st = Ret (incParseFailures "statsifc.html" st))
  ∧ (length tables < 3 ∨ (∃ t, tables !! 1 = Some t ∧ length t < 2)
     ∨ (∃ t, tables !! 2 = Some t ∧ length t < 2) →
     scrape_cmconnectionstatus ParseFloat o (Body parsed) st
     = Ret (incParseFailures "cmconnectionstatus.html" st))
  ∧ (∀ file, ch (incParseFailures file st) = ch st
             ∧ totalScrapes (incParseFailures file st) = totalScrapes st
             ∧ parseFailures (incParseFailures file st) !! file
               = Some (S (default 0 (parseFailures st !! file)))
             ∧ ∀ file', file' ≠ file →
                 parseFailures (incParseFailures file st) !! file'
                 = parseFailures st !! file').
Proof.
  intros Htables. split; [|split; [|intros file; apply incParseFailures_spec]].
  - intros Hshort. simpl. rewrite Htables. simpl.
    destruct Hshort as [Hlen | (t & Ht & Hlen)].
    + by rewrite bool_decide_eq_true_2.
    + rewrite Ht. simpl. rewrite (bool_decide_eq_true_2 (length t < 2)) by done.
      by rewrite orb_true_r.
  - intros Hshort. simpl. rewrite Htables. simpl.
    destruct Hshort as [Hlen | [(t & Ht & Hlen) | (t & Ht & Hlen)]].
    + by rewrite bool_decide_eq_true_2.
    + rewrite Ht. simpl. rewrite (bool_decide_eq_true_2 (length t < 2)) by done.
      by rewrite orb_true_r.
    + rewrite Ht. simpl. rewrite (bool_decide_eq_true_2 (length t < 2)) by done.
      by rewrite orb_true_r.
Qed.

Lemma short_page_one_failure_witness :
  parseTables (Some Fixture.short_page) = Ret (Some [[["Startup"]]])
  ∧ scrape_statsifc Fixture.orders (Body (Some Fixture.short_page)) Fixture.empty
    = Ret (incParseFailures "statsifc.html" Fixture.empty)
  ∧ scrape_cmconnectionstatus Fixture.parseDecimal Fixture.orders
      (Body (Some Fixture.short_page)) Fixture.empty
    = Ret (incParseFailures "cmconnectionstatus.html" Fixture.empty).
Proof.
  assert (parseTables (Some Fixture.short_page) = Ret (Some [[["Startup"]]])) as Htables
    by (vm_compute; reflexivity).
  split; [exact Htables|].
  destruct (short_page_one_failure Fixture.parseDecimal Fixture.orders
              (Some Fixture.short_page) [[["Startup"]]] Fixture.empty Htables)
    as (Hstats & Hcm & _).
  split.
  - apply Hstats. right. exists [["Startup"]]. split; [reflexivity|simpl; lia].
  - apply Hcm. left. simpl. lia.
Defined.

Lemma Sprintf02d_two_digits v : (0 ≤ v < 100)%Z → Strings.Sprintf02d v = two_digits v.
Proof.
  intros Hv.
  assert (forallb (λ c, bool_decide (Strings.Sprintf02d c = two_digits c)) (seqZ 0 100) = true)
    as Hall by (vm_compute; reflexivity).
  rewrite forallb_forall in Hall.
  eapply bool_decide_eq_true_1, Hall, list_elem_of_In, elem_of_seqZ. lia.
Qed.

Lemma channel_row_labelled width decode order (st : State) (row : list string)
    (cell : string) (channel : Z) :
  2 ≤ width → length row = width →
  row !! 1 = Some cell → Strings.ParseInt cell = Some channel →
  (∀ l i, decode row l i = Panic ∨ ∃ d, decode row l i = Ret d) →
  (∀ l i v lvs, decode row l i = Ret (Value v lvs) → head lvs = Some l) →
  ∀ st', channel_row width decode order st row = Ret st' →
  ∃ new,
    ch st' = ch st ++ new
    ∧ Forall (sent_metric (λ m, head (labelValues m) = Some (Strings.Sprintf02d channel))) new.
Proof.
  intros Hwidth Hlen Hcell Hparse Hcases Hlabels st'.
  rewrite channel_row_spec by done. unfold run_effects.
  destruct (crashes _); [done|]. intros [= <-].
  eexists. split; [by rewrite apply_effects_spec|].
  unfold channel_row_effects. rewrite bool_decide_eq_true_2 by done. simpl.
  rewrite Hcell, Hparse.
  apply emitted_map_Forall. intros entry m Hin Hm.
  apply channel_effect_desc in Hm as (_ & value & Hvalue). by eapply Hlabels.
Qed.

Lemma downstream_decode_head (ParseFloat : string → option float) row l i v lvs :
  downstream_decode ParseFloat row l i = Ret (Value v lvs) → head lvs = Some l.
Proof.
  intros Hd. apply downstream_decode_labels in Hd.
  by destruct Hd as [-> | (cell & _ & _ & ->)].
Qed.

Lemma upstream_decode_head (ParseFloat : string → option float) row l i v lvs :
  upstream_decode ParseFloat row l i = Ret (Value v lvs) → head lvs = Some l.
Proof.
  intros Hd. apply upstream_decode_labels in Hd.
  by destruct Hd as [-> | (cell & _ & _ & ->)].
Qed.

(** C8, as the specification states it, fails for a row key of three
    digits: every metric of the row carries the label "100". *)
Lemma three_digit_channel_label :
  first_labels
    <$> returned (downstream_row Fixture.parseDecimal (map_to_list downstreamChannelMetrics)
                    Fixture.empty Fixture.channel100_row)
  = Some (replicate 11 "100")
  ∧ String.length "100" = 3.
Proof. split; vm_compute; reflexivity. Qed.

(** C8, amended: every metric sent for a decoded row of a channel table
    carries as its first label value the row key formatted by "%02d":
    the decimal digits of the key, padded with a zero to two digits for
    the keys 0 to 9 (1 gives "01"), so exactly two digits for the keys 0
    to 99, all the digits of a key of 100 or more, and a minus sign and
    the digits for a negative key.  The loop over the row comes to its
    end when the cells of the type and modulation columns, which become
    label values as well, are valid UTF-8. *)
Theorem channel_label_zero_padded (ParseFloat : string → option float)
    (order : list (nat * Desc)) (st : State) (row : list string) (cell : string)
    (channel : Z) :
  row !! 1 = Some cell → Strings.ParseInt cell = Some channel →
  let label := Strings.Sprintf02d channel in
  let labelled (r : result State) :=
    ∀ st', r = Ret st' →
           ∃ new, ch st' = ch st ++ new
                  ∧ Forall (sent_metric (λ m, head (labelValues m) = Some label)) new in
  (length row = 13 → range_of downstreamChannelMetrics order →
     labelled (downstream_row ParseFloat order st row)
     ∧ (label_ok row 3 = true → label_ok row 9 = true →
          ∃ st', downstream_row ParseFloat order st row = Ret st'))
  ∧ (length row = 9 → range_of upstreamChannelMetrics order →
     labelled (upstream_row ParseFloat order st row)
     ∧ (label_ok row 3 = true → label_ok row 8 = true →
          ∃ st', upstream_row ParseFloat order st row = Ret st'))
  ∧ ((0 ≤ channel < 100)%Z → label = two_digits channel)
  ∧ ((100 ≤ channel)%Z → label = pretty (Z.to_N channel))
  ∧ ((channel < 0)%Z → label = "-" +:+ pretty (Z.to_N (- channel))).
Proof.
  intros Hcell Hparse label labelled. split; [|split; [|split; [|split]]].
  - intros Hlen Horder. split.
    + unfold labelled, downstream_row.
      apply (channel_row_labelled 13 _ order st row cell channel); try done; [lia| |].
      * intros l i. apply downstream_decode_cases.
      * apply downstream_decode_head.
    + intros H3 H9. rewrite downstream_row_spec, run_effects_Ret; [by eexists|].
      apply downstream_row_no_crash; [by apply downstream_entries_ok|done].
  - intros Hlen Horder. split.
    + unfold labelled, upstream_row.
      apply (channel_row_labelled 9 _ order st row cell channel); try done; [lia| |].
      * intros l i. apply upstream_decode_cases.
      * apply upstream_decode_head.
    + intros H3 H8. rewrite upstream_row_spec, run_effects_Ret; [by eexists|].
      apply upstream_row_no_crash; [by apply upstream_entries_ok|done].
  - apply Sprintf02d_two_digits.
  - intros Hv. unfold label, Strings.Sprintf02d.
    destruct (Z.ltb_spec channel 0); [lia|]. destruct (Z.ltb_spec channel 10); [lia|done].
  - intros Hv. unfold label, Strings.Sprintf02d.
    destruct (Z.ltb_spec channel 0); [done|lia].
Qed.

Lemma channel_label_zero_padded_witness :
  Fixture.downstream_row !! 1 = Some "1" ∧ Strings.ParseInt "1" = Some 1%Z
  ∧ Strings.Sprintf02d 1 = "01"
  ∧ ∃ st' new,
      downstream_row Fixture.parseDecimal (map_to_list downstreamChannelMetrics)
        Fixture.empty Fixture.downstream_row = Ret st'
      ∧ ch st' = ch Fixture.empty ++ new
      ∧ Forall (sent_metric (λ m, head (labelValues m) = Some "01")) new.
Proof.
  split; [reflexivity|]. split; [reflexivity|]. split; [reflexivity|].
  destruct (channel_label_zero_padded Fixture.parseDecimal
              (map_to_list downstreamChannelMetrics) Fixture.empty
              Fixture.downstream_row "1" 1%Z) as (Hdown & _);
    [reflexivity | reflexivity |].
  destruct Hdown as [Hlabelled Hreturns]; [reflexivity | unfold range_of; reflexivity |].
  destruct Hreturns as [st' Hst']; [reflexivity | reflexivity |].
  destruct (Hlabelled st' Hst') as (new & Hch & Hnew).
  by exists st', new.
Defined.

(** ** Properties of the collector *)

Lemma concat_imap_Permutation {A B} (f g : nat → A → list B) (l : list A) :
  (∀ k x, f k x ≡ₚ g k x) → concat (imap f l) ≡ₚ concat (imap g l).
Proof.
  revert f g. induction l as [|x l IH]; intros f g Hfg; [done|].
  simpl. apply Permutation_app; [apply Hfg|]. apply IH. intros k y. apply Hfg.
Qed.

Lemma range_of_Permutation m order1 order2 :
  range_of m order1 → range_of m order2 → order1 ≡ₚ order2.
Proof. unfold range_of. intros -> ->. reflexivity. Qed.

Section OrderFacts.

Variable ParseFloat : string → option float.

Lemma network_row_Permutation order1 order2 row :
  order1 ≡ₚ order2 → network_row_effects order1 row ≡ₚ network_row_effects order2 row.
Proof.
  intros Horder. unfold network_row_effects.
  destruct (negb (bool_decide (length row = 9))); [done|]. by apply Permutation_map.
Qed.

Lemma channel_row_Permutation width decode order1 order2 row :
  order1 ≡ₚ order2 →
  channel_row_effects width decode order1 row ≡ₚ channel_row_effects width decode order2 row.
Proof.
  intros Horder. unfold channel_row_effects.
  destruct (negb (bool_decide (length row = width))); [done|].
  destruct (row !! 1) as [cell|]; [|done].
  destruct (Strings.ParseInt cell); [|done]. by apply Permutation_map.
Qed.

Lemma statsifc_Permutation o1 o2 page :
  orders_ok o1 → orders_ok o2 → statsifc_effects o1 page ≡ₚ statsifc_effects o2 page.
Proof.
  intros Ho1 Ho2. unfold statsifc_effects.
  destruct page as [|parsed]; [done|].
  destruct (parseTables parsed) as [[[|table tables]|]| |]; try done.
  case_bool_decide; [done|].
  apply concat_imap_Permutation. intros k row.
  apply network_row_Permutation.
  eapply range_of_Permutation; [apply Ho1|apply Ho2].
Qed.

Lemma cmconnectionstatus_Permutation o1 o2 page :
  orders_ok o1 → orders_ok o2 →
  cmconnectionstatus_effects ParseFloat o1 page
  ≡ₚ cmconnectionstatus_effects ParseFloat o2 page.
Proof.
  intros Ho1 Ho2. unfold cmconnectionstatus_effects.
  destruct page as [|parsed]; [done|].
  destruct (parseTables parsed) as [[[|table0 [|table1 [|table2 tables]]]|]| |];
    try done.
  destruct (_ || _); [done|].
  apply Permutation_app.
  - apply concat_imap_Permutation. intros k row. apply channel_row_Permutation.
    eapply range_of_Permutation; [apply Ho1|apply Ho2].
  - apply concat_imap_Permutation. intros k row. apply channel_row_Permutation.
    eapply range_of_Permutation; [apply Ho1|apply Ho2].
Qed.

(** What [scrape] returns, in one piece. *)
Lemma scrape_state o statsifc cmconnectionstatus st :
  let es1 := statsifc_effects o statsifc in
  let es2 := cmconnectionstatus_effects ParseFloat o cmconnectionstatus in
  scrape ParseFloat o statsifc cmconnectionstatus st
  = if crashes es1 || crashes es2 then Panic
    else Ret (1%float,
              mkState (S (totalScrapes st))
                (Nat.iter (failures es2) (inc_counter "cmconnectionstatus.html")
                   (Nat.iter (failures es1) (inc_counter "statsifc.html")
                      (parseFailures st)))
                (ch st ++ emitted es1 ++ emitted es2)).
Proof.
  intros es1 es2. rewrite scrape_spec. unfold run_effects. fold es1 es2.
  destruct (crashes es1); simpl; [done|]. destruct (crashes es2); simpl; [done|].
  rewrite !apply_effects_spec. simpl. by rewrite <- app_assoc.
Qed.

Lemma scrape_no_crash o statsifc cmconnectionstatus :
  orders_ok o → statsifc_labels_ok statsifc = true →
  cmconnectionstatus_labels_ok cmconnectionstatus = true →
  crashes (statsifc_effects o statsifc)
  || crashes (cmconnectionstatus_effects ParseFloat o cmconnectionstatus) = false.
Proof.
  intros Ho H1 H2. rewrite statsifc_no_crash by done.
  by rewrite cmconnectionstatus_no_crash.
Qed.

Lemma scrape_crashes_Permutation o1 o2 statsifc cmconnectionstatus :
  orders_ok o1 → orders_ok o2 →
  crashes (statsifc_effects o1 statsifc)
  || crashes (cmconnectionstatus_effects ParseFloat o1 cmconnectionstatus)
  = crashes (statsifc_effects o2 statsifc)
    || crashes (cmconnectionstatus_effects ParseFloat o2 cmconnectionstatus).
Proof.
  intros Ho1 Ho2.
  rewrite (crashes_Permutation _ _ (statsifc_Permutation o1 o2 statsifc Ho1 Ho2)).
  by rewrite (crashes_Permutation _ _
                (cmconnectionstatus_Permutation o1 o2 cmconnectionstatus Ho1 Ho2)).
Qed.

End OrderFacts.

(** C10, as the specification states it, fails on a page with a cell
    that is not valid UTF-8 in a column that becomes a label value (here
    the type of a downstream channel): [scrape] panics under every order,
    and what has been sent when it does depends on the order.  Under the
    order of [map_to_list] the row sends ten metrics before the column
    of the type panics; under the reverse order that column comes first
    and nothing is sent. *)
Lemma sends_before_panic_depend_on_order :
  scrape Fixture.parseDecimal Fixture.orders FetchError
    (Body (Some Fixture.bad_cmconnectionstatus)) Fixture.empty = Panic
  ∧ scrape Fixture.parseDecimal Fixture.reversed FetchError
      (Body (Some Fixture.bad_cmconnectionstatus)) Fixture.empty = Panic
  ∧ (length ∘ ch)
      <$> returned (foldM (channel_column (downstream_decode Fixture.parseDecimal
                                             Fixture.bad_downstream_row "01"))
                      Fixture.empty (take 10 (map_to_list downstreamChannelMetrics)))
    = Some 10
  ∧ foldM (channel_column (downstream_decode Fixture.parseDecimal
                             Fixture.bad_downstream_row "01"))
      Fixture.empty (take 11 (map_to_list downstreamChannelMetrics)) = Panic
  ∧ foldM (channel_column (downstream_decode Fixture.parseDecimal
                             Fixture.bad_downstream_row "01"))
      Fixture.empty (take 1 (reverse (map_to_list downstreamChannelMetrics))) = Panic.
Proof. repeat split; vm_compute; reflexivity. Qed.

(** C10, amended: whether [scrape] panics on two pages does not depend
    on the orders its loops over the metrics maps take, and it does not
    panic when the cells that become label values (interface names,
    channel types, modulations) are valid UTF-8; two executions that
    return, from the same state, send the same metrics up to order and
    leave the same counters; the order in which the metrics of a row are
    sent does depend on the order taken: the interface row of the sample
    page sends its eight metrics in different sequences under two
    orders. *)
Theorem scrape_order_independent (ParseFloat : string → option float) (o1 o2 : Orders)
    (statsifc cmconnectionstatus : fetched) (st : State) :
  orders_ok o1 → orders_ok o2 →
  (scrape ParseFloat o1 statsifc cmconnectionstatus st = Panic
   ↔ scrape ParseFloat o2 statsifc cmconnectionstatus st = Panic)
  ∧ (∀ up st1,
       scrape ParseFloat o1 statsifc cmconnectionstatus st = Ret (up, st1) →
       ∃ st2,
         scrape ParseFloat o2 statsifc cmconnectionstatus st = Ret (up, st2)
         ∧ ch st1 ≡ₚ ch st2
         ∧ parseFailures st1 = parseFailures st2
         ∧ totalScrapes st1 = totalScrapes st2)
  ∧ (statsifc_labels_ok statsifc = true →
     cmconnectionstatus_labels_ok cmconnectionstatus = true →
     ∃ st1, scrape ParseFloat o1 statsifc cmconnectionstatus st = Ret (1%float, st1))
  ∧ (∃ o1' o2' page,
       orders_ok o1' ∧ orders_ok o2'
       ∧ (sent_names ∘ snd) <$> returned (scrape ParseFloat o1' page FetchError Fixture.empty)
         ≠ (sent_names ∘ snd) <$> returned (scrape ParseFloat o2' page FetchError Fixture.empty)).
Proof.
  intros Ho1 Ho2.
  pose proof (statsifc_Permutation o1 o2 statsifc Ho1 Ho2) as H1.
  pose proof (cmconnectionstatus_Permutation ParseFloat o1 o2 cmconnectionstatus Ho1 Ho2)
    as H2.
  pose proof (scrape_crashes_Permutation ParseFloat o1 o2 statsifc cmconnectionstatus
                Ho1 Ho2) as Hcrash.
  rewrite !scrape_state. split; [|split; [|split]].
  - rewrite <- Hcrash. clear Hcrash. destruct (_ || _); split; intros; congruence.
  - intros up st1. rewrite <- Hcrash. clear Hcrash. destruct (_ || _); [done|].
    intros [= <- <-]. eexists. split; [done|]. simpl. split; [|split; [|done]].
    + apply Permutation_app_head, Permutation_app; by apply emitted_Permutation.
    + by rewrite (failures_Permutation _ _ H1), (failures_Permutation _ _ H2).
  - intros Hs Hc. rewrite scrape_no_crash by done. by eexists.
  - exists Fixture.orders, Fixture.reversed, (Body (Some Fixture.statsifc)).
    split; [apply orders_ok_orders|]. split; [apply orders_ok_reversed|].
    vm_compute. discriminate.
Qed.

Lemma scrape_order_independent_witness :
  ∃ st1 st2,
    scrape Fixture.parseDecimal Fixture.orders (Body (Some Fixture.statsifc))
      (Body (Some Fixture.cmconnectionstatus)) Fixture.empty = Ret (1%float, st1)
    ∧ scrape Fixture.parseDecimal Fixture.reversed (Body (Some Fixture.statsifc))
        (Body (Some Fixture.cmconnectionstatus)) Fixture.empty = Ret (1%float, st2)
    ∧ ch st1 ≡ₚ ch st2
    ∧ parseFailures st1 = parseFailures st2
    ∧ totalScrapes st1 = totalScrapes st2.
Proof.
  destruct (scrape_order_independent Fixture.parseDecimal Fixture.orders Fixture.reversed
              (Body (Some Fixture.statsifc)) (Body (Some Fixture.cmconnectionstatus))
              Fixture.empty orders_ok_orders orders_ok_reversed)
    as (_ & Hsame & Hreturns & _).
  destruct Hreturns as [st1 Hst1]; [reflexivity | reflexivity |].
  destruct (Hsame _ _ Hst1) as (st2 & Hst2 & Hperm & Hfail & Htotal).
  by exists st1, st2.
Defined.

Lemma foldl_send {A} (f : A → Sent) (l : list A) (st : State) :
  foldl (λ st x, send (f x) st) st l
  = mkState (totalScrapes st) (parseFailures st) (ch st ++ map f l).
Proof.
  revert st. induction l as [|x l IH]; intros st; simpl.
  - rewrite app_nil_r. by destruct st.
  - rewrite IH. simpl. by rewrite <- app_assoc.
Qed.

Lemma sent_metric_impl (P Q : Metric → Prop) (l : list Sent) :
  (∀ m, P m → Q m) → Forall (sent_metric P) l → Forall (sent_metric Q) l.
Proof.
  intros HPQ Hl. eapply Forall_impl; [exact Hl|].
  intros x (m & -> & Hm). exists m. auto.
Qed.

(** ** What the rows of a page send *)

Lemma elem_of_concat {A} (x : A) (l : list A) (ls : list (list A)) :
  x ∈ l → l ∈ ls → x ∈ concat ls.
Proof.
  intros Hx Hl. induction Hl as [l ls|l l' ls _ IH]; simpl; apply elem_of_app; auto.
Qed.

Lemma emitted_elem m es : Emit m ∈ es → Const m ∈ emitted es.
Proof. intros Hm. unfold emitted. apply list_elem_of_omap. by exists (Emit m). Qed.

Lemma table_effects_emitted eff (order : nat → list (nat * Desc)) table row m :
  row ∈ drop 2 table → (∀ k, Emit m ∈ eff (order k) row) →
  Const m ∈ emitted (table_effects eff order table).
Proof.
  intros Hrow Hm. apply list_elem_of_lookup_1 in Hrow as [k Hk].
  apply emitted_elem. unfold table_effects.
  apply (elem_of_concat _ (eff (order k) row)); [done|].
  by apply (elem_of_lookup_imap_2 (λ k row, eff (order k) row)).
Qed.

Lemma network_row_emits order row i metric m :
  length row = 9 → (i, metric) ∈ order → network_effect row (i, metric) = Ret (Emit m) →
  Emit m ∈ network_row_effects order row.
Proof.
  intros Hlen Hin Hm. unfold network_row_effects.
  rewrite bool_decide_eq_true_2 by done. simpl.
  apply list_elem_of_fmap. exists (i, metric). by rewrite Hm.
Qed.

Lemma channel_row_emits width decode order row key channel i metric m :
  length row = width → row !! 1 = Some key → Strings.ParseInt key = Some channel →
  (i, metric) ∈ order →
  channel_effect (decode row (Strings.Sprintf02d channel)) (i, metric) = Ret (Emit m) →
  Emit m ∈ channel_row_effects width decode order row.
Proof.
  intros Hlen Hkey Hparse Hin Hm. unfold channel_row_effects.
  rewrite bool_decide_eq_true_2 by done. simpl. rewrite Hkey, Hparse.
  apply list_elem_of_fmap. exists (i, metric). by rewrite Hm.
Qed.

Lemma range_of_elem m order i metric :
  range_of m order → m !! i = Some metric → (i, metric) ∈ order.
Proof.
  unfold range_of. intros Horder Hi. rewrite Horder. by apply elem_of_map_to_list.
Qed.

Lemma network_effect_value row i metric cell interface :
  row !! i = Some cell → row !! 0 = Some interface →
  length (variableLabels metric) = 1 → Utf8.ValidString interface = true →
  network_effect row (i, metric)
  = Ret (match Strings.ParseInt cell with
         | Some v => Emit (mkMetric metric CounterValue (float64_of_int64 v) [interface])
         | None => Failure
         end).
Proof.
  intros Hcell Hinterface Harity Hvalid. unfold network_effect, index.
  rewrite Hcell. simpl. destruct (Strings.ParseInt cell); [|done].
  rewrite Hinterface. simpl. rewrite MustNewConstMetric_valid; [done|done|].
  simpl. by rewrite Hvalid.
Qed.

Lemma channel_effect_decoded decode i metric v lvs :
  decode i = Ret (Value v lvs) → length lvs = length (variableLabels metric) →
  forallb Utf8.ValidString lvs = true →
  channel_effect decode (i, metric) = Ret (Emit (mkMetric metric CounterValue v lvs)).
Proof.
  intros Hd Harity Hvalid. unfold channel_effect. rewrite Hd. simpl.
  by rewrite MustNewConstMetric_valid.
Qed.

Section PageRows.

Variable ParseFloat : string → option float.

(** The interface rows of statsifc.html. *)
Lemma statsifc_emits o page row interface i metric cell v :
  orders_ok o → statsifc_labels_ok page = true →
  row ∈ rows_of page 0 → length row = 9 → row !! 0 = Some interface →
  networkMetrics !! i = Some metric → row !! i = Some cell →
  Strings.ParseInt cell = Some v →
  Const (mkMetric metric CounterValue (float64_of_int64 v) [interface])
  ∈ emitted (statsifc_effects o page).
Proof.
  intros Ho Hvalid Hrow Hlen Hinterface Hmetric Hcell Hparse.
  pose proof (labels_ok_row 9 [0] _ row Hvalid Hrow Hlen) as Hlabels.
  inversion Hlabels as [|? ? H0 _]; subst.
  unfold statsifc_effects, rows_of, tables_of in *.
  destruct page as [|parsed]; [by apply elem_of_nil in Hrow|].
  destruct (parseTables parsed) as [[[|table tables]|]| |];
    try by apply elem_of_nil in Hrow.
  simpl in Hrow. case_bool_decide as Hshort.
  { rewrite drop_ge in Hrow by lia. by apply elem_of_nil in Hrow. }
  apply (table_effects_emitted _ _ _ row); [done|]. intros k.
  assert ((i, metric) ∈ networkOrder o k) as Hin
    by (eapply range_of_elem; [apply Ho|done]).
  apply (network_row_emits _ row i metric); [done|done|].
  rewrite (network_effect_value row i metric cell interface), Hparse; try done.
  - pose proof (network_entries_ok _ (proj1 (Ho k))) as Hok.
    rewrite Forall_forall in Hok. specialize (Hok _ Hin).
    unfold network_entry_ok in Hok. apply andb_true_iff in Hok as [_ Hok].
    by apply Nat.eqb_eq in Hok.
  - by apply (label_ok_lookup row 0).
Qed.

(** The rows of the two channel tables of cmconnectionstatus.html. *)
Lemma cmconnectionstatus_emits o page :
  orders_ok o → cmconnectionstatus_labels_ok page = true →
  2 ≤ length (default [] (tables_of page !! 1)) →
  2 ≤ length (default [] (tables_of page !! 2)) →
  ∀ row key channel i metric value lvs,
    row !! 1 = Some key → Strings.ParseInt key = Some channel →
    (row ∈ rows_of page 1 ∧ length row = 13
     ∧ downstreamChannelMetrics !! i = Some metric
     ∧ downstream_decode ParseFloat row (Strings.Sprintf02d channel) i
       = Ret (Value value lvs))
    ∨ (row ∈ rows_of page 2 ∧ length row = 9
       ∧ upstreamChannelMetrics !! i = Some metric
       ∧ upstream_decode ParseFloat row (Strings.Sprintf02d channel) i
         = Ret (Value value lvs)) →
    Const (mkMetric metric CounterValue value lvs)
    ∈ emitted (cmconnectionstatus_effects ParseFloat o page).
Proof.
  intros Ho Hvalid Hlen1 Hlen2 row key channel i metric value lvs Hkey Hparse Hrow.
  unfold cmconnectionstatus_labels_ok in Hvalid.
  apply andb_true_iff in Hvalid as [Hvalid1 Hvalid2].
  unfold cmconnectionstatus_effects, rows_of, tables_of in *.
  destruct page as [|parsed]; [simpl in Hlen1; lia|].
  destruct (parseTables parsed) as [[[|table0 [|table1 [|table2 tables]]]|]| |];
    try (simpl in Hlen1, Hlen2; lia).
  simpl in *.
  rewrite !bool_decide_eq_false_2 by lia. simpl. rewrite emitted_app, elem_of_app.
  destruct Hrow as [(Hrow & Hlen & Hmetric & Hd) | (Hrow & Hlen & Hmetric & Hd)].
  - left. apply (table_effects_emitted _ _ _ row); [done|]. intros k.
    assert ((i, metric) ∈ downstreamOrder o k) as Hin
      by (eapply range_of_elem; [apply Ho|done]).
    apply (channel_row_emits 13 _ _ row key channel i metric); try done.
    pose proof (downstream_entries_ok _ (proj1 (proj2 (Ho k)))) as Hok.
    rewrite Forall_forall in Hok. specialize (Hok _ Hin).
    pose proof (labels_ok_row 13 [3; 9] _ row Hvalid1 Hrow Hlen) as Hlabels.
    inversion Hlabels as [|? ? H3 Hrest]; subst. inversion Hrest as [|? ? H9 _]; subst.
    destruct (downstream_effect_ok ParseFloat row (Strings.Sprintf02d channel) (i, metric))
      as (e & He & _ & _); auto using Sprintf02d_valid.
    rewrite He. unfold channel_effect in He. rewrite Hd in He. simpl in He.
    destruct (MustNewConstMetric_cases metric CounterValue value lvs) as [HM | HM];
      rewrite HM in He; simpl in He; by simplify_eq.
  - right. apply (table_effects_emitted _ _ _ row); [done|]. intros k.
    assert ((i, metric) ∈ upstreamOrder o k) as Hin
      by (eapply range_of_elem; [apply Ho|done]).
    apply (channel_row_emits 9 _ _ row key channel i metric); try done.
    pose proof (upstream_entries_ok _ (proj2 (proj2 (Ho k)))) as Hok.
    rewrite Forall_forall in Hok. specialize (Hok _ Hin).
    pose proof (labels_ok_row 9 [3; 8] _ row Hvalid2 Hrow Hlen) as Hlabels.
    inversion Hlabels as [|? ? H3 Hrest]; subst. inversion Hrest as [|? ? H8 _]; subst.
    destruct (upstream_effect_ok ParseFloat row (Strings.Sprintf02d channel) (i, metric))
      as (e & He & _ & _); auto using Sprintf02d_valid.
    rewrite He. unfold channel_effect in He. rewrite Hd in He. simpl in He.
    destruct (MustNewConstMetric_cases metric CounterValue value lvs) as [HM | HM];
      rewrite HM in He; simpl in He; by simplify_eq.
Qed.

(** What [Collect] returns, in one piece. *)
Lemma Collect_state o statsifc cmconnectionstatus client st :
  let es1 := statsifc_effects o statsifc in
  let es2 := cmconnectionstatus_effects ParseFloat o cmconnectionstatus in
  let counters :=
    Nat.iter (failures es2) (inc_counter "cmconnectionstatus.html")
      (Nat.iter (failures es1) (inc_counter "statsifc.html") (parseFailures st)) in
  Collect ParseFloat o statsifc cmconnectionstatus client st
  = if crashes es1 || crashes es2 then Panic
    else Ret (mkState (S (totalScrapes st)) counters
                (ch st ++ emitted es1 ++ emitted es2
                 ++ [Const (mkMetric targetUpMetric GaugeValue 1%float []);
                     TotalScrapes (S (totalScrapes st))]
                 ++ map (λ kv, ParseFailures kv.1 kv.2) (map_to_list counters)
                 ++ map (λ c, ClientRequests c.1.1 c.1.2 c.2) client)).
Proof.
  intros es1 es2 counters. unfold Collect. rewrite scrape_state. fold es1 es2.
  destruct (_ || _); [done|]. simpl.
  rewrite (foldl_send (λ c, ClientRequests c.1.1 c.1.2 c.2)).
  rewrite (foldl_send (λ kv, ParseFailures kv.1 kv.2)). simpl.
  by rewrite <- !app_assoc.
Qed.

End PageRows.

(** C3, as the specification states it, fails on a page with a cell that
    is not valid UTF-8 in a column that becomes a label value (here the
    name of an interface): the poll panics when it builds the metric, and
    tc4400_up is not sent. *)
Lemma up_metric_not_sent_on_panic :
  Fixture.bad_network_row !! 0 = Some Fixture.bad_cell
  ∧ Utf8.ValidString Fixture.bad_cell = false
  ∧ Collect Fixture.parseDecimal Fixture.orders (Body (Some Fixture.bad_statsifc))
      (Body (Some Fixture.cmconnectionstatus)) [("200", "get", false)] Fixture.empty
    = Panic
  ∧ Collect Fixture.parseDecimal Fixture.reversed (Body (Some Fixture.bad_statsifc))
      FetchError [] Fixture.empty
    = Panic.
Proof. repeat split; vm_compute; reflexivity. Qed.

(** C3, amended: a [Collect] on pages whose cells that become label
    values (interface names, channel types, modulations) are valid UTF-8
    returns, under any orders of the map loops and whatever became of the
    two fetches, and sends tc4400_up exactly once, as a gauge of value 1:
    the metrics of the pages before it are none of them tc4400_up, and
    what follows it are the exporter's own counters.  [scrape] never
    returns anything but 1, so the value 0 is never sent.  When the fetch
    of one page fails, the metrics sent before tc4400_up are all metrics
    of the other page's maps, and they hold what the rows of that page
    give: for statsifc.html, for every row of nine cells after the two
    heading rows of the first table and every column whose cell is an
    integer, the counter of that column with the integer as value and the
    interface name as label; for cmconnectionstatus.html (three tables,
    the second and third of two rows or more), for every row of the
    second table with 13 cells and of the third with 9 cells whose row
    key is an integer and every column of the table's map that decodes to
    a value, the metric of that column with that value and those label
    values, the lock status of the row among them.  The poll is counted
    in any case. *)
Theorem up_metric_always_sent (ParseFloat : string → option float) (o : Orders)
    (statsifc cmconnectionstatus : fetched) (client : list (string * string * bool))
    (st : State) :
  orders_ok o →
  statsifc_labels_ok statsifc = true →
  cmconnectionstatus_labels_ok cmconnectionstatus = true →
  ∃ st' pages rest,
    Collect ParseFloat o statsifc cmconnectionstatus client st = Ret st'
    ∧ ch st' = ch st ++ pages ++ Const (mkMetric targetUpMetric GaugeValue 1%float []) :: rest
    ∧ Forall (sent_metric (λ m, desc m ≠ targetUpMetric)) pages
    ∧ Forall (λ x, ∀ m, x ≠ Const m) rest
    ∧ totalScrapes st' = S (totalScrapes st)
    ∧ (statsifc = FetchError →
         Forall (sent_metric (λ m, desc_of downstreamChannelMetrics (desc m)
                                   ∨ desc_of upstreamChannelMetrics (desc m))) pages
         ∧ (2 ≤ length (default [] (tables_of cmconnectionstatus !! 1)) →
            2 ≤ length (default [] (tables_of cmconnectionstatus !! 2)) →
            ∀ row key channel,
              row !! 1 = Some key → Strings.ParseInt key = Some channel →
              let label := Strings.Sprintf02d channel in
              (row ∈ rows_of cmconnectionstatus 1 → length row = 13 →
                 (∀ i metric value lvs,
                    downstreamChannelMetrics !! i = Some metric →
                    downstream_decode ParseFloat row label i = Ret (Value value lvs) →
                    Const (mkMetric metric CounterValue value lvs) ∈ pages)
                 ∧ (∀ metric cell,
                      downstreamChannelMetrics !! 2 = Some metric → row !! 2 = Some cell →
                      Const (mkMetric metric CounterValue
                               (if bool_decide (cell = "Locked") then 1%float else 0%float)
                               [label]) ∈ pages))
              ∧ (row ∈ rows_of cmconnectionstatus 2 → length row = 9 →
                   (∀ i metric value lvs,
                      upstreamChannelMetrics !! i = Some metric →
                      upstream_decode ParseFloat row label i = Ret (Value value lvs) →
                      Const (mkMetric metric CounterValue value lvs) ∈ pages)
                   ∧ (∀ metric cell,
                        upstreamChannelMetrics !! 2 = Some metric → row !! 2 = Some cell →
                        Const (mkMetric metric CounterValue
                                 (if bool_decide (cell = "Locked") then 1%float else 0%float)
                                 [label]) ∈ pages))))
    ∧ (cmconnectionstatus = FetchError →
         Forall (sent_metric (λ m, desc_of networkMetrics (desc m))) pages
         ∧ ∀ row interface i metric cell v,
             row ∈ rows_of statsifc 0 → length row = 9 → row !! 0 = Some interface →
             networkMetrics !! i = Some metric → row !! i = Some cell →
             Strings.ParseInt cell = Some v →
             Const (mkMetric metric CounterValue (float64_of_int64 v) [interface]) ∈ pages).
Proof.
  intros Ho Hvalid1 Hvalid2.
  pose proof (statsifc_desc o statsifc Ho) as Hdesc1.
  pose proof (cmconnectionstatus_desc ParseFloat o cmconnectionstatus Ho) as Hdesc2.
  pose proof (statsifc_emits o statsifc) as Hrows1.
  pose proof (cmconnectionstatus_emits ParseFloat o cmconnectionstatus Ho Hvalid2) as Hrows2.
  pose proof (Collect_state ParseFloat o statsifc cmconnectionstatus client st) as Hcollect.
  cbv zeta in Hcollect.
  rewrite (scrape_no_crash ParseFloat o statsifc cmconnectionstatus) in Hcollect by done.
  set (es1 := statsifc_effects o statsifc) in *.
  set (es2 := cmconnectionstatus_effects ParseFloat o cmconnectionstatus) in *.
  eexists _, (emitted es1 ++ emitted es2), _. split; [exact Hcollect|].
  split; [|split; [|split; [|split; [|split]]]].
  - simpl. rewrite <- !app_assoc. simpl. reflexivity.
  - apply Forall_app. split.
    + eapply sent_metric_impl; [|exact Hdesc1]. intros m Hm.
      by apply (desc_of_not_up networkMetrics).
    + eapply sent_metric_impl; [|exact Hdesc2]. intros m [Hm | Hm].
      * by apply (desc_of_not_up downstreamChannelMetrics).
      * by apply (desc_of_not_up upstreamChannelMetrics).
  - apply Forall_cons. split; [done|]. apply Forall_app. split.
    + apply Forall_forall. intros x Hx m ->.
      apply list_elem_of_fmap in Hx as (kv & Hkv & _). done.
    + apply Forall_forall. intros x Hx m ->.
      apply list_elem_of_In, in_map_iff in Hx as (c & Hc & _). done.
  - done.
  - intros ->. subst es1. simpl. split; [done|].
    intros Hlen1 Hlen2 row key channel Hkey Hparse. split.
    + intros Hrow Hlen. split.
      * intros i metric value lvs Hmetric Hd.
        apply (Hrows2 Hlen1 Hlen2 row key channel i metric value lvs Hkey Hparse).
        left. done.
      * intros metric cell Hmetric Hcell.
        apply (Hrows2 Hlen1 Hlen2 row key channel 2 metric _ _ Hkey Hparse).
        left. repeat split; try done. simpl. unfold index. by rewrite Hcell.
    + intros Hrow Hlen. split.
      * intros i metric value lvs Hmetric Hd.
        apply (Hrows2 Hlen1 Hlen2 row key channel i metric value lvs Hkey Hparse).
        right. done.
      * intros metric cell Hmetric Hcell.
        apply (Hrows2 Hlen1 Hlen2 row key channel 2 metric _ _ Hkey Hparse).
        right. repeat split; try done. simpl. unfold index. by rewrite Hcell.
  - intros ->. subst es2. simpl. rewrite app_nil_r. split; [done|].
    intros row interface i metric cell v Hrow Hlen Hinterface Hmetric Hcell Hparse.
    by eapply Hrows1.
Qed.

Lemma up_metric_always_sent_witness :
  ∃ st' pages rest,
    Collect Fixture.parseDecimal Fixture.orders FetchError
      (Body (Some Fixture.cmconnectionstatus)) [("200", "get", false)] Fixture.empty = Ret st'
    ∧ ch st' = pages ++ Const (mkMetric targetUpMetric GaugeValue 1%float []) :: rest
    ∧ Forall (sent_metric (λ m, desc m ≠ targetUpMetric)) pages
    ∧ Forall (λ x, ∀ m, x ≠ Const m) rest
    ∧ Forall (sent_metric (λ m, desc_of downstreamChannelMetrics (desc m)
                                ∨ desc_of upstreamChannelMetrics (desc m))) pages
    ∧ Const (mkMetric (newChannelMetric "downstream" "locked" "Downstream Lock Status" [])
               CounterValue 1%float ["01"]) ∈ pages
    ∧ Const (mkMetric (newChannelMetric "upstream" "locked" "Upstream Lock Status" [])
               CounterValue 1%float ["02"]) ∈ pages.
Proof.
  destruct (up_metric_always_sent Fixture.parseDecimal Fixture.orders FetchError
              (Body (Some Fixture.cmconnectionstatus)) [("200", "get", false)]
              Fixture.empty orders_ok_orders)
    as (st' & pages & rest & Hcollect & Hch & Hpages & Hrest & _ & Hfirst & _);
    [reflexivity | reflexivity |].
  destruct Hfirst as [Hdesc Hrows]; [reflexivity|].
  exists st', pages, rest. split; [done|]. split; [done|]. split; [done|].
  split; [done|]. split; [done|]. split.
  - destruct (Hrows ltac:(vm_compute; lia) ltac:(vm_compute; lia)
                Fixture.downstream_row "1" 1%Z eq_refl eq_refl) as [Hdown _].
    destruct Hdown as [_ Hlocked];
      [vm_compute; repeat constructor | reflexivity |].
    by apply (Hlocked _ "Locked").
  - destruct (Hrows ltac:(vm_compute; lia) ltac:(vm_compute; lia)
                Fixture.upstream_row "2" 2%Z eq_refl eq_refl) as [_ Hup].
    destruct Hup as [_ Hlocked];
      [vm_compute; repeat constructor | reflexivity |].
    by apply (Hlocked _ "Locked").
Defined.

Example Collect_example :
  (λ st, (sent_names st, totalScrapes st, map_to_list (parseFailures st), length (ch st)))
    <$> returned (Collect Fixture.parseDecimal Fixture.orders FetchError
                    (Body (Some Fixture.short_page)) [("200", "get", false)] Fixture.empty)
  = Some (["tc4400_up"], 1, [("cmconnectionstatus.html", 1)], 4).
Proof. vm_compute. reflexivity. Qed.

(** * Further properties *)

(** ** The document walk on any document *)

Lemma tables_next_prefix all n tables done :
  up n ≠ [] → extracted done tables → done ++ pending_tables (ctx_of n) = all →
  match tables_next n tables with
  | Continue st' => prefix_inv all st'
  | Stop r => prefix_done all r
  end.
Proof.
  intros Hup Hdone Hall. unfold tables_next, NextSibling, Parent.
  unfold ctx_of in *. destruct (up n) as [|f fs] eqn:Hupn; [done|]. simpl in *.
  destruct (after f) as [|s ss] eqn:Hf.
  2:{ unfold prefix_inv, ctx_of. simpl. split; [done|].
      exists done. split; [done|]. rewrite <- Hall.
      rewrite !pending_tables_cons. simpl. by rewrite <- !app_assoc. }
  destruct (above f) as [[t a] d]. unfold is_root. simpl.
  destruct fs as [|g gs]; simpl.
  { by exists tables, done, (pending_tables [[]]). }
  simpl in Hall.
  destruct (after g) as [|s ss] eqn:Hg.
  { by exists tables, done, (pending_tables ([] :: [] :: map after gs)). }
  unfold prefix_inv, ctx_of. simpl. split; [done|].
  exists done. split; [done|]. rewrite <- Hall.
  rewrite !pending_tables_cons. simpl. by rewrite <- !app_assoc.
Qed.

Lemma tables_body_prefix all st :
  prefix_inv all st →
  match tables_body st with
  | Continue st' => prefix_inv all st'
  | Stop r => prefix_done all r
  end.
Proof.
  destruct st as [n tables]. intros (Hup & done & Hdone & Hall).
  simpl in *. rewrite outer_tables_unfold in Hall.
  destruct (is_element (node n) Table) eqn:Htable.
  { destruct (parseTable_total (node n)) as [t Ht]. rewrite Ht.
    apply (tables_next_prefix all n _ (done ++ [node n])); try done.
    - apply Forall2_app; [done|]. by constructor.
    - by rewrite <- app_assoc. }
  unfold FirstChild.
  destruct (children (node n)) as [|c cs] eqn:Hcs; simpl in *.
  { by apply (tables_next_prefix all n _ done). }
  unfold prefix_inv, ctx_of in *. simpl. split; [done|].
  exists done. split; [done|]. rewrite <- Hall.
  rewrite pending_tables_cons. by rewrite <- !app_assoc.
Qed.

(** X1: whatever the document, [parseTables] returns the extractions of
    an initial part of the table elements that lie outside other tables,
    one for each and in document order: it never returns more tables than
    the document has table elements, never a table nested in another,
    never one twice and never two in the wrong order. *)
Theorem parseTables_prefix (d : Document) :
  ∃ tables nodes rest,
    parseTables (Some d) = Ret (Some tables)
    ∧ outer_tables (doc_node d) = nodes ++ rest
    ∧ Forall2 (λ n t, parseTable n = Ret t) nodes tables
    ∧ length tables ≤ length (all_tables (doc_node d)).
Proof.
  assert (prefix_done (outer_tables (doc_node d)) (walk_tables (doc_node d)))
    as (tables & nodes & rest & Hwalk & Hext & Hall).
  { unfold walk_tables, tables_loop.
    remember (node_size (doc_node d)) as fuel eqn:Hfuel.
    destruct fuel as [|fuel]; [pose proof (node_size_pos (doc_node d)); lia|].
    simpl.
    apply (iterate_inv tables_body (λ st, remaining st.1)
             (prefix_inv (outer_tables (doc_node d)))
             (prefix_done (outer_tables (doc_node d)))).
    - intros st Hst. split.
      { unfold remaining. pose proof (node_size_pos (node st.1)). lia. }
      pose proof (tables_body_step st) as Hstep.
      pose proof (tables_body_prefix _ st Hst) as Hinv.
      destruct (tables_body st); [|done]. by destruct Hstep.
    - unfold prefix_inv, ctx_of. simpl. split; [done|].
      exists []. split; [constructor|]. simpl.
      rewrite pending_tables_cons. unfold pending_tables. simpl. by rewrite app_nil_r.
    - unfold remaining. simpl. unfold frame_size. simpl.
      simpl in Hfuel. unfold forest_size. lia. }
  exists tables, nodes, rest. unfold parseTables. rewrite Hwalk.
  split; [done|]. split; [done|]. split; [done|].
  rewrite <- (Forall2_length _ _ _ Hext).
  etrans; [|apply sublist_length, outer_tables_sublist].
  rewrite <- Hall, length_app. lia.
Qed.

(** ** The text of a cell *)

Lemma string_app_assoc (s t u : string) : (s +:+ t) +:+ u = s +:+ t +:+ u.
Proof.
  induction s as [|a s IH]; [done|].
  change (String a ((s +:+ t) +:+ u) = String a (s +:+ t +:+ u)). by rewrite IH.
Qed.

Lemma string_app_nil_r (s : string) : s +:+ "" = s.
Proof.
  induction s as [|a s IH]; [done|].
  change (String a (s +:+ "") = String a s). by rewrite IH.
Qed.

Lemma is_empty_true s : is_empty s = true → s = "".
Proof. by destruct s. Qed.

Lemma forest_text_app l l' : forest_text (l ++ l') = forest_text l +:+ forest_text l'.
Proof.
  induction l as [|c l IH]; [done|].
  simpl. by rewrite IH, string_app_assoc.
Qed.

Lemma pending_text_cons later ctx :
  pending_text (later :: ctx) = forest_text later +:+ pending_text ctx.
Proof. unfold pending_text. simpl. apply forest_text_app. Qed.

Lemma descendant_text_children n : descendant_text n = forest_text (children n).
Proof. by destruct n. Qed.

Lemma content_ok_unfold ctx n :
  content_ok ctx n
  = if bool_decide (Type_ n = TextNode) || is_nil (children n) then content_end_ok ctx
    else content_siblings_ok ctx (children n).
Proof.
  destruct n as [t a d cs]. simpl.
  destruct (bool_decide (t = TextNode) || is_nil cs); [done|].
  induction cs as [|c cs IH]; [done|]. simpl. by rewrite IH.
Qed.

Lemma content_next_inv total c buf :
  up c ≠ [] → content_end_ok (ctx_of c) = true → content_stack_ok (ctx_of c) = true →
  buf +:+ pending_text (ctx_of c) = total →
  match content_next c buf with
  | Continue st' => content_walk_inv total st'
  | Stop r => r = Ret total
  end.
Proof.
  intros Hup Hend Hstack Htotal. unfold content_next, NextSibling, Parent.
  unfold ctx_of in *. destruct (up c) as [|f fs] eqn:Hupc; [done|]. simpl in *.
  destruct (after f) as [|s ss] eqn:Hf.
  2:{ apply andb_true_iff in Hstack as [Hsib Hstack]. simpl in Hsib.
      apply andb_true_iff in Hsib as [Hs Hss].
      unfold content_walk_inv, ctx_of. simpl. repeat split; try done.
      by rewrite Hss, Hstack. }
  destruct (above f) as [[t a] d]. unfold is_root. simpl.
  destruct fs as [|g gs]; simpl.
  { unfold content_walk_inv. simpl. rewrite <- Htotal.
    unfold pending_text. simpl. by rewrite string_app_nil_r. }
  apply andb_true_iff in Hstack as [_ Hstack]. simpl in Hstack, Hend, Htotal.
  unfold NextSibling. simpl.
  destruct (after g) as [|s ss] eqn:Hg.
  { unfold content_walk_inv. simpl. rewrite <- Htotal.
    apply is_empty_true in Hend. rewrite !pending_text_cons, Hend. simpl.
    by rewrite string_app_nil_r. }
  apply andb_true_iff in Hstack as [Hsib Hstack]. simpl in Hsib.
  apply andb_true_iff in Hsib as [Hs Hss].
  unfold content_walk_inv, ctx_of. simpl. repeat split; try done.
  by rewrite Hss, Hstack.
Qed.

Lemma content_body_inv total st :
  content_walk_inv total st →
  match content_body st with
  | Continue st' => content_walk_inv total st'
  | Stop r => r = Ret total
  end.
Proof.
  destruct st as [[c|] buf]; unfold content_walk_inv at 1; simpl.
  2:{ by intros ->. }
  intros (Hup & Hok & Hstack & Htotal).
  rewrite content_ok_unfold in Hok. unfold node_text in Htotal.
  destruct (bool_decide (Type_ (node c) = TextNode)) eqn:Htext; simpl in Hok.
  { apply content_next_inv; try done. by rewrite string_app_assoc. }
  rewrite descendant_text_children in Htotal. unfold FirstChild.
  destruct (children (node c)) as [|f cs] eqn:Hcs; simpl in *.
  { by apply content_next_inv. }
  apply andb_true_iff in Hok as [Hf Hcs'].
  unfold content_walk_inv, ctx_of in *. simpl. repeat split; try done.
  - by rewrite Hcs', Hstack.
  - rewrite <- Htotal, pending_text_cons.
    fold (forest_text cs). by rewrite !string_app_assoc.
Qed.

Lemma one_deep_shallow cellNode : one_deep cellNode = true → shallow_cell cellNode = true.
Proof.
  unfold one_deep, shallow_cell.
  assert (∀ later l, forallb leafish l = true →
            content_siblings_ok [later] l = true) as Hinner.
  { intros later l. induction l as [|g l IH]; [done|]. simpl.
    intros [Hg Hl]%andb_true_iff. rewrite IH by done.
    rewrite content_ok_unfold. unfold leafish in Hg. rewrite Hg.
    by destruct l, later. }
  induction (children cellNode) as [|c l IH]; [done|]. simpl.
  intros [Hc Hl]%andb_true_iff. rewrite IH by done.
  rewrite content_ok_unfold. unfold leafish in Hc.
  destruct (bool_decide (Type_ c = TextNode) || is_nil (children c)); [by destruct l|].
  simpl in Hc. by rewrite Hinner.
Qed.

(** X2: in a cell where the content walk never has to climb more than one
    level to find the rest of the text, the cell text is the
    concatenation of all text nodes below the cell, in document order and
    with nothing between them, trimmed of white space at both ends; every
    cell whose children are text nodes, childless elements, or elements
    holding only such nodes is such a cell. *)
Theorem cell_text_shallow (cellNode : Node) :
  (shallow_cell cellNode = true →
     cell_text cellNode = Ret (Strings.TrimSpace (descendant_text cellNode)))
  ∧ (one_deep cellNode = true → shallow_cell cellNode = true).
Proof.
  split; [|apply one_deep_shallow].
  intros Hshallow. unfold cell_text.
  assert (content_loop (node_size cellNode) (FirstChild (root cellNode)) ""
          = Ret (descendant_text cellNode)) as ->; [|done].
  unfold content_loop.
  apply (iterate_inv content_body content_variant
           (content_walk_inv (descendant_text cellNode))
           (λ r, r = Ret (descendant_text cellNode))).
  - intros st Hst. destruct (content_body_step st) as [Hpos Hstep].
    split; [done|]. pose proof (content_body_inv _ st Hst) as Hinv.
    destruct (content_body st); [|done]. by destruct Hstep.
  - unfold content_walk_inv, FirstChild, shallow_cell in *. simpl.
    rewrite descendant_text_children.
    destruct (children cellNode) as [|c cs]; [done|]. simpl in *.
    apply andb_true_iff in Hshallow as [Hc Hcs].
    unfold ctx_of. simpl. repeat split; try done.
    + by rewrite Hcs.
    + rewrite pending_text_cons. unfold pending_text. simpl.
      by rewrite string_app_nil_r.
  - unfold content_variant. simpl.
    pose proof (node_size_pos cellNode).
    destruct (FirstChild (root cellNode)) as [c|] eqn:Hc; [|lia].
    destruct (remaining_FirstChild _ _ Hc) as [Hr _].
    unfold remaining in Hr at 2. simpl in Hr. lia.
Qed.

Lemma cell_text_shallow_witness :
  one_deep (Sample.elem Td [Sample.text " 3.5 "; Sample.tag "b" [Sample.text "dB"];
                            Sample.tag "br" []; Sample.text "mV
"]) = true
  ∧ cell_text (Sample.elem Td [Sample.text " 3.5 "; Sample.tag "b" [Sample.text "dB"];
                               Sample.tag "br" []; Sample.text "mV
"])
    = Ret "3.5 dBmV".
Proof.
  split; [reflexivity|].
  destruct (cell_text_shallow
              (Sample.elem Td [Sample.text " 3.5 "; Sample.tag "b" [Sample.text "dB"];
                               Sample.tag "br" []; Sample.text "mV
"])) as [Htext Hshallow].
  rewrite Htext; [reflexivity|]. by apply Hshallow.
Defined.

(** ** The rows and cells of a table *)

Lemma foldM_collect {A B} (p : A → bool) (f : A → result B) (R : A → B → Prop)
    (l : list A) (acc : list B) :
  (∀ x, ∃ y, f x = Ret y ∧ R x y) →
  ∃ ys, foldM (λ acc x, if p x then y ← f x; Ret (acc ++ [y]) else Ret acc) acc l
        = Ret (acc ++ ys)
        ∧ Forall2 R (List.filter p l) ys.
Proof.
  intros Hf. revert acc. induction l as [|x l IH]; intros acc.
  { exists []. by rewrite app_nil_r. }
  simpl. destruct (p x).
  - destruct (Hf x) as (y & -> & Hy). simpl.
    destruct (IH (acc ++ [y])) as (ys & -> & Hys).
    exists (y :: ys). rewrite <- app_assoc. split; [done|]. by constructor.
  - simpl. apply IH.
Qed.

Lemma parse_row_cells rowNode :
  ∃ row, parse_row rowNode = Ret row
         ∧ Forall2 (λ c s, cell_text c = Ret s) (row_cells rowNode) row.
Proof.
  destruct (foldM_collect is_cell cell_text (λ c s, cell_text c = Ret s)
              (children rowNode) []) as (row & Hrow & Hcells).
  { intros c. destruct (cell_text_total c) as [s Hs]. by exists s. }
  by exists row.
Qed.

Lemma parse_body_rows table bodyNode :
  ∃ rows, parse_body table bodyNode = Ret (table ++ rows)
          ∧ Forall2 (λ tr row, Forall2 (λ c s, cell_text c = Ret s) (row_cells tr) row)
                    (List.filter is_row (children bodyNode)) rows.
Proof.
  apply (foldM_collect is_row parse_row). intros tr. apply parse_row_cells.
Qed.

(** X3: [parseTable] returns one row for each tr element that is a child
    of a thead or tbody child of the table, in document order, and in
    each row one cell text for each th or td child of the tr; rows and
    cells anywhere else (a tr directly under the table, a tfoot, a cell
    wrapped in another element) are left out, and a table without such
    rows gives the empty table. *)
Theorem parseTable_rows_and_cells (tableNode : Node) :
  ∃ table,
    parseTable tableNode = Ret table
    ∧ Forall2 (λ tr row, Forall2 (λ c s, cell_text c = Ret s) (row_cells tr) row)
              (table_rows tableNode) table.
Proof.
  unfold parseTable, table_rows.
  assert (∀ l acc,
            ∃ rows,
              foldM (λ table bodyNode,
                       if is_element bodyNode Thead || is_element bodyNode Tbody
                       then parse_body table bodyNode else Ret table) acc l
              = Ret (acc ++ rows)
              ∧ Forall2 (λ tr row,
                           Forall2 (λ c s, cell_text c = Ret s) (row_cells tr) row)
                        (concat (map (λ bodyNode, List.filter is_row (children bodyNode))
                                     (List.filter is_body l))) rows) as Hfold.
  { intros l. induction l as [|bodyNode l IH]; intros acc.
    { exists []. by rewrite app_nil_r. }
    simpl. unfold is_body at 1.
    destruct (is_element bodyNode Thead || is_element bodyNode Tbody).
    - destruct (parse_body_rows acc bodyNode) as (rows & -> & Hrows). simpl.
      destruct (IH (acc ++ rows)) as (rows' & -> & Hrows').
      exists (rows ++ rows'). rewrite <- app_assoc. split; [done|].
      by apply Forall2_app.
    - simpl. apply IH. }
  destruct (Hfold (children tableNode) []) as (table & Htable & Hrows).
  by exists table.
Qed.

(** ** The channel label and the row key *)

Lemma ParseInt_Sprintf02d v :
  (- 2 ^ 63 ≤ v < 2 ^ 63)%Z → Strings.ParseInt (Strings.Sprintf02d v) = Some v.
Proof.
  intros Hv. unfold Strings.Sprintf02d.
  assert (∀ (neg : bool) (digits : list ascii),
            Strings.allDigits digits = true →
            (if neg then (- Strings.digitsValue digits)%Z
             else Strings.digitsValue digits) = v →
            (if Strings.allDigits digits then
               let v' := if neg then (- Strings.digitsValue digits)%Z
                         else Strings.digitsValue digits in
               if ((- 2 ^ 63 <=? v') && (v' <? 2 ^ 63))%Z then Some v' else None
             else None) = Some v) as Hfinish.
  { intros neg digits -> Hvalue. cbv zeta. rewrite Hvalue.
    destruct (Z.leb_spec (- 2 ^ 63) v); [|lia].
    destruct (Z.ltb_spec v (2 ^ 63)); [done|lia]. }
  destruct (Z.ltb_spec v 0) as [Hneg | Hnonneg].
  - destruct (pretty_N_digits (Z.to_N (- v))) as (a & p & Hbytes & Ha & Hp & Hvalue).
    unfold Strings.ParseInt.
    change (Strings.bytes ("-" +:+ pretty (Z.to_N (- v))))
      with ("-"%char :: Strings.bytes (pretty (Z.to_N (- v)))).
    rewrite Hbytes. simpl Ascii.eqb. cbv iota beta.
    apply (Hfinish true (a :: p)).
    + unfold Strings.allDigits. simpl. by rewrite Ha, Hp.
    + rewrite Hvalue. lia.
  - destruct (pretty_N_digits (Z.to_N v)) as (a & p & Hbytes & Ha & Hp & Hvalue).
    destruct (Z.ltb_spec v 10) as [Hsmall | Hlarge].
    + unfold Strings.ParseInt.
      change (Strings.bytes ("0" +:+ pretty (Z.to_N v)))
        with ("0"%char :: Strings.bytes (pretty (Z.to_N v))).
      rewrite Hbytes. simpl Ascii.eqb. cbv iota beta.
      apply (Hfinish false ("0"%char :: a :: p)).
      * unfold Strings.allDigits. simpl. by rewrite Ha, Hp.
      * change (Strings.digitsValue ("0"%char :: a :: p)) with (Strings.digitsValue (a :: p)).
        rewrite Hvalue. lia.
    + unfold Strings.ParseInt. rewrite Hbytes.
      destruct (digit_not_sign a Ha) as [-> ->].
      apply (Hfinish false (a :: p)).
      * unfold Strings.allDigits. simpl. by rewrite Ha, Hp.
      * rewrite Hvalue. lia.
Qed.

(** X8: the channel label of a row parses back, by the exporter's own
    [ParseInt], to the row key it was formatted from; so two rows whose
    keys differ never get the same channel label. *)
Theorem channel_label_round_trip (v w : Z) :
  (- 2 ^ 63 ≤ v < 2 ^ 63)%Z →
  Strings.ParseInt (Strings.Sprintf02d v) = Some v
  ∧ ((- 2 ^ 63 ≤ w < 2 ^ 63)%Z → Strings.Sprintf02d v = Strings.Sprintf02d w → v = w).
Proof.
  intros Hv. split; [by apply ParseInt_Sprintf02d|].
  intros Hw Heq. apply ParseInt_Sprintf02d in Hv, Hw. congruence.
Qed.

Lemma channel_label_round_trip_witness :
  (- 2 ^ 63 ≤ 7 < 2 ^ 63)%Z ∧ Strings.ParseInt (Strings.Sprintf02d 7) = Some 7%Z.
Proof.
  assert (- 2 ^ 63 ≤ 7 < 2 ^ 63)%Z as Hv by lia.
  split; [exact Hv|]. by destruct (channel_label_round_trip 7 7 Hv).
Defined.

(** ** Counters and what is sent, poll after poll *)

Lemma iter_inc_counter file n (counters : gmap string nat) :
  default 0 (Nat.iter n (inc_counter file) counters !! file)
  = n + default 0 (counters !! file)
  ∧ ∀ file', file' ≠ file →
      Nat.iter n (inc_counter file) counters !! file' = counters !! file'.
Proof.
  induction n as [|n [IHn IHother]]; [done|]. simpl. unfold inc_counter at 1 3. split.
  - rewrite lookup_insert_eq. simpl. by rewrite IHn.
  - intros file' Hne. rewrite lookup_insert_ne by done. by apply IHother.
Qed.

Lemma failures_of_iter file n st_total st_ch (counters : gmap string nat) :
  failures_of file (mkState st_total (Nat.iter n (inc_counter file) counters) st_ch)
  = n + default 0 (counters !! file).
Proof. unfold failures_of. simpl. apply iter_inc_counter. Qed.

Section CollectFacts.

Variable ParseFloat : string → option float.

Lemma scrape_failures o statsifc cmconnectionstatus st :
  let es1 := statsifc_effects o statsifc in
  let es2 := cmconnectionstatus_effects ParseFloat o cmconnectionstatus in
  let counters :=
    Nat.iter (failures es2) (inc_counter "cmconnectionstatus.html")
      (Nat.iter (failures es1) (inc_counter "statsifc.html") (parseFailures st)) in
  default 0 (counters !! "statsifc.html") = failures es1 + failures_of "statsifc.html" st
  ∧ default 0 (counters !! "cmconnectionstatus.html")
    = failures es2 + failures_of "cmconnectionstatus.html" st
  ∧ ∀ file, file ≠ "statsifc.html" → file ≠ "cmconnectionstatus.html" →
      counters !! file = parseFailures st !! file.
Proof.
  intros es1 es2 counters. unfold counters, failures_of.
  destruct (iter_inc_counter "cmconnectionstatus.html" (failures es2)
              (Nat.iter (failures es1) (inc_counter "statsifc.html") (parseFailures st)))
    as [Hcm Hcm'].
  destruct (iter_inc_counter "statsifc.html" (failures es1) (parseFailures st))
    as [Hstats Hstats'].
  split; [|split].
  - rewrite Hcm' by done. apply Hstats.
  - rewrite Hcm. by rewrite Hstats'.
  - intros file H1 H2. rewrite Hcm' by done. by apply Hstats'.
Qed.

Lemma scrape_returns o statsifc cmconnectionstatus st :
  orders_ok o → statsifc_labels_ok statsifc = true →
  cmconnectionstatus_labels_ok cmconnectionstatus = true →
  ∃ st', scrape ParseFloat o statsifc cmconnectionstatus st = Ret (1%float, st').
Proof.
  intros Ho Hs Hc. rewrite scrape_state, scrape_no_crash by done. by eexists.
Qed.

(** X6: a poll that returns returns 1; it has added one to the count of
    polls, lowered no parse-failure counter and touched none but those
    of its two pages, only added to what was sent before, and counted no
    parse failure for a page whose fetch failed.  A poll returns when the
    cells of its pages that become label values are valid UTF-8. *)
Theorem scrape_counters (o : Orders) (statsifc cmconnectionstatus : fetched) (st : State) :
  (∀ up st',
     scrape ParseFloat o statsifc cmconnectionstatus st = Ret (up, st') →
     up = 1%float
     ∧ totalScrapes st' = S (totalScrapes st)
     ∧ ch st `prefix_of` ch st'
     ∧ (∀ file, failures_of file st ≤ failures_of file st')
     ∧ (∀ file, file ≠ "statsifc.html" → file ≠ "cmconnectionstatus.html" →
          parseFailures st' !! file = parseFailures st !! file)
     ∧ (statsifc = FetchError →
          failures_of "statsifc.html" st' = failures_of "statsifc.html" st)
     ∧ (cmconnectionstatus = FetchError →
          failures_of "cmconnectionstatus.html" st'
          = failures_of "cmconnectionstatus.html" st))
  ∧ (orders_ok o → statsifc_labels_ok statsifc = true →
     cmconnectionstatus_labels_ok cmconnectionstatus = true →
     ∃ st', scrape ParseFloat o statsifc cmconnectionstatus st = Ret (1%float, st')).
Proof.
  split; [|apply scrape_returns].
  intros up st'. rewrite scrape_state. destruct (_ || _); [done|]. intros [= <- <-].
  destruct (scrape_failures o statsifc cmconnectionstatus st) as (Hstats & Hcm & Hother).
  unfold failures_of in *. simpl.
  split; [done|]. split; [done|]. split; [by eexists|]. split; [|split; [done|split]].
  - intros file.
    destruct (decide (file = "statsifc.html")) as [->|H1]; [rewrite Hstats; lia|].
    destruct (decide (file = "cmconnectionstatus.html")) as [->|H2]; [rewrite Hcm; lia|].
    by rewrite Hother.
  - intros ->. by rewrite Hstats.
  - intros ->. by rewrite Hcm.
Qed.

(** X12: what a page contributes to a poll (the metrics it sends, and
    how many parse failures it counts) is a function of that page and of
    the orders alone: it depends neither on the other page nor on the
    state of the exporter, and the metrics of statsifc.html are sent
    before those of cmconnectionstatus.html.  The one way a page bears
    on the other is a panic: the poll panics, and does not return,
    exactly when one of its pages does; a page whose fetch failed does
    not panic, nor does a page whose cells that become label values are
    valid UTF-8. *)
Theorem pages_independent (o : Orders) :
  ∃ first second : fetched → option (list Sent * nat),
    (∀ statsifc cmconnectionstatus st,
       match first statsifc, second cmconnectionstatus with
       | Some (sent1, failed1), Some (sent2, failed2) =>
           ∃ st',
             scrape ParseFloat o statsifc cmconnectionstatus st = Ret (1%float, st')
             ∧ ch st' = ch st ++ sent1 ++ sent2
             ∧ failures_of "statsifc.html" st' = failed1 + failures_of "statsifc.html" st
             ∧ failures_of "cmconnectionstatus.html" st'
               = failed2 + failures_of "cmconnectionstatus.html" st
       | _, _ => scrape ParseFloat o statsifc cmconnectionstatus st = Panic
       end)
    ∧ first FetchError = Some ([], 0) ∧ second FetchError = Some ([], 0)
    ∧ (orders_ok o →
       (∀ page, statsifc_labels_ok page = true → is_Some (first page))
       ∧ (∀ page, cmconnectionstatus_labels_ok page = true → is_Some (second page))).
Proof.
  exists (λ page, if crashes (statsifc_effects o page) then None
                  else Some (emitted (statsifc_effects o page),
                             failures (statsifc_effects o page))),
         (λ page, if crashes (cmconnectionstatus_effects ParseFloat o page) then None
                  else Some (emitted (cmconnectionstatus_effects ParseFloat o page),
                             failures (cmconnectionstatus_effects ParseFloat o page))).
  split; [|split; [done|split; [done|]]].
  - intros statsifc cmconnectionstatus st. rewrite scrape_state.
    destruct (crashes (statsifc_effects o statsifc)); [done|].
    destruct (crashes (cmconnectionstatus_effects ParseFloat o cmconnectionstatus));
      [done|].
    simpl. eexists. split; [done|].
    destruct (scrape_failures o statsifc cmconnectionstatus st) as (Hstats & Hcm & _).
    by repeat split.
  - intros Ho. split; intros page Hvalid.
    + by rewrite statsifc_no_crash.
    + by rewrite cmconnectionstatus_no_crash.
Qed.

End CollectFacts.

Lemma filter_is_up_pages (l : list Sent) :
  Forall (sent_metric (λ m, desc m ≠ targetUpMetric)) l → List.filter is_up l = [].
Proof.
  induction 1 as [|x l (m & -> & Hm) _ IH]; [done|].
  simpl. by rewrite bool_decide_eq_false_2.
Qed.

Lemma filter_is_up_map {A} (f : A → Sent) (l : list A) :
  (∀ a, is_up (f a) = false) → List.filter is_up (map f l) = [].
Proof.
  intros Hf. induction l as [|a l IH]; [done|]. simpl. by rewrite Hf.
Qed.

Section PollFacts.

Variable ParseFloat : string → option float.

Lemma Collect_step o statsifc cmconnectionstatus client st :
  orders_ok o → statsifc_labels_ok statsifc = true →
  cmconnectionstatus_labels_ok cmconnectionstatus = true →
  ∃ st1 new,
    Collect ParseFloat o statsifc cmconnectionstatus client st = Ret st1
    ∧ totalScrapes st1 = S (totalScrapes st)
    ∧ ch st1 = ch st ++ new
    ∧ length (List.filter is_up new) = 1
    ∧ ∀ file, failures_of file st ≤ failures_of file st1.
Proof.
  intros Ho Hs Hc. rewrite Collect_state, scrape_no_crash by done.
  eexists _, _. split; [done|].
  split; [done|]. split; [done|]. split.
  - rewrite !List.filter_app.
    rewrite (filter_is_up_pages (emitted (statsifc_effects o statsifc))).
    2:{ eapply sent_metric_impl; [|by apply statsifc_desc]. intros m Hm.
        by apply (desc_of_not_up networkMetrics). }
    rewrite (filter_is_up_pages
               (emitted (cmconnectionstatus_effects ParseFloat o cmconnectionstatus))).
    2:{ eapply sent_metric_impl; [|by apply cmconnectionstatus_desc].
        intros m [Hm | Hm].
        - by apply (desc_of_not_up downstreamChannelMetrics).
        - by apply (desc_of_not_up upstreamChannelMetrics). }
    by rewrite !filter_is_up_map.
  - intros file.
    destruct (scrape_failures ParseFloat o statsifc cmconnectionstatus st)
      as (Hstats & Hcm & Hother).
    unfold failures_of in *. simpl.
    destruct (decide (file = "statsifc.html")) as [->|H1]; [rewrite Hstats; lia|].
    destruct (decide (file = "cmconnectionstatus.html")) as [->|H2]; [rewrite Hcm; lia|].
    by rewrite Hother.
Qed.

(** X7: any number of polls in a row on one exporter, on pages whose
    cells that become label values are valid UTF-8, all return; the
    count of polls grows by their number, tc4400_up is sent once per
    poll, and no parse-failure counter ever goes down. *)
Theorem Collects_counts (polls : list Poll) (st : State) :
  Forall (λ p, orders_ok (pollOrders p)
               ∧ statsifc_labels_ok (pollStatsifc p) = true
               ∧ cmconnectionstatus_labels_ok (pollCmconnectionstatus p) = true) polls →
  ∃ st' new,
    Collects ParseFloat polls st = Ret st'
    ∧ totalScrapes st' = totalScrapes st + length polls
    ∧ ch st' = ch st ++ new
    ∧ length (List.filter is_up new) = length polls
    ∧ ∀ file, failures_of file st ≤ failures_of file st'.
Proof.
  intros Hpolls. revert st. unfold Collects.
  induction Hpolls as [|p polls (Hp & Hs & Hc) _ IH]; intros st.
  { exists st, []. rewrite app_nil_r. simpl. repeat split; try done; lia. }
  destruct (Collect_step (pollOrders p) (pollStatsifc p) (pollCmconnectionstatus p)
              (pollClient p) st Hp Hs Hc)
    as (st1 & new1 & Hcollect & Htotal & Hch & Hup & Hfail).
  destruct (IH st1) as (st' & new & Hrest & Htotal' & Hch' & Hup' & Hfail').
  exists st', (new1 ++ new). simpl. rewrite Hcollect. simpl.
  split; [done|]. split; [lia|]. split; [by rewrite Hch', Hch, <- app_assoc|].
  split; [rewrite List.filter_app, length_app; lia|].
  intros file. etrans; [apply Hfail|apply Hfail'].
Qed.

(** X10: every sample a [Collect] that returns has sent has a descriptor
    that [Describe] sends, whatever orders the loops of the two take;
    [Describe] sends 31 descriptors, whose names are all different.  A
    [Collect] returns when the cells of its pages that become label
    values are valid UTF-8. *)
Theorem Describe_covers_Collect (o : Orders) (network downstream upstream : list (nat * Desc))
    (statsifc cmconnectionstatus : fetched) (client : list (string * string * bool))
    (st : State) :
  orders_ok o → range_of networkMetrics network →
  range_of downstreamChannelMetrics downstream → range_of upstreamChannelMetrics upstream →
  (∀ st', Collect ParseFloat o statsifc cmconnectionstatus client st = Ret st' →
          ∃ new, ch st' = ch st ++ new
                 ∧ Forall (λ x, sent_desc x ∈ Describe network downstream upstream) new)
  ∧ length (Describe network downstream upstream) = 31
  ∧ NoDup (map fqName (Describe network downstream upstream))
  ∧ (statsifc_labels_ok statsifc = true →
     cmconnectionstatus_labels_ok cmconnectionstatus = true →
     ∃ st', Collect ParseFloat o statsifc cmconnectionstatus client st = Ret st').
Proof.
  intros Ho Hn Hd Hu.
  assert (∀ m order d, range_of m order → desc_of m d → d ∈ map snd order) as Hin.
  { intros m order d Horder [i Hi]. apply list_elem_of_fmap. exists (i, d).
    split; [done|]. unfold range_of in Horder. rewrite Horder.
    by apply elem_of_map_to_list. }
  assert (Describe network downstream upstream
          ≡ₚ Describe (map_to_list networkMetrics) (map_to_list downstreamChannelMetrics)
               (map_to_list upstreamChannelMetrics)) as Hperm.
  { unfold Describe, range_of in *. by rewrite Hn, Hd, Hu. }
  split; [|split; [|split]].
  - intros st'. rewrite Collect_state. destruct (_ || _); [done|]. intros [= <-].
    eexists. split; [done|].
    unfold Describe. apply Forall_app_2; [|apply Forall_app_2].
    + eapply Forall_impl; [by apply statsifc_desc|].
      intros x (m & -> & Hm). simpl. rewrite !elem_of_app. left. by eapply Hin.
    + eapply Forall_impl; [by apply (cmconnectionstatus_desc ParseFloat)|].
      intros x (m & -> & [Hm | Hm]); simpl; rewrite !elem_of_app.
      * right. left. by eapply Hin.
      * right. right. left. by eapply Hin.
    + apply Forall_cons_2; [simpl; rewrite !elem_of_app; do 3 right; set_solver|].
      apply Forall_cons_2; [simpl; rewrite !elem_of_app; do 3 right; set_solver|].
      apply Forall_app_2.
      * apply Forall_forall. intros x Hx.
        apply list_elem_of_fmap in Hx as (kv & -> & _).
        simpl. rewrite !elem_of_app. do 3 right. set_solver.
      * apply Forall_forall. intros x Hx.
        apply list_elem_of_fmap in Hx as (c & -> & _).
        simpl. rewrite !elem_of_app. do 3 right. destruct (c.2); set_solver.
  - by rewrite Hperm.
  - rewrite Hperm. apply (bool_decide_unpack _). by vm_compute.
  - intros Hs Hc. rewrite Collect_state, scrape_no_crash by done. by eexists.
Qed.

End PollFacts.

(** ** What a row sends *)

Lemma emitted_failures_length (es : list effect) :
  length (emitted es) + failures es ≤ length es
  ∧ (Forall (λ e, e ≠ Nothing ∧ e ≠ Crash) es →
     length (emitted es) + failures es = length es).
Proof.
  induction es as [|e es [IHle IHeq]]; [done|].
  assert (Forall (λ e, e ≠ Nothing ∧ e ≠ Crash) (e :: es) →
            (e ≠ Nothing ∧ e ≠ Crash)
            ∧ length (emitted es) + failures es = length es) as Hinv.
  { intros Hall. inversion Hall; subst. auto. }
  destruct e as [m| | |].
  - change (emitted (Emit m :: es)) with (Const m :: emitted es).
    change (failures (Emit m :: es)) with (failures es).
    simpl length. split; [lia|]. intros Hall. destruct (Hinv Hall). lia.
  - change (emitted (Failure :: es)) with (emitted es).
    change (failures (Failure :: es)) with (S (failures es)).
    simpl length. split; [lia|]. intros Hall. destruct (Hinv Hall). lia.
  - change (emitted (Nothing :: es)) with (emitted es).
    change (failures (Nothing :: es)) with (failures es).
    simpl length. split; [lia|]. intros Hall. by destruct (Hinv Hall) as [[? ?] _].
  - change (emitted (Crash :: es)) with (emitted es).
    change (failures (Crash :: es)) with (failures es).
    simpl length. split; [lia|]. intros Hall. by destruct (Hinv Hall) as [[? ?] _].
Qed.

Lemma elem_of_emitted_map {B} (eff : B → result effect) (l : list B) (b : B) (m : Metric) :
  b ∈ l → eff b = Ret (Emit m) → Const m ∈ emitted (map (λ b, effect_of (eff b)) l).
Proof.
  intros Hb Hm. unfold emitted. apply list_elem_of_omap.
  exists (Emit m). split; [|done]. apply list_elem_of_fmap. exists b.
  by rewrite Hm.
Qed.

Lemma failures_of_apply_effects file st es :
  failures_of file (apply_effects file st es) = failures es + failures_of file st.
Proof. rewrite apply_effects_spec. apply failures_of_iter. Qed.

(** X4: of the eight columns of an interface row of nine cells whose
    interface name (cell 0) is valid UTF-8, each is either sent as a
    counter labelled with the interface name, with the integer of its
    cell as value, or counted as one parse failure of statsifc.html;
    none is dropped silently.  When the interface name is not valid
    UTF-8, the row panics as soon as one of its columns holds an
    integer. *)
Theorem network_row_accounts (order : list (nat * Desc)) (st : State)
    (row : list string) (interface : string) :
  length row = 9 → row !! 0 = Some interface → range_of networkMetrics order →
  (Utf8.ValidString interface = true →
   ∃ st' new,
     network_row order st row = Ret st'
     ∧ ch st' = ch st ++ new
     ∧ length new + failures_of "statsifc.html" st' = 8 + failures_of "statsifc.html" st
     ∧ Forall (sent_metric (λ m, labelValues m = [interface] ∧ valueType m = CounterValue
                                 ∧ desc_of networkMetrics (desc m))) new
     ∧ ∀ i metric cell v,
         networkMetrics !! i = Some metric → row !! i = Some cell →
         Strings.ParseInt cell = Some v →
         Const (mkMetric metric CounterValue (float64_of_int64 v) [interface]) ∈ new)
  ∧ (Utf8.ValidString interface = false →
     ∀ i metric cell v,
       networkMetrics !! i = Some metric → row !! i = Some cell →
       Strings.ParseInt cell = Some v →
       network_row order st row = Panic).
Proof.
  intros Hlen Hinterface Horder.
  pose proof (network_entries_ok order Horder) as Hok. split.
  - intros Hvalid.
    assert (∀ entry, entry ∈ order →
              ∃ cell, row !! entry.1 = Some cell
                      ∧ network_effect row entry
                        = Ret (match Strings.ParseInt cell with
                               | Some v => Emit (mkMetric entry.2 CounterValue
                                                   (float64_of_int64 v) [interface])
                               | None => Failure
                               end)) as Heff.
    { intros [i metric] Hin. rewrite Forall_forall in Hok. specialize (Hok _ Hin).
      unfold network_entry_ok in Hok. simpl in *.
      apply andb_true_iff in Hok as [Hi Harity].
      apply Nat.ltb_lt in Hi. apply Nat.eqb_eq in Harity.
      destruct (index_lt row i) as (cell & Hcell & _); [lia|].
      exists cell. split; [done|]. by apply network_effect_value. }
    rewrite network_row_spec, run_effects_Ret.
    2:{ apply network_row_no_crash; [done|]. intros _. unfold label_ok.
        by rewrite Hinterface. }
    eexists _, _. split; [done|].
    split; [by rewrite apply_effects_spec|].
    unfold network_row_effects. rewrite bool_decide_eq_true_2 by done. simpl negb. cbv iota.
    split; [|split].
    + rewrite failures_of_apply_effects.
      destruct (emitted_failures_length
                  (map (λ entry, effect_of (network_effect row entry)) order)) as [_ Heq].
      rewrite length_map in Heq.
      assert (length order = 8) as Hlength.
      { unfold range_of in Horder. by rewrite Horder. }
      rewrite <- Hlength, <- Heq; [lia|].
      apply Forall_forall. intros e He. apply list_elem_of_fmap in He as (entry & -> & Hin).
      destruct (Heff entry Hin) as (cell & _ & ->). simpl.
      by destruct (Strings.ParseInt cell).
    + apply emitted_map_Forall. intros [i metric] m Hin Hm.
      destruct (Heff _ Hin) as (cell & _ & Hcell). rewrite Hcell in Hm.
      destruct (Strings.ParseInt cell); simplify_eq/=.
      repeat split. exists i. by eapply range_of_lookup.
    + intros i metric cell v Hmetric Hcell Hparse.
      assert ((i, metric) ∈ order) as Hin by by eapply range_of_elem.
      apply (elem_of_emitted_map (network_effect row) order (i, metric)); [done|].
      destruct (Heff _ Hin) as (cell' & Hcell' & ->). simpl in Hcell'.
      rewrite Hcell in Hcell'. injection Hcell' as <-. by rewrite Hparse.
  - intros Hinvalid i metric cell v Hmetric Hcell Hparse.
    rewrite network_row_spec. apply run_effects_Panic.
    unfold network_row_effects. rewrite bool_decide_eq_true_2 by done. simpl.
    apply (crashes_map_true (network_effect row) order (i, metric));
      [by eapply range_of_elem|].
    unfold network_effect, index. rewrite Hcell. simpl. rewrite Hparse, Hinterface. simpl.
    rewrite MustNewConstMetric_invalid; [done|]. simpl. by rewrite Hinvalid.
Qed.

Lemma network_row_accounts_witness :
  length Fixture.network_row = 9
  ∧ (∃ st' new,
       network_row (map_to_list networkMetrics) Fixture.empty Fixture.network_row = Ret st'
       ∧ ch st' = ch Fixture.empty ++ new
       ∧ length new + failures_of "statsifc.html" st'
         = 8 + failures_of "statsifc.html" Fixture.empty)
  ∧ network_row (map_to_list networkMetrics) Fixture.empty Fixture.bad_network_row = Panic.
Proof.
  split; [reflexivity|]. split.
  - destruct (network_row_accounts (map_to_list networkMetrics) Fixture.empty
                Fixture.network_row "eth0") as [Hvalid _];
      [reflexivity | reflexivity | unfold range_of; reflexivity |].
    destruct Hvalid as (st' & new & Hrow & Hch & Hcount & _); [reflexivity|].
    by exists st', new.
  - destruct (network_row_accounts (map_to_list networkMetrics) Fixture.empty
                Fixture.bad_network_row Fixture.bad_cell) as [_ Hinvalid];
      [reflexivity | reflexivity | unfold range_of; reflexivity |].
    apply (Hinvalid eq_refl 1 (NewDesc (BuildFQName namespace "network" "receive_bytes_total")
                                 "" ["interface"]) "1000" 1000%Z);
      reflexivity.
Defined.

Lemma channel_row_sent (metrics : gmap nat Desc) width decode order (st : State)
    (row : list string) (key : string) (channel : Z) :
  2 ≤ width → length row = width → row !! 1 = Some key →
  Strings.ParseInt key = Some channel → range_of metrics order →
  (∀ l i, decode row l i = Panic ∨ ∃ d, decode row l i = Ret d) →
  Forall (λ entry, ∃ e, channel_effect (decode row (Strings.Sprintf02d channel)) entry
                        = Ret e ∧ is_crash e = false) order →
  ∃ st' new,
    channel_row width decode order st row = Ret st'
    ∧ ch st' = ch st ++ new
    ∧ length new + failures_of "cmconnectionstatus.html" st'
      ≤ length (map_to_list metrics) + failures_of "cmconnectionstatus.html" st
    ∧ ∀ i metric m,
        metrics !! i = Some metric →
        channel_effect (decode row (Strings.Sprintf02d channel)) (i, metric)
        = Ret (Emit m) →
        Const m ∈ new.
Proof.
  intros Hwidth Hlen Hkey Hparse Horder Hcases Hok.
  assert (channel_row_effects width decode order row
          = map (λ entry, effect_of (channel_effect
                                       (decode row (Strings.Sprintf02d channel)) entry))
                order) as Heffects.
  { unfold channel_row_effects. rewrite bool_decide_eq_true_2 by done. simpl.
    by rewrite Hkey, Hparse. }
  rewrite channel_row_spec by done. rewrite Heffects.
  rewrite run_effects_Ret by by apply crashes_map_false.
  eexists _, _. split; [done|].
  split; [by rewrite apply_effects_spec|]. split.
  - rewrite failures_of_apply_effects.
    match goal with |- context [emitted ?es] =>
      destruct (emitted_failures_length es) as [Hle _] end.
    rewrite length_map in Hle.
    unfold range_of in Horder. rewrite <- Horder. lia.
  - intros i metric m Hmetric Hm.
    apply (elem_of_emitted_map
             (channel_effect (decode row (Strings.Sprintf02d channel))) order (i, metric));
      [|done].
    by eapply range_of_elem.
Qed.

Section StatusFacts.

Variable ParseFloat : string → option float.

(** X13: in a decoded row of a channel table (13 cells downstream, 9
    upstream, a row key that parses) whose type and modulation cells
    are valid UTF-8, the lock and bonding columns never fail: each is
    sent with value 1 when its cell reads exactly "Locked" (column 2) or
    "Bonded" (column 4) and with value 0 for any other text; the channel
    type and modulation columns are sent with value 1 and the text of
    the cell as second label value; the codeword columns are sent when
    their cell is an integer.  All carry the channel label, and the
    metrics sent plus the parse failures counted for the row are at most
    the columns of the table's map (11 downstream, 7 upstream). *)
Theorem status_columns_sent (order : list (nat * Desc)) (st : State) (row : list string)
    (key : string) (channel : Z) :
  row !! 1 = Some key → Strings.ParseInt key = Some channel →
  let label := Strings.Sprintf02d channel in
  let sent r limit new :=
    ∃ st', r = Ret st' ∧ ch st' = ch st ++ new
           ∧ length new + failures_of "cmconnectionstatus.html" st'
             ≤ limit + failures_of "cmconnectionstatus.html" st in
  let flag (cell expected : string) := if bool_decide (cell = expected) then 1%float else 0%float in
  (length row = 13 → label_ok row 3 = true → label_ok row 9 = true →
   range_of downstreamChannelMetrics order →
     ∃ new, sent (downstream_row ParseFloat order st row) 11 new
       ∧ ∀ i metric cell,
           downstreamChannelMetrics !! i = Some metric → row !! i = Some cell →
           (i = 2 → Const (mkMetric metric CounterValue (flag cell "Locked") [label]) ∈ new)
           ∧ (i = 4 → Const (mkMetric metric CounterValue (flag cell "Bonded") [label]) ∈ new)
           ∧ (i = 3 ∨ i = 9 → Const (mkMetric metric CounterValue 1%float [label; cell]) ∈ new)
           ∧ (10 ≤ i ≤ 12 → ∀ v, Strings.ParseInt cell = Some v →
                Const (mkMetric metric CounterValue (float64_of_int64 v) [label]) ∈ new))
  ∧ (length row = 9 → label_ok row 3 = true → label_ok row 8 = true →
     range_of upstreamChannelMetrics order →
     ∃ new, sent (upstream_row ParseFloat order st row) 7 new
       ∧ ∀ i metric cell,
           upstreamChannelMetrics !! i = Some metric → row !! i = Some cell →
           (i = 2 → Const (mkMetric metric CounterValue (flag cell "Locked") [label]) ∈ new)
           ∧ (i = 4 → Const (mkMetric metric CounterValue (flag cell "Bonded") [label]) ∈ new)
           ∧ (i = 3 ∨ i = 8 → Const (mkMetric metric CounterValue 1%float [label; cell]) ∈ new)).
Proof.
  intros Hkey Hparse label sent flag.
  pose proof (Sprintf02d_valid channel) as Hlabel. fold label in Hlabel. split.
  - intros Hlen H3 H9 Horder.
    pose proof (downstream_entries_ok order Horder) as Hok.
    destruct (channel_row_sent downstreamChannelMetrics 13 (downstream_decode ParseFloat)
                order st row key channel) as (st' & new & Hrow & Hch & Hcount & Hsent);
      try done; [lia| | |].
    { intros l i. apply downstream_decode_cases. }
    { eapply Forall_impl; [exact Hok|]. intros entry Hentry.
      destruct (downstream_effect_ok ParseFloat row label entry) as (e & He & Hcrash & _);
        try done.
      by exists e. }
    exists new. split; [by exists st'|].
    intros i metric cell Hmetric Hcell.
    pose proof (label_ok_lookup row i cell) as Hcellvalid.
    assert (length (variableLabels metric)
            = if bool_decide (i = 3 ∨ i = 9) then 2 else 1) as Harity.
    { assert ((i, metric) ∈ order) as Hin by by eapply range_of_elem.
      rewrite Forall_forall in Hok. specialize (Hok _ Hin).
      unfold downstream_entry_ok in Hok. simpl in Hok.
      apply andb_true_iff in Hok as [_ Hok]. by apply Nat.eqb_eq in Hok. }
    repeat split.
    + intros ->. apply (Hsent 2 metric); [done|].
      apply channel_effect_decoded; [|done|by simpl; rewrite Hlabel].
      simpl. unfold index. by rewrite Hcell.
    + intros ->. apply (Hsent 4 metric); [done|].
      apply channel_effect_decoded; [|done|by simpl; rewrite Hlabel].
      simpl. unfold index. by rewrite Hcell.
    + intros Hi. apply (Hsent i metric); [done|].
      apply channel_effect_decoded.
      * destruct Hi as [-> | ->]; simpl; unfold index; by rewrite Hcell.
      * rewrite Harity. by rewrite bool_decide_eq_true_2.
      * simpl. rewrite Hlabel. simpl. rewrite Hcellvalid; [done| |done].
        by destruct Hi as [-> | ->].
    + intros Hi v Hv. apply (Hsent i metric); [done|].
      apply channel_effect_decoded.
      * assert (i = 10 ∨ i = 11 ∨ i = 12) as [-> | [-> | ->]] by lia;
          simpl; unfold index; rewrite Hcell; simpl; unfold decode_int; by rewrite Hv.
      * rewrite Harity. rewrite bool_decide_eq_false_2; [done|lia].
      * by simpl; rewrite Hlabel.
  - intros Hlen H3 H8 Horder.
    pose proof (upstream_entries_ok order Horder) as Hok.
    destruct (channel_row_sent upstreamChannelMetrics 9 (upstream_decode ParseFloat)
                order st row key channel) as (st' & new & Hrow & Hch & Hcount & Hsent);
      try done; [lia| | |].
    { intros l i. apply upstream_decode_cases. }
    { eapply Forall_impl; [exact Hok|]. intros entry Hentry.
      destruct (upstream_effect_ok ParseFloat row label entry) as (e & He & Hcrash & _);
        try done.
      by exists e. }
    exists new. split; [by exists st'|].
    intros i metric cell Hmetric Hcell.
    pose proof (label_ok_lookup row i cell) as Hcellvalid.
    assert (length (variableLabels metric)
            = if bool_decide (i = 3 ∨ i = 8) then 2 else 1) as Harity.
    { assert ((i, metric) ∈ order) as Hin by by eapply range_of_elem.
      rewrite Forall_forall in Hok. specialize (Hok _ Hin).
      unfold upstream_entry_ok in Hok. simpl in Hok.
      apply andb_true_iff in Hok as [_ Hok]. by apply Nat.eqb_eq in Hok. }
    repeat split.
    + intros ->. apply (Hsent 2 metric); [done|].
      apply channel_effect_decoded; [|done|by simpl; rewrite Hlabel].
      simpl. unfold index. by rewrite Hcell.
    + intros ->. apply (Hsent 4 metric); [done|].
      apply channel_effect_decoded; [|done|by simpl; rewrite Hlabel].
      simpl. unfold index. by rewrite Hcell.
    + intros Hi. apply (Hsent i metric); [done|].
      apply channel_effect_decoded.
      * destruct Hi as [-> | ->]; simpl; unfold index; by rewrite Hcell.
      * rewrite Harity. by rewrite bool_decide_eq_true_2.
      * simpl. rewrite Hlabel. simpl. rewrite Hcellvalid; [done| |done].
        by destruct Hi as [-> | ->].
Qed.

End StatusFacts.

Lemma status_columns_sent_witness :
  ∃ new st' metric,
    downstream_row Fixture.parseDecimal (map_to_list downstreamChannelMetrics)
      Fixture.empty Fixture.downstream_row = Ret st'
    ∧ ch st' = ch Fixture.empty ++ new
    ∧ downstreamChannelMetrics !! 2 = Some metric
    ∧ Const (mkMetric metric CounterValue 1%float ["01"]) ∈ new.
Proof.
  destruct (status_columns_sent Fixture.parseDecimal (map_to_list downstreamChannelMetrics)
              Fixture.empty Fixture.downstream_row "1" 1%Z) as [Hdown _];
    [reflexivity | reflexivity |].
  destruct Hdown as (new & (st' & Hrow & Hch & _) & Hsent);
    [reflexivity | reflexivity | reflexivity | unfold range_of; reflexivity |].
  exists new, st', (newChannelMetric "downstream" "locked" "Downstream Lock Status" []).
  split; [done|]. split; [done|]. split; [reflexivity|].
  by apply (Hsent 2 _ "Locked"); [reflexivity | reflexivity |].
Defined.

(** ** The samples of the pages *)

Section SampleFacts.

Variable ParseFloat : string → option float.

Lemma network_effect_counter row entry m :
  network_effect row entry = Ret (Emit m) →
  valueType m = CounterValue ∧ length (labelValues m) = 1
  ∧ length (variableLabels (desc m)) = 1
  ∧ forallb Utf8.ValidString (labelValues m) = true.
Proof.
  destruct entry as [i metric]. unfold network_effect.
  destruct (index row i) as [cell| |]; simpl; try done.
  destruct (Strings.ParseInt cell); [|done].
  destruct (index row 0) as [interface| |]; simpl; try done.
  destruct (MustNewConstMetric _ _ _ _) as [m'| |] eqn:Hm; simpl; try done.
  intros [= <-]. apply MustNewConstMetric_Ret in Hm as (-> & Hlen & Hvalid).
  simpl in *. by rewrite <- Hlen.
Qed.

Lemma channel_effect_counter decode entry m :
  channel_effect decode entry = Ret (Emit m) →
  valueType m = CounterValue
  ∧ length (labelValues m) = length (variableLabels (desc m))
  ∧ forallb Utf8.ValidString (labelValues m) = true
  ∧ ∃ value, decode entry.1 = Ret (Value value (labelValues m)).
Proof.
  destruct entry as [i metric]. unfold channel_effect. simpl.
  destruct (decode i) as [[value lvs| |]| |] eqn:Hd; simpl; try done.
  destruct (MustNewConstMetric _ _ _ _) as [m'| |] eqn:Hm; simpl; try done.
  intros [= <-]. apply MustNewConstMetric_Ret in Hm as (-> & Hlen & Hvalid). simpl.
  split; [done|]. split; [done|]. split; [done|]. by eexists.
Qed.

Lemma channel_row_counter width decode order row :
  (∀ row l i value lvs, decode row l i = Ret (Value value lvs) → 1 ≤ length lvs ≤ 2) →
  Forall (sent_metric (λ m, valueType m = CounterValue
                            ∧ length (labelValues m) = length (variableLabels (desc m))
                            ∧ 1 ≤ length (labelValues m) ≤ 2
                            ∧ forallb Utf8.ValidString (labelValues m) = true))
         (emitted (channel_row_effects width decode order row)).
Proof.
  intros Hdecode. unfold channel_row_effects.
  destruct (negb (bool_decide (length row = width))); [constructor|].
  destruct (row !! 1) as [cell|]; [|constructor].
  destruct (Strings.ParseInt cell) as [channel|]; [|constructor].
  apply emitted_map_Forall. intros [i metric] m Hin Hm.
  apply channel_effect_counter in Hm as (Htype & Harity & Hvalid & value & Hvalue).
  apply Hdecode in Hvalue. done.
Qed.

(** X5: every sample a poll that returns has sent for the two pages was
    sent as a counter (also the signal levels and the frequencies), and
    carries as many label values as its descriptor has labels, one or
    two, each valid UTF-8.  A poll returns when the cells of its pages
    that become label values are valid UTF-8. *)
Theorem page_samples_are_counters (o : Orders) (statsifc cmconnectionstatus : fetched)
    (st : State) :
  (∀ up st',
     scrape ParseFloat o statsifc cmconnectionstatus st = Ret (up, st') →
     ∃ new,
       ch st' = ch st ++ new
       ∧ Forall (sent_metric (λ m, valueType m = CounterValue
                                   ∧ length (labelValues m)
                                     = length (variableLabels (desc m))
                                   ∧ 1 ≤ length (labelValues m) ≤ 2
                                   ∧ forallb Utf8.ValidString (labelValues m) = true))
                new)
  ∧ (orders_ok o → statsifc_labels_ok statsifc = true →
     cmconnectionstatus_labels_ok cmconnectionstatus = true →
     ∃ st', scrape ParseFloat o statsifc cmconnectionstatus st = Ret (1%float, st')).
Proof.
  split; [|apply scrape_returns].
  intros up st'. rewrite scrape_state. destruct (_ || _); [done|]. intros [= <- <-].
  eexists. split; [done|].
  apply Forall_app. split.
  - unfold statsifc_effects.
    destruct statsifc as [|parsed]; [constructor|].
    destruct (parseTables parsed) as [[[|table tables]|]| |]; try by repeat constructor.
    case_bool_decide; [by repeat constructor|].
    apply table_effects_Forall. intros k row. unfold network_row_effects.
    destruct (negb (bool_decide (length row = 9))); [constructor|].
    apply emitted_map_Forall. intros entry m _ Hm.
    apply network_effect_counter in Hm as (Htype & Hlen & Harity & Hvalid).
    rewrite Hlen, Harity. repeat split; [done|lia..|done].
  - unfold cmconnectionstatus_effects.
    destruct cmconnectionstatus as [|parsed]; [constructor|].
    destruct (parseTables parsed) as [[[|table0 [|table1 [|table2 tables]]]|]| |];
      try by repeat constructor.
    destruct (_ || _); [by repeat constructor|].
    rewrite emitted_app. apply Forall_app. split.
    + apply table_effects_Forall. intros k row.
      apply channel_row_counter. intros row' l i value lvs Hd.
      apply downstream_decode_labels in Hd.
      destruct Hd as [-> | (cell & _ & _ & ->)]; simpl; lia.
    + apply table_effects_Forall. intros k row.
      apply channel_row_counter. intros row' l i value lvs Hd.
      apply upstream_decode_labels in Hd.
      destruct Hd as [-> | (cell & _ & _ & ->)]; simpl; lia.
Qed.

End SampleFacts.

Lemma page_samples_are_counters_witness :
  ∃ st' new,
    scrape Fixture.parseDecimal Fixture.orders (Body (Some Fixture.statsifc))
      (Body (Some Fixture.cmconnectionstatus)) Fixture.empty = Ret (1%float, st')
    ∧ ch st' = ch Fixture.empty ++ new
    ∧ Forall (sent_metric (λ m, valueType m = CounterValue)) new.
Proof.
  destruct (page_samples_are_counters Fixture.parseDecimal Fixture.orders
              (Body (Some Fixture.statsifc)) (Body (Some Fixture.cmconnectionstatus))
              Fixture.empty) as [Hsent Hreturns].
  destruct (Hreturns orders_ok_orders) as [st' Hst']; [reflexivity | reflexivity |].
  destruct (Hsent _ _ Hst') as (new & Hch & Hnew).
  exists st', new. split; [done|]. split; [done|].
  eapply sent_metric_impl; [|exact Hnew]. by intros m [Htype _].
Defined.

(** ** Frequencies in kHz *)

Lemma wrap64_range z : (- 2 ^ 63 ≤ wrap64 z < 2 ^ 63)%Z.
Proof.
  unfold wrap64. pose proof (Z.mod_pos_bound (z + 2 ^ 63) (2 ^ 64)) as H.
  change (2 ^ 64)%Z with (2 * 2 ^ 63)%Z in *. lia.
Qed.

Lemma wrap64_congruent z : ((wrap64 z - z) mod 2 ^ 64 = 0)%Z.
Proof.
  unfold wrap64.
  replace ((z + 2 ^ 63) mod 2 ^ 64 - 2 ^ 63 - z)%Z
    with (- ((z + 2 ^ 63) / 2 ^ 64) * 2 ^ 64)%Z.
  - apply Z.mod_mul. done.
  - pose proof (Z.div_mod (z + 2 ^ 63) (2 ^ 64)). lia.
Qed.

Lemma wrap64_exact z : wrap64 z = z ↔ (- 2 ^ 63 ≤ z < 2 ^ 63)%Z.
Proof.
  split.
  - intros <-. apply wrap64_range.
  - intros Hz. unfold wrap64. rewrite Z.mod_small; [lia|].
    change (2 ^ 64)%Z with (2 * 2 ^ 63)%Z. lia.
Qed.

(** X9: a frequency given in kHz is multiplied by 1000 in int64, without
    a check: the value sent is the product exactly when the number is
    between -9223372036854775 and 9223372036854775; beyond that it is the
    product wrapped around to 64 bits, and the sample is still sent. *)
Theorem kilohertz_wraps (cell number : string) (labelValues : list string) (v : Z) :
  Strings.Split cell " " = [number; "kHz"] → Strings.ParseInt number = Some v →
  ∃ w, decode_hz cell labelValues = Value (float64_of_int64 w) labelValues
       ∧ (- 2 ^ 63 ≤ w < 2 ^ 63)%Z
       ∧ ((w - v * 1000) mod 2 ^ 64 = 0)%Z
       ∧ (w = (v * 1000)%Z ↔ (-9223372036854775 ≤ v ≤ 9223372036854775)%Z).
Proof.
  intros Hsplit Hparse. exists (wrap64 (v * 1000)).
  split; [|split; [apply wrap64_range|split; [apply wrap64_congruent|]]].
  - unfold decode_hz. rewrite Hsplit, Hparse.
    rewrite bool_decide_eq_false_2 by done. by rewrite bool_decide_eq_true_2.
  - rewrite wrap64_exact. change (2 ^ 63)%Z with 9223372036854775808%Z. lia.
Qed.

Lemma kilohertz_wraps_witness :
  Strings.ParseInt "9223372036854776" = Some 9223372036854776%Z
  ∧ ∃ w, decode_hz "9223372036854776 kHz" ["01"] = Value (float64_of_int64 w) ["01"]
         ∧ (w < 0)%Z.
Proof.
  split; [reflexivity|].
  destruct (kilohertz_wraps "9223372036854776 kHz" "9223372036854776" ["01"]
              9223372036854776%Z) as (w & Hw & Hrange & Hmod & Hexact);
    [reflexivity | reflexivity |].
  exists w. split; [done|].
  apply Z.mod_divide in Hmod; [|done]. destruct Hmod as [k Hk].
  change (2 ^ 63)%Z with 9223372036854775808%Z in Hrange.
  change (2 ^ 64)%Z with 18446744073709551616%Z in Hk.
  destruct Hexact as [_ Hexact]. lia.
Defined.

(** ** Cells with a unit *)

Lemma splitBytes_length sep l :
  length (Strings.splitBytes sep l) = S (length (List.filter (λ a, Ascii.eqb a sep) l)).
Proof.
  induction l as [|a l IH]; [done|]. simpl.
  destruct (Strings.splitBytes sep l) as [|piece pieces]; [done|].
  destruct (Ascii.eqb a sep); simpl in *; lia.
Qed.

Lemma splitBytes_join sep l :
  match Strings.splitBytes sep l with
  | [] => False
  | piece :: pieces => l = piece ++ concat (map (cons sep) pieces)
  end.
Proof.
  induction l as [|a l IH]; [done|]. simpl.
  destruct (Strings.splitBytes sep l) as [|piece pieces]; [done|].
  destruct (Ascii.eqb a sep) eqn:Ha.
  - apply Ascii.eqb_eq in Ha as ->. simpl. by rewrite <- IH.
  - simpl. by rewrite <- IH.
Qed.

Lemma of_bytes_app p q :
  Strings.of_bytes (p ++ q) = Strings.of_bytes p +:+ Strings.of_bytes q.
Proof. induction p as [|a p IH]; [done|]. simpl. by rewrite IH. Qed.

Lemma Split_length s sep :
  length (Strings.Split s sep)
  = S (length (List.filter (λ a, Ascii.eqb a sep) (Strings.bytes s))).
Proof. unfold Strings.Split. rewrite length_fmap. apply splitBytes_length. Qed.

(** X11: the cells of the frequency, width, SNR and level columns are cut
    at their spaces.  A cell with exactly one space is cut into the text
    before it and the text after it; a cell with no space or with more
    than one ("603000000Hz", "603 000 Hz") is skipped in these columns:
    nothing is sent for it and no parse failure is counted. *)
Theorem cells_cut_at_one_space (ParseFloat : string → option float) (cell : string) :
  (count_spaces cell = 1 →
     ∃ number unit, Strings.Split cell " " = [number; unit]
                    ∧ cell = number +:+ " " +:+ unit)
  ∧ (count_spaces cell ≠ 1 →
       ∀ (row : list string) (channelLabel : string) (i : nat) (metric : Desc) (st : State),
         row !! i = Some cell →
         (5 ≤ i ≤ 8 →
            channel_column (downstream_decode ParseFloat row channelLabel) st (i, metric)
            = Ret st)
         ∧ (5 ≤ i ≤ 7 →
              channel_column (upstream_decode ParseFloat row channelLabel) st (i, metric)
              = Ret st)).
Proof.
  unfold count_spaces. pose proof (Split_length cell " ") as Hlength. split.
  - intros Hone. rewrite Hone in Hlength.
    unfold Strings.Split in *. rewrite length_fmap in Hlength.
    pose proof (splitBytes_join " " (Strings.bytes cell)) as Hjoin.
    destruct (Strings.splitBytes " " (Strings.bytes cell)) as [|p [|q [|r rest]]];
      try done.
    exists (Strings.of_bytes p), (Strings.of_bytes q). split; [done|].
    simpl in Hjoin. rewrite app_nil_r in Hjoin.
    rewrite <- (String.string_of_list_ascii_of_string cell).
    change (String.list_ascii_of_string cell) with (Strings.bytes cell).
    rewrite Hjoin. change String.string_of_list_ascii with Strings.of_bytes.
    by rewrite of_bytes_app.
  - intros Hspaces row channelLabel i metric st Hcell.
    assert (∀ l, decode_hz cell l = Skipped) as Hhz.
    { intros l. unfold decode_hz.
      destruct (Strings.Split cell " ") as [|p [|q [|r rest]]]; try done.
      simpl in Hlength. lia. }
    assert (∀ unit l, decode_float ParseFloat cell unit l = Skipped) as Hfloat.
    { intros unit l. unfold decode_float.
      destruct (Strings.Split cell " ") as [|p [|q [|r rest]]]; try done.
      simpl in Hlength. lia. }
    split; intros Hi.
    + assert (i = 5 ∨ i = 6 ∨ i = 7 ∨ i = 8) as [-> | [-> | [-> | ->]]] by lia;
        unfold channel_column; simpl; unfold index; rewrite Hcell; simpl;
        by rewrite ?Hhz, ?Hfloat.
    + assert (i = 5 ∨ i = 6 ∨ i = 7) as [-> | [-> | ->]] by lia;
        unfold channel_column; simpl; unfold index; rewrite Hcell; simpl;
        by rewrite ?Hhz, ?Hfloat.
Qed.

(** ** Polls on the fixtures *)

Lemma scrape_counters_witness :
  ∃ st',
    scrape Fixture.parseDecimal Fixture.orders (Body (Some Fixture.statsifc)) FetchError
      Fixture.empty = Ret (1%float, st')
    ∧ totalScrapes st' = 1
    ∧ failures_of "cmconnectionstatus.html" st' = 0.
Proof.
  destruct (scrape_counters Fixture.parseDecimal Fixture.orders
              (Body (Some Fixture.statsifc)) FetchError Fixture.empty)
    as [Hcounters Hreturns].
  destruct (Hreturns orders_ok_orders) as [st' Hst']; [reflexivity | reflexivity |].
  destruct (Hcounters _ _ Hst') as (_ & Htotal & _ & _ & _ & _ & Hcm).
  exists st'. split; [done|]. split; [done|]. by rewrite Hcm.
Defined.

Lemma pages_independent_witness :
  ∃ sent1 sent2 st',
    scrape Fixture.parseDecimal Fixture.orders (Body (Some Fixture.statsifc))
      (Body (Some Fixture.short_page)) Fixture.empty = Ret (1%float, st')
    ∧ ch st' = ch Fixture.empty ++ sent1 ++ sent2.
Proof.
  destruct (pages_independent Fixture.parseDecimal Fixture.orders)
    as (first & second & Hpages & _ & _ & Hvalid).
  destruct (Hvalid orders_ok_orders) as [Hstats Hcm].
  destruct (Hstats (Body (Some Fixture.statsifc)) eq_refl) as [[sent1 failed1] H1].
  destruct (Hcm (Body (Some Fixture.short_page)) eq_refl) as [[sent2 failed2] H2].
  specialize (Hpages (Body (Some Fixture.statsifc)) (Body (Some Fixture.short_page))
                Fixture.empty).
  rewrite H1, H2 in Hpages. destruct Hpages as (st' & Hscrape & Hch & _).
  by exists sent1, sent2, st'.
Defined.

Lemma Collects_counts_witness :
  ∃ st' new,
    Collects Fixture.parseDecimal
      [mkPoll Fixture.orders (Body (Some Fixture.statsifc)) FetchError [];
       mkPoll Fixture.reversed FetchError (Body (Some Fixture.short_page))
         [("200", "get", false)]]
      Fixture.empty = Ret st'
    ∧ totalScrapes st' = 2
    ∧ ch st' = new
    ∧ length (List.filter is_up new) = 2.
Proof.
  assert (Forall (λ p, orders_ok (pollOrders p)
                       ∧ statsifc_labels_ok (pollStatsifc p) = true
                       ∧ cmconnectionstatus_labels_ok (pollCmconnectionstatus p) = true)
            [mkPoll Fixture.orders (Body (Some Fixture.statsifc)) FetchError [];
             mkPoll Fixture.reversed FetchError (Body (Some Fixture.short_page))
               [("200", "get", false)]]) as Hpolls.
  { apply List.Forall_cons;
      [split; [exact orders_ok_orders|split; reflexivity]|].
    apply List.Forall_cons;
      [split; [exact orders_ok_reversed|split; reflexivity]|].
    apply List.Forall_nil. }
  destruct (Collects_counts Fixture.parseDecimal _ Fixture.empty Hpolls)
    as (st' & new & Hcollects & Htotal & Hch & Hup & _).
  by exists st', new.
Defined.

Lemma Describe_covers_Collect_witness :
  ∃ st' new,
    Collect Fixture.parseDecimal Fixture.orders (Body (Some Fixture.statsifc))
      (Body (Some Fixture.cmconnectionstatus)) [("200", "get", true)] Fixture.empty
    = Ret st'
    ∧ ch st' = new
    ∧ Forall (λ x, sent_desc x
                   ∈ Describe (map_to_list networkMetrics)
                       (reverse (map_to_list downstreamChannelMetrics))
                       (map_to_list upstreamChannelMetrics)) new.
Proof.
  destruct (Describe_covers_Collect Fixture.parseDecimal Fixture.orders
              (map_to_list networkMetrics) (reverse (map_to_list downstreamChannelMetrics))
              (map_to_list upstreamChannelMetrics) (Body (Some Fixture.statsifc))
              (Body (Some Fixture.cmconnectionstatus)) [("200", "get", true)]
              Fixture.empty orders_ok_orders)
    as (Hcovers & _ & _ & Hreturns).
  - unfold range_of. reflexivity.
  - unfold range_of. apply reverse_Permutation.
  - unfold range_of. reflexivity.
  - destruct Hreturns as [st' Hst']; [reflexivity | reflexivity |].
    destruct (Hcovers _ Hst') as (new & Hch & Hnew).
    by exists st', new.
Defined.
